(** * GlobalDataCollector: a model of [global_data_collector.py]

    The collector fetches web pages, JSON APIs and RSS feeds, turns each
    into rows of a three-table SQLite store, mirrors pages and API payloads
    into an archive directory, and writes a summary report.

    The development is layered as the program is:
    - Python text helpers ([str.strip], [str.join], the [in] test);
    - the [json] module: values, [json.dumps], and a decoder for the
      integer/string/array/object fragment of the grammar;
    - the BeautifulSoup tree and the navigation calls the collector uses;
    - the SQLite store and the archive directory;
    - the collector's methods, written once as effect trees and run either
      sequentially or interleaved on the worker pool of [collect_all_data];
    - the arithmetic of [get_storage_size] and the [__main__] block.

    The properties follow the definitions: the behaviour of each method,
    then what faults of the database, of the parsers and of the file
    system do to a job, then the store, then the run as a whole under
    every schedule of the pool. *)

From Stdlib Require Import List String Ascii ZArith Lia Bool Arith.
From Stdlib Require Import DecimalString Permutation.
Import ListNotations.
Local Open Scope string_scope.
Local Open Scope list_scope.
Local Open Scope nat_scope.

(** [a +++ b] is Python's [a + b] on text; [++] stays the list append. *)
Infix "+++" := String.append (at level 60, right associativity).

Set Implicit Arguments.
Set Warnings "-register-all".

(* ------------------------------------------------------------------ *)
(** ** Python text *)

(** A [str] is modelled as a [string] of Latin-1 code points. *)
Module PyStr.

Definition code (c : ascii) : nat := nat_of_ascii c.

(** [str.isspace] on the code points below 256. *)
Definition isspace (c : ascii) : bool :=
  let n := code c in
  ((9 <=? n) && (n <=? 13)) || ((28 <=? n) && (n <=? 32))
  || (n =? 133) || (n =? 160).

Fixpoint lstrip (s : string) : string :=
  match s with
  | EmptyString => EmptyString
  | String c r => if isspace c then lstrip r else s
  end.

(** [rstrip] keeps a character when it is not a space or when something
    survives to its right. *)
Fixpoint rstrip (s : string) : string :=
  match s with
  | EmptyString => EmptyString
  | String c r =>
      match rstrip r with
      | EmptyString => if isspace c then EmptyString else String c EmptyString
      | r' => String c r'
      end
  end.

Definition strip (s : string) : string := rstrip (lstrip s).

(** [sep.join(parts)] *)
Fixpoint join (sep : string) (parts : list string) : string :=
  match parts with
  | [] => ""
  | [p] => p
  | p :: rest => p +++ sep +++ join sep rest
  end.

Fixpoint startswith (p s : string) : bool :=
  match p, s with
  | EmptyString, _ => true
  | String a p', String b s' => Ascii.eqb a b && startswith p' s'
  | String _ _, EmptyString => false
  end.

(** [needle in hay] *)
Fixpoint contains (needle hay : string) : bool :=
  startswith needle hay
  || match hay with
     | EmptyString => false
     | String _ r => contains needle r
     end.

Definition nonempty (s : string) : bool :=
  match s with EmptyString => false | _ => true end.

Definition first_char (s : string) : option ascii :=
  match s with EmptyString => None | String c _ => Some c end.

Fixpoint last_char (s : string) : option ascii :=
  match s with
  | EmptyString => None
  | String c EmptyString => Some c
  | String _ r => last_char r
  end.

(** [str(n)] for an integer. *)
Definition of_Z (z : Z) : string := NilZero.string_of_int (Z.to_int z).
Definition of_nat (n : nat) : string := of_Z (Z.of_nat n).

End PyStr.

(* ------------------------------------------------------------------ *)
(** ** The [json] module *)

Module Json.

(** What [json.loads] can return.  A float is kept as the text [repr]
    gives it, which is what [json.dumps] prints. *)
Inductive value : Type :=
| JNull
| JBool (b : bool)
| JInt (z : Z)
| JFloat (repr : string)
| JStr (s : string)
| JArr (items : list value)
| JObj (members : list (string * value)).

Definition dquote : string := String (ascii_of_nat 34) EmptyString.

Definition hex_digit (n : nat) : ascii :=
  ascii_of_nat (if n <? 10 then 48 + n else 87 + n).

(** [ESCAPE_ASCII]: every code point outside space..~, and the quote and
    backslash, is escaped. *)
Definition escape_char (c : ascii) : string :=
  let n := PyStr.code c in
  if n =? 34 then "\" +++ dquote
  else if n =? 92 then "\\"
  else if n =? 10 then "\n"
  else if n =? 13 then "\r"
  else if n =? 9 then "\t"
  else if n =? 8 then "\b"
  else if n =? 12 then "\f"
  else if (32 <=? n) && (n <=? 126) then String c EmptyString
  else "\u00" +++ String (hex_digit (n / 16)) (String (hex_digit (n mod 16)) EmptyString).

Fixpoint escape (s : string) : string :=
  match s with
  | EmptyString => EmptyString
  | String c r => escape_char c +++ escape r
  end.

Definition quote (s : string) : string := dquote +++ escape s +++ dquote.

(** [json.dumps(v)] with the default separators [', '] and [': '] and
    [ensure_ascii=True]. *)
Fixpoint dumps (v : value) : string :=
  match v with
  | JNull => "null"
  | JBool true => "true"
  | JBool false => "false"
  | JInt z => PyStr.of_Z z
  | JFloat r => r
  | JStr s => quote s
  | JArr items => "[" +++ PyStr.join ", " (map dumps items) +++ "]"
  | JObj members =>
      "{" +++ PyStr.join ", "
               (map (fun kv => quote (fst kv) +++ ": " +++ dumps (snd kv)) members)
          +++ "}"
  end.

(** *** Decoding

    [loads_core] follows the scanner of [json.decoder] on the fragment
    of the grammar made of [null], [true], [false], integers, strings
    with the one-letter escapes, arrays and objects.  It answers [None]
    both for text the decoder rejects and for text outside the fragment
    (floats, [\u] escapes); only its [Some] answers are used below. *)

Definition is_ws (c : ascii) : bool :=
  let n := PyStr.code c in (n =? 32) || (n =? 9) || (n =? 10) || (n =? 13).

Fixpoint skip_ws (s : string) : string :=
  match s with
  | EmptyString => EmptyString
  | String c r => if is_ws c then skip_ws r else s
  end.

Definition is_digit (c : ascii) : bool :=
  let n := PyStr.code c in (48 <=? n) && (n <=? 57).

Fixpoint scan_digits (acc : Z) (s : string) : Z * string :=
  match s with
  | EmptyString => (acc, s)
  | String c r =>
      if is_digit c
      then scan_digits (10 * acc + Z.of_nat (PyStr.code c - 48))%Z r
      else (acc, s)
  end.

(** [0|[1-9][0-9]*]: a leading zero stands alone. *)
Definition scan_natural (s : string) : option (Z * string) :=
  match s with
  | EmptyString => None
  | String c r =>
      if PyStr.code c =? 48 then Some (0%Z, r)
      else if is_digit c then Some (scan_digits 0%Z s)
      else None
  end.

Definition float_follows (s : string) : bool :=
  match s with
  | EmptyString => false
  | String c _ =>
      let n := PyStr.code c in (n =? 46) || (n =? 101) || (n =? 69)
  end.

Definition scan_int (s : string) : option (value * string) :=
  let signed (sign : Z) (t : string) :=
    match scan_natural t with
    | Some (z, r) => if float_follows r then None else Some (JInt (sign * z), r)
    | None => None
    end in
  match s with
  | String c r => if PyStr.code c =? 45 then signed (-1)%Z r else signed 1%Z s
  | EmptyString => None
  end.

Definition unescape (c : ascii) : option ascii :=
  let n := PyStr.code c in
  if (n =? 34) || (n =? 92) || (n =? 47) then Some c
  else if n =? 98 then Some (ascii_of_nat 8)
  else if n =? 102 then Some (ascii_of_nat 12)
  else if n =? 110 then Some (ascii_of_nat 10)
  else if n =? 114 then Some (ascii_of_nat 13)
  else if n =? 116 then Some (ascii_of_nat 9)
  else None.

Definition cons_char (c : ascii) (r : option (string * string)) :=
  match r with
  | Some (body, rest) => Some (String c body, rest)
  | None => None
  end.

(** The text after an opening quote, up to the closing one. *)
Fixpoint scan_string (s : string) : option (string * string) :=
  match s with
  | EmptyString => None
  | String c r =>
      let n := PyStr.code c in
      if n =? 34 then Some (EmptyString, r)
      else if n =? 92 then
        match r with
        | String e r' =>
            match unescape e with
            | Some ch => cons_char ch (scan_string r')
            | None => None
            end
        | EmptyString => None
        end
      else if n <? 32 then None
      else cons_char c (scan_string r)
  end.

(** [dict(pairs)]: a repeated key keeps its first place and its last
    value. *)
Fixpoint dict_set (k : string) (v : value) (d : list (string * value)) :=
  match d with
  | [] => [(k, v)]
  | (k', v') :: r =>
      if String.eqb k k' then (k', v) :: r else (k', v') :: dict_set k v r
  end.

Definition dict_of_pairs (ps : list (string * value)) :=
  fold_left (fun d kv => dict_set (fst kv) (snd kv) d) ps [].

Definition expect (c : nat) (s : string) : option string :=
  match s with
  | String c' r => if PyStr.code c' =? c then Some r else None
  | EmptyString => None
  end.

Definition literal (word : string) (v : value) (s : string) :=
  if PyStr.startswith word s
  then Some (v, substring (String.length word) (String.length s) s)
  else None.

Fixpoint scan_value (fuel : nat) (s : string) : option (value * string) :=
  match fuel with
  | 0 => None
  | S fuel =>
      match s with
      | EmptyString => None
      | String c r =>
          let n := PyStr.code c in
          if n =? 34 then
            match scan_string r with
            | Some (t, r') => Some (JStr t, r')
            | None => None
            end
          else if n =? 91 then
            match skip_ws r with
            | String c' r' as body =>
                if PyStr.code c' =? 93 then Some (JArr [], r')
                else match scan_items fuel body with
                     | Some (vs, rest) => Some (JArr vs, rest)
                     | None => None
                     end
            | EmptyString => None
            end
          else if n =? 123 then
            match skip_ws r with
            | String c' r' as body =>
                if PyStr.code c' =? 125 then Some (JObj [], r')
                else match scan_members fuel body with
                     | Some (ps, rest) => Some (JObj (dict_of_pairs ps), rest)
                     | None => None
                     end
            | EmptyString => None
            end
          else if n =? 110 then literal "null" JNull s
          else if n =? 116 then literal "true" (JBool true) s
          else if n =? 102 then literal "false" (JBool false) s
          else scan_int s
      end
  end
with scan_items (fuel : nat) (s : string) : option (list value * string) :=
  match fuel with
  | 0 => None
  | S fuel =>
      match scan_value fuel s with
      | Some (v, r) =>
          match skip_ws r with
          | String c r' =>
              if PyStr.code c =? 93 then Some ([v], r')
              else if PyStr.code c =? 44 then
                match scan_items fuel (skip_ws r') with
                | Some (vs, rest) => Some (v :: vs, rest)
                | None => None
                end
              else None
          | EmptyString => None
          end
      | None => None
      end
  end
with scan_members (fuel : nat) (s : string)
     : option (list (string * value) * string) :=
  match fuel with
  | 0 => None
  | S fuel =>
      match expect 34 s with
      | Some r =>
          match scan_string r with
          | Some (k, r1) =>
              match expect 58 (skip_ws r1) with
              | Some r2 =>
                  match scan_value fuel (skip_ws r2) with
                  | Some (v, r3) =>
                      match skip_ws r3 with
                      | String c r' =>
                          if PyStr.code c =? 125 then Some ([(k, v)], r')
                          else if PyStr.code c =? 44 then
                            match scan_members fuel (skip_ws r') with
                            | Some (ps, rest) => Some ((k, v) :: ps, rest)
                            | None => None
                            end
                          else None
                      | EmptyString => None
                      end
                  | None => None
                  end
              | None => None
              end
          | None => None
          end
      | None => None
      end
  end.

(** [json.loads(s)] on the fragment: leading blanks, one value, trailing
    blanks, nothing else. *)
Definition loads_core (s : string) : option value :=
  match scan_value (2 * String.length s + 2) (skip_ws s) with
  | Some (v, r) =>
      match skip_ws r with
      | EmptyString => Some v
      | String _ _ => None
      end
  | None => None
  end.

End Json.

(* ------------------------------------------------------------------ *)
(** ** BeautifulSoup trees *)

Module Soup.

(** The string classes of a parse tree: plain [NavigableString], [CData],
    and the classes [get_text] leaves out ([Comment] standing for them). *)
Inductive kind : Type := Text | CData | Comment.

Inductive node : Type :=
| Tag (name : string) (contents : list node)
| Str (k : kind) (s : string).

(** The [BeautifulSoup] object is the tag that holds the document. *)
Definition document (contents : list node) : node := Tag "[document]" contents.

(** [tag.descendants]: the nodes below a tag, in document order. *)
Fixpoint descendants (n : node) : list node :=
  match n with
  | Tag _ cs => flat_map (fun c => c :: descendants c) cs
  | Str _ _ => []
  end.

Definition is_named (names : list string) (n : node) : bool :=
  match n with
  | Tag nm _ => existsb (String.eqb nm) names
  | Str _ _ => false
  end.

(** [tag.find_all(names)], also written [tag(names)]. *)
Definition find_all (names : list string) (n : node) : list node :=
  filter (is_named names) (descendants n).

(** [tag.find(name)], also written [tag.name]: the first match or [None]. *)
Definition find (name : string) (n : node) : option node :=
  hd_error (find_all [name] n).

(** [tag.string]: the only string of a tag, through single children. *)
Fixpoint get_string (n : node) : option string :=
  match n with
  | Str _ s => Some s
  | Tag _ [c] => get_string c
  | Tag _ _ => None
  end.

Definition visible (k : kind) : bool :=
  match k with Text | CData => true | Comment => false end.

(** One step of [_all_strings]: what a descendant contributes. *)
Definition piece (strip : bool) (d : node) : list string :=
  match d with
  | Str k s =>
      if visible k then
        if strip then
          let s' := PyStr.strip s in
          if PyStr.nonempty s' then [s'] else []
        else [s]
      else []
  | Tag _ _ => []
  end.

Definition all_strings (strip : bool) (n : node) : list string :=
  flat_map (piece strip) (descendants n).

(** [tag.get_text(separator, strip)] *)
Definition get_text (separator : string) (strip : bool) (n : node) : string :=
  PyStr.join separator (all_strings strip n).

(** [tag.text] *)
Definition text (n : node) : string := get_text EmptyString false n.

(** The tree after [for t in soup(names): t.decompose()]: every tag with
    one of the names is cut out with all it holds. *)
Fixpoint decompose_all (names : list string) (n : node) : node :=
  match n with
  | Tag nm cs =>
      Tag nm (flat_map
                (fun c => if is_named names c then [] else [decompose_all names c])
                cs)
  | Str _ _ => n
  end.

End Soup.

(* ------------------------------------------------------------------ *)
(** ** The SQLite store and the archive directory *)

(** A Python dict whose values are text or [None], in insertion order. *)
Definition pydict : Type := list (string * option string).

Fixpoint dict_get (k : string) (d : pydict) : option (option string) :=
  match d with
  | [] => None
  | (k', v) :: r => if String.eqb k k' then Some v else dict_get k r
  end.

Definition json_of_pydict (d : pydict) : Json.value :=
  Json.JObj (map (fun kv => (fst kv,
                             match snd kv with
                             | Some s => Json.JStr s
                             | None => Json.JNull
                             end)) d).

Module Store.

Inductive cell : Type := Null | Int (z : Z) | Txt (s : string).

(** A row maps each column of its table to a cell, [id] first. *)
Definition row : Type := list (string * cell).

Record db : Type := mk_db {
  web_data : list row;
  api_data : list row;
  news_articles : list row
}.

(** [init_database] on a fresh file: the three tables, no row. *)
Definition init_database : db := mk_db [] [] [].

(** The columns of the [CREATE TABLE] statements, [id] apart. *)
Definition columns (table : string) : option (list string) :=
  if String.eqb table "web_data" then
    Some ["url"; "title"; "content"; "timestamp"; "source"]
  else if String.eqb table "api_data" then
    Some ["endpoint"; "data_type"; "data_json"; "timestamp"]
  else if String.eqb table "news_articles" then
    Some ["title"; "content"; "source"; "published_date"; "url"; "authors";
          "timestamp"]
  else None.

Definition rows (table : string) (d : db) : option (list row) :=
  if String.eqb table "web_data" then Some (web_data d)
  else if String.eqb table "api_data" then Some (api_data d)
  else if String.eqb table "news_articles" then Some (news_articles d)
  else None.

Definition set_rows (table : string) (rs : list row) (d : db) : db :=
  if String.eqb table "web_data" then mk_db rs (api_data d) (news_articles d)
  else if String.eqb table "api_data" then mk_db (web_data d) rs (news_articles d)
  else if String.eqb table "news_articles" then mk_db (web_data d) (api_data d) rs
  else d.

Definition cell_of (v : option string) : cell :=
  match v with Some s => Txt s | None => Null end.

(** The cell a statement gives a column.  A text is kept as text, which
    is what the [TEXT] columns do; [timestamp], declared [DATETIME], would
    turn a text that reads as a number into that number, which no
    [isoformat()] text does. *)
Definition field (data : pydict) (column : string) : string * cell :=
  (column, match dict_get column data with
           | Some v => cell_of v
           | None => Null
           end).

(** The row an [INSERT] of [data] adds after [n] earlier rows. *)
Definition new_row (cols : list string) (data : pydict) (n : nat) : row :=
  ("id", Int (Z.of_nat (S n))) :: map (field data) cols.

Definition known (cols : list string) (k : string) : bool :=
  existsb (String.eqb k) cols.

(** [INSERT INTO table (keys) VALUES (?, ...)], committed; or the text of
    the error SQLite answers: an empty column list does not parse, then
    the table and each column must exist.  Names are taken as the
    collector writes them, spelled as [init_database] declares them and
    never [id]: SQLite itself matches names without regard to case and
    takes an [id] given in the statement. *)
Definition insert (table : string) (data : pydict) (d : db) : string + db :=
  match data with
  | [] => inl ("near " +++ Json.dquote +++ ")" +++ Json.dquote +++ ": syntax error")
  | _ :: _ =>
      match columns table, rows table d with
      | Some cols, Some rs =>
          match List.find (fun k => negb (known cols k)) (map fst data) with
          | Some k => inl ("table " +++ table +++ " has no column named " +++ k)
          | None =>
              inr (set_rows table (rs ++ [new_row cols data (List.length rs)]) d)
          end
      | _, _ => inl ("no such table: " +++ table)
      end
  end.

(** [SELECT COUNT( * ) FROM table] *)
Definition count (table : string) (d : db) : string + nat :=
  match rows table d with
  | Some rs => inr (List.length rs)
  | None => inl ("no such table: " +++ table)
  end.

Definition get (column : string) (r : row) : option cell :=
  match List.find (fun kv => String.eqb column (fst kv)) r with
  | Some kv => Some (snd kv)
  | None => None
  end.

End Store.

Module Archive.

(** The files of [self.data_storage] other than the database file, each
    with the JSON document written to it (pretty-printed on disk). *)
Definition dir : Type := list (string * Json.value).

Definition db_file : string := "global_data.db".

(** [open(path, 'w')] then [json.dump]: a new name is added, an old one
    is overwritten in place. *)
Fixpoint write (name : string) (doc : Json.value) (d : dir) : dir :=
  match d with
  | [] => [(name, doc)]
  | (n, old) :: r =>
      if String.eqb n name then (n, doc) :: r else (n, old) :: write name doc r
  end.

(** [os.listdir(self.data_storage)] *)
Definition listdir (d : dir) : list string := db_file :: map fst d.

End Archive.

(* ------------------------------------------------------------------ *)
(** ** Time, exceptions and HTTP responses *)

Record datetime : Type := mk_datetime {
  year : nat; month : nat; day : nat;
  hour : nat; minute : nat; second : nat; microsecond : nat
}.

Fixpoint zeros (n : nat) : string :=
  match n with 0 => EmptyString | S k => "0" +++ zeros k end.

(** [f"{n:0{width}d}"] *)
Definition pad (width n : nat) : string :=
  let s := PyStr.of_nat n in zeros (width - String.length s) +++ s.

(** [dt.isoformat()]: the microseconds are printed unless they are zero. *)
Definition isoformat (t : datetime) : string :=
  pad 4 (year t) +++ "-" +++ pad 2 (month t) +++ "-" +++ pad 2 (day t) +++ "T"
  +++ pad 2 (hour t) +++ ":" +++ pad 2 (minute t) +++ ":" +++ pad 2 (second t)
  +++ (if microsecond t =? 0 then EmptyString else "." +++ pad 6 (microsecond t)).

(** [dt.strftime('%Y%m%d_%H%M%S')] *)
Definition strftime (t : datetime) : string :=
  pad 4 (year t) +++ pad 2 (month t) +++ pad 2 (day t) +++ "_"
  +++ pad 2 (hour t) +++ pad 2 (minute t) +++ pad 2 (second t).

(** The exception classes the collector can meet; all derive from
    [Exception]. *)
Inductive exn_class : Type :=
| ValueError | RequestException | HTTPError | JSONDecodeError
| ParserError | DatabaseError | OSError | AssertionError | OverflowError.

(** An exception with the text [str(e)] gives. *)
Record exn : Type := mk_exn { cls : exn_class; str : string }.

Record response : Type := mk_response {
  status_code : nat;
  reason : string;
  body : string
}.

(** What [response.raise_for_status()] raises, if anything. *)
Definition status_error (url : string) (r : response) : option exn :=
  let s := status_code r in
  let msg (side : string) :=
    PyStr.of_nat s +++ side +++ reason r +++ " for url: " +++ url in
  if (400 <=? s) && (s <? 500) then Some (mk_exn HTTPError (msg " Client Error: "))
  else if (500 <=? s) && (s <? 600) then Some (mk_exn HTTPError (msg " Server Error: "))
  else None.

(** The parsers the collector calls and does not define. *)
Record parsers : Type := mk_parsers {
  (** [BeautifulSoup(text, 'html.parser')]: lenient, yet it raises on some
      markup, an unknown marked section for one *)
  html_parser : string -> exn + Soup.node;
  (** [BeautifulSoup(content, 'xml')] *)
  xml_parser : string -> exn + Soup.node;
  (** [response.json()] *)
  json_loads : string -> exn + Json.value
}.

(* ------------------------------------------------------------------ *)
(** ** Effects *)

Inductive level : Type := INFO | WARNING | ERROR.

(** How one [connect / execute / commit / close] round ends. *)
Inductive insert_outcome : Type :=
| Inserted
| Refused (e : exn)       (* execute or commit raised; nothing is stored *)
| Unreachable (e : exn).  (* connect raised *)

Inductive eff : Type -> Type :=
| Get (url : string) : eff (exn + response)
| Now : eff datetime
| Clock : eff nat
| Insert (table : string) (data : pydict) : eff insert_outcome
| Count (table : string) : eff (exn + nat)
| Dump (filename : string) (doc : Json.value) : eff (option exn)
| ListDir : eff (list string)
| StorageSize : eff string
| Log (lvl : level) (msg : string) : eff unit
| MakeDirs : eff (option exn)
| InitDb : eff (option exn).

(** What the outside does at each moment of a run; a moment is the number
    of effects performed before it. *)
Record env : Type := mk_env {
  net : nat -> string -> exn + response;
  now : nat -> datetime;
  clock : nat -> nat;                       (* time.time(), in 1/100 s *)
  connect_fault : nat -> option exn;        (* what sqlite3.connect raises *)
  statement_fault : nat -> option exn;      (* what execute or commit raises *)
  open_fault : nat -> option exn;           (* what open or os.makedirs raises *)
  storage_size : nat -> string
}.

Inductive event : Type :=
| EGet (url : string)
| ENow
| ETime
| EInsert (table : string) (data : pydict) (stored : bool)
| ECount (table : string)
| EDump (filename : string) (written : bool)
| EListDir
| EStorageSize
| ELog (lvl : level) (msg : string)
| EMakeDirs (made : bool)
| EInitDb (done : bool).

Record world : Type := mk_world {
  db : Store.db;
  files : Archive.dir;
  trace : list event
}.

Definition moment (w : world) : nat := List.length (trace w).

Definition emit (ev : event) (w : world) : world :=
  mk_world (db w) (files w) (trace w ++ [ev]).

Definition set_db (d : Store.db) (w : world) : world :=
  mk_world d (files w) (trace w).

Definition set_files (f : Archive.dir) (w : world) : world :=
  mk_world (db w) f (trace w).

Definition perform (E : env) (X : Type) (e : eff X) (w : world) : X * world :=
  let t := moment w in
  match e in eff X return X * world with
  | Get url => (net E t url, emit (EGet url) w)
  | Now => (now E t, emit ENow w)
  | Clock => (clock E t, emit ETime w)
  | Insert table data =>
      match connect_fault E t with
      | Some x => (Unreachable x, emit (EInsert table data false) w)
      | None =>
          match statement_fault E t with
          | Some x => (Refused x, emit (EInsert table data false) w)
          | None =>
              match Store.insert table data (db w) with
              | inr d' => (Inserted, emit (EInsert table data true) (set_db d' w))
              | inl msg =>
                  (Refused (mk_exn DatabaseError msg),
                   emit (EInsert table data false) w)
              end
          end
      end
  | Count table =>
      (match connect_fault E t with
       | Some x => inl x
       | None =>
           match Store.count table (db w) with
           | inr n => inr n
           | inl msg => inl (mk_exn DatabaseError msg)
           end
       end, emit (ECount table) w)
  | Dump filename doc =>
      match open_fault E t with
      | Some x => (Some x, emit (EDump filename false) w)
      | None =>
          (None,
           emit (EDump filename true)
                (set_files (Archive.write filename doc (files w)) w))
      end
  | ListDir => (Archive.listdir (files w), emit EListDir w)
  | StorageSize => (storage_size E t, emit EStorageSize w)
  | Log lvl msg => (tt, emit (ELog lvl msg) w)
  | MakeDirs =>
      (* [os.makedirs(self.data_storage, exist_ok=True)]: the directory is
         there afterwards, with the files it had *)
      match open_fault E t with
      | Some x => (Some x, emit (EMakeDirs false) w)
      | None => (None, emit (EMakeDirs true) w)
      end
  | InitDb =>
      (* [connect], three [CREATE TABLE IF NOT EXISTS], [commit], [close]:
         tables that exist keep their rows, and a new file gets the three
         tables empty, which is the store of a world with no row *)
      match connect_fault E t with
      | Some x => (Some x, emit (EInitDb false) w)
      | None =>
          match statement_fault E t with
          | Some x => (Some x, emit (EInitDb false) w)
          | None => (None, emit (EInitDb true) w)
          end
      end
  end.

(** Views of a trace. *)
Definition requests_of (tr : list event) : list string :=
  flat_map (fun ev => match ev with EGet u => [u] | _ => [] end) tr.

Definition log_of (tr : list event) : list (level * string) :=
  flat_map (fun ev => match ev with ELog l m => [(l, m)] | _ => [] end) tr.

Definition inserts_of (tr : list event) : list (string * pydict * bool) :=
  flat_map (fun ev => match ev with
                      | EInsert t d ok => [(t, d, ok)]
                      | _ => []
                      end) tr.

Definition requests (w : world) : list string := requests_of (trace w).
Definition log (w : world) : list (level * string) := log_of (trace w).
Definition inserts (w : world) := inserts_of (trace w).

(** *** Programs *)

Inductive prog (A : Type) : Type :=
| Ret (a : A)
| Raise (e : exn)
| Vis (X : Type) (e : eff X) (k : X -> prog A).

Arguments Ret {A} a.
Arguments Raise {A} e.
Arguments Vis {A X} e k.

Fixpoint bind {A B : Type} (p : prog A) (f : A -> prog B) : prog B :=
  match p with
  | Ret a => f a
  | Raise e => Raise e
  | Vis e k => Vis e (fun x => bind (k x) f)
  end.

(** [try: p  except Exception as e: h e] *)
Fixpoint catch {A : Type} (p : prog A) (h : exn -> prog A) : prog A :=
  match p with
  | Ret a => Ret a
  | Raise e => h e
  | Vis e k => Vis e (fun x => catch (k x) h)
  end.

Declare Scope prog_scope.
Delimit Scope prog_scope with prog.
Bind Scope prog_scope with prog.
Notation "x <- p ;; q" := (bind p (fun x => q))
  (at level 61, p at next level, right associativity) : prog_scope.
Notation "p ;; q" := (bind p (fun _ => q))
  (at level 61, right associativity) : prog_scope.

Inductive result (A : Type) : Type :=
| Returned (a : A)
| Raised (e : exn).

Arguments Returned {A} a.
Arguments Raised {A} e.

(** A program run alone, from start to end. *)
Fixpoint run (E : env) {A : Type} (p : prog A) (w : world) : result A * world :=
  match p with
  | Ret a => (Returned a, w)
  | Raise e => (Raised e, w)
  | Vis e k => let (x, w') := perform E e w in run E (k x) w'
  end.

Fixpoint for_each {A : Type} (l : list A) (f : A -> prog unit) : prog unit :=
  match l with
  | [] => Ret tt
  | x :: r => bind (f x) (fun _ => for_each r f)
  end.

(* ------------------------------------------------------------------ *)
(** ** The collector *)

Section Collector.

Variable P : parsers.

Local Open Scope prog_scope.

Definition logger_info (msg : string) : prog unit := Vis (Log INFO msg) Ret.
Definition logger_warning (msg : string) : prog unit := Vis (Log WARNING msg) Ret.
Definition logger_error (msg : string) : prog unit := Vis (Log ERROR msg) Ret.

Definition datetime_now : prog datetime := Vis Now Ret.

(** [requests.get(url, headers=self.headers, timeout=10)] *)
Definition requests_get (url : string) : prog response :=
  Vis (Get url) (fun r => match r with inl e => Raise e | inr resp => Ret resp end).

Definition raise_for_status (url : string) (r : response) : prog unit :=
  match status_error url r with
  | Some e => Raise e
  | None => Ret tt
  end.

(** [with open(os.path.join(self.data_storage, filename), 'w') as f:
    json.dump(doc, f, indent=2)] *)
Definition json_dump_to (filename : string) (doc : Json.value) : prog unit :=
  Vis (Dump filename doc)
      (fun r => match r with Some e => Raise e | None => Ret tt end).

Definition of_sum {A : Type} (r : exn + A) : prog A :=
  match r with inl e => Raise e | inr a => Ret a end.

Definition save_to_database (table_name : string) (data_dict : pydict) : prog unit :=
  Vis (Insert table_name data_dict)
      (fun o => match o with
                | Unreachable e => Raise e
                | Refused e => logger_error ("Error saving to database: " +++ str e)
                | Inserted => logger_info ("Saved data to " +++ table_name +++ " table")
                end).

(** The [title] entry: [soup.title.string if soup.title else "No title"]. *)
Definition page_title (soup : Soup.node) : option string :=
  match Soup.find "title" soup with
  | Some t => Soup.get_string t
  | None => Some "No title"
  end.

(** The [content] entry: the text left once scripts and styles are cut. *)
Definition page_text (soup : Soup.node) : string :=
  Soup.get_text " " true (Soup.decompose_all ["script"; "style"] soup).

Definition web_record (url : string) (soup : Soup.node) (t : datetime) : pydict :=
  [("url", Some url);
   ("title", page_title soup);
   ("content", Some (page_text soup));
   ("timestamp", Some (isoformat t));
   ("source", Some "web_scraping")].

Definition scrape_website (url : string) : prog (option pydict) :=
  catch
    (response <- requests_get url ;;
     raise_for_status url response ;;
     soup <- of_sum (html_parser P (body response)) ;;
     t <- datetime_now ;;
     let data := web_record url soup t in
     save_to_database "web_data" data ;;
     t' <- datetime_now ;;
     let filename := "webpage_" +++ strftime t' +++ ".json" in
     json_dump_to filename (json_of_pydict data) ;;
     logger_info ("Successfully scraped " +++ url) ;;
     Ret (Some data))
    (fun e =>
       logger_error ("Error scraping " +++ url +++ ": " +++ str e) ;;
       Ret None).

Definition api_record (endpoint : string) (data : Json.value) (t : datetime) : pydict :=
  [("endpoint", Some endpoint);
   ("data_type", Some "json");
   ("data_json", Some (Json.dumps data));
   ("timestamp", Some (isoformat t))].

Definition fetch_from_api (endpoint : string) : prog (option Json.value) :=
  catch
    (response <- requests_get endpoint ;;
     raise_for_status endpoint response ;;
     data <- of_sum (json_loads P (body response)) ;;
     t <- datetime_now ;;
     let api_data := api_record endpoint data t in
     save_to_database "api_data" api_data ;;
     t' <- datetime_now ;;
     let filename := "api_" +++ strftime t' +++ ".json" in
     json_dump_to filename data ;;
     logger_info ("Successfully fetched data from " +++ endpoint) ;;
     Ret (Some data))
    (fun e =>
       logger_error ("Error fetching from API " +++ endpoint +++ ": " +++ str e) ;;
       Ret None).

(** [item.name.text if item.name else default] *)
Definition child_text (name default : string) (item : Soup.node) : string :=
  match Soup.find name item with
  | Some t => Soup.text t
  | None => default
  end.

Definition news_record (feed_url : string) (item : Soup.node) (t : datetime) : pydict :=
  [("title", Some (child_text "title" "No title" item));
   ("content", Some (child_text "description" EmptyString item));
   ("source", Some feed_url);
   ("published_date", Some (child_text "pubDate" EmptyString item));
   ("url", Some (child_text "link" EmptyString item));
   ("authors", Some EmptyString);
   ("timestamp", Some (isoformat t))].

Definition parse_rss_feed (feed_url : string) : prog unit :=
  catch
    (response <- requests_get feed_url ;;
     raise_for_status feed_url response ;;
     soup <- of_sum (xml_parser P (body response)) ;;
     let items := Soup.find_all ["item"] soup in
     for_each items
       (fun item =>
          t <- datetime_now ;;
          save_to_database "news_articles" (news_record feed_url item t)) ;;
     logger_info ("Successfully parsed RSS feed from " +++ feed_url))
    (fun e =>
       logger_error ("Error parsing RSS feed " +++ feed_url +++ ": " +++ str e)).

(** The source lists are literals of the methods; each loop is also given
    over an arbitrary list so that statements can range over job lists. *)
Definition news_sources : list string :=
  ["http://feeds.bbci.co.uk/news/world/rss.xml";
   "https://www.aljazeera.com/xml/rss/all.xml";
   "http://rss.cnn.com/rss/cnn_world.rss"].

Definition collect_news_from (sources : list string) : prog unit :=
  for_each sources
    (fun source =>
       catch
         (if PyStr.contains "rss" source
          then parse_rss_feed source
          else fetch_from_api source ;; Ret tt)
         (fun e =>
            logger_error ("Error collecting news from " +++ source +++ ": " +++ str e))).

Definition collect_news_data : prog unit := collect_news_from news_sources.

Definition public_datasets : list string :=
  ["https://data.worldbank.org/indicator/NY.GDP.MKTP.CD";
   "https://catalog.data.gov/dataset";
   "https://www.kaggle.com/datasets";
   "https://registry.opendata.aws"].

Definition collect_datasets_from (urls : list string) : prog unit :=
  for_each urls
    (fun dataset_url =>
       catch
         (scrape_website dataset_url ;;
          logger_info ("Collected dataset info from " +++ dataset_url))
         (fun e =>
            logger_error ("Error collecting dataset from " +++ dataset_url
                          +++ ": " +++ str e))).

Definition collect_public_datasets : prog unit :=
  collect_datasets_from public_datasets.

Definition collect_social_media_data : prog unit :=
  for_each (@nil string)
    (fun platform =>
       logger_warning ("Social media collection for " +++ platform
                       +++ " would require API authentication")).

Definition government_sources : list string :=
  ["https://www.data.gov";
   "https://www.gov.uk/government/statistics";
   "https://data.europa.eu";
   "https://data.gov.au"].

Definition collect_government_from (sources : list string) : prog unit :=
  for_each sources
    (fun source =>
       catch
         (scrape_website source ;;
          logger_info ("Collected government data from " +++ source))
         (fun e =>
            logger_error ("Error collecting government data from " +++ source
                          +++ ": " +++ str e))).

Definition collect_government_data : prog unit :=
  collect_government_from government_sources.

(** *** The constructor

    [__init__] makes the directory, then [init_database]; neither call has
    a handler.  The headers it sets last are constants of the requests. *)
Definition os_makedirs : prog unit :=
  Vis MakeDirs (fun r => match r with Some e => Raise e | None => Ret tt end).

Definition init_database : prog unit :=
  Vis InitDb (fun r => match r with Some e => Raise e | None => Ret tt end).

Definition GlobalDataCollector : prog unit :=
  os_makedirs ;; init_database.

(** *** The report *)

Record report : Type := mk_report {
  timestamp : string;
  web_scraping : nat;
  api_data : nat;
  news_articles : nat;
  storage_size_text : string;
  file_count : Z
}.

Definition json_of_report (r : report) : Json.value :=
  Json.JObj
    [("timestamp", Json.JStr (timestamp r));
     ("data_sources",
      Json.JObj [("web_scraping", Json.JInt (Z.of_nat (web_scraping r)));
                 ("api_data", Json.JInt (Z.of_nat (api_data r)));
                 ("news_articles", Json.JInt (Z.of_nat (news_articles r)))]);
     ("storage_size", Json.JStr (storage_size_text r));
     ("file_count", Json.JInt (file_count r))].

Definition count_table_records (table_name : string) : prog nat :=
  Vis (Count table_name) of_sum.

Definition get_storage_size : prog string := Vis StorageSize Ret.

Definition os_listdir : prog (list string) := Vis ListDir Ret.

Definition generate_summary_report : prog report :=
  t <- datetime_now ;;
  web <- count_table_records "web_data" ;;
  api <- count_table_records "api_data" ;;
  news <- count_table_records "news_articles" ;;
  size <- get_storage_size ;;
  names <- os_listdir ;;
  let r := mk_report (isoformat t) web api news size
                     (Z.of_nat (List.length names) - 1) in
  json_dump_to "collection_report.json" (json_of_report r) ;;
  logger_info
    ("Generated summary report at global_data_collection/collection_report.json") ;;
  Ret r.

End Collector.

(** *** The size of the archive

    [get_storage_size] adds up [os.path.getsize] over the files [os.walk]
    finds and prints the total in megabytes with two decimals.  The sizes
    are what the file system says; the arithmetic is the method's: a true
    division of two integers, which gives the float nearest to the
    quotient, then [:.2f], which rounds the value of that float to the
    nearest hundredth.  Both round ties to even. *)

(** [n / d] rounded to the nearest integer, ties to even. *)
Definition round_half_even (n d : N) : N :=
  let q := (n / d)%N in
  let r := (n mod d)%N in
  if (2 * r <? d)%N then q
  else if (d <? 2 * r)%N then (q + 1)%N
  else if N.even q then q else (q + 1)%N.

(** The integer nearest to [n] that has at most 53 significant bits: the
    divisor being a power of two, [n / (1024 * 1024)] as a float is this
    integer over [2^20]. *)
Definition float_of_int (n : N) : N :=
  let bits := N.size n in
  if (bits <=? 53)%N then n
  else let k := (bits - 53)%N in (round_half_even n (2 ^ k) * 2 ^ k)%N.

(** The hundredths of a megabyte printed for [total_size] bytes. *)
Definition hundredths (total_size : N) : N :=
  round_half_even (100 * float_of_int total_size) 1048576.

(** [f"{(total_size / (1024 * 1024)):.2f} MB"]; the division raises when
    the quotient is beyond the floats, from [2^1024] on. *)
Definition megabytes (total_size : N) : exn + string :=
  if (2 ^ 1044 <=? float_of_int total_size)%N then
    inl (mk_exn OverflowError "integer division result too large for a float")
  else
    let h := hundredths total_size in
    inr (PyStr.of_Z (Z.of_N (h / 100)) +++ "."
         +++ pad 2 (N.to_nat (h mod 100)) +++ " MB").

(** [get_storage_size] over the sizes of the files found, in the order
    [os.walk] yields them. *)
Definition get_storage_size_of (sizes : list N) : exn + string :=
  megabytes (fold_left N.add sizes 0%N).

(* ------------------------------------------------------------------ *)
(** ** The worker pool of [collect_all_data] *)

(** A submitted call; its result or exception stays in a future nobody
    reads. *)
Definition task : Type := prog unit.

Definition submit {A : Type} (p : prog A) : task := bind p (fun _ => Ret tt).

Record pool : Type := mk_pool {
  queue : list task;             (* work items, oldest first *)
  workers : list (option task)   (* what each thread is running *)
}.

Fixpoint set_nth {A : Type} (i : nat) (a : A) (l : list A) : list A :=
  match l, i with
  | [], _ => []
  | _ :: r, 0 => a :: r
  | x :: r, S j => x :: set_nth j a r
  end.

(** One move of worker [i]: an idle worker takes the oldest work item, a
    running one performs the next effect of its task or ends it. *)
Definition pool_step (E : env) (i : nat) (s : pool * world) : pool * world :=
  let (p, w) := s in
  match nth_error (workers p) i with
  | None => s
  | Some None =>
      match queue p with
      | [] => s
      | t :: q => (mk_pool q (set_nth i (Some t) (workers p)), w)
      end
  | Some (Some (Vis e k)) =>
      let (x, w') := perform E e w in
      (mk_pool (queue p) (set_nth i (Some (k x)) (workers p)), w')
  | Some (Some _) => (mk_pool (queue p) (set_nth i None (workers p)), w)
  end.

(** A schedule names the worker that moves at each step. *)
Definition pool_run (E : env) (sched : list nat) (s : pool * world) : pool * world :=
  fold_left (fun s i => pool_step E i s) sched s.

Definition running (ws : list (option task)) : list task :=
  flat_map (fun o => match o with Some t => [t] | None => [] end) ws.

(** [shutdown(wait=True)]: whatever the schedule left is run to its end,
    the started tasks first. *)
Definition run_all (E : env) (ts : list task) (w : world) : world :=
  fold_left (fun w t => snd (run E t w)) ts w.

Definition drain (E : env) (p : pool) (w : world) : world :=
  run_all E (running (workers p) ++ queue p) w.

Definition idle (p : pool) : Prop :=
  queue p = [] /\ Forall (fun o => o = None) (workers p).

(** [f"{x:.2f}"] of a duration counted in 1/100 s. *)
Definition fmt2f (c : nat) : string :=
  PyStr.of_nat (c / 100) +++ "." +++ pad 2 (c mod 100).

Record sources : Type := mk_sources {
  websites_to_scrape : list string;
  public_apis : list string;
  news_group : list string;
  datasets_group : list string;
  government_group : list string
}.

(** The lists written in the methods. *)
Definition configured : sources :=
  mk_sources
    ["https://en.wikipedia.org/wiki/Main_Page";
     "https://www.worldometers.info/";
     "https://www.cia.gov/the-world-factbook/";
     "https://www.who.int/data/gho"]
    ["https://api.publicapis.org/entries";
     "https://restcountries.com/v3.1/all";
     "https://api.spacexdata.com/v4/launches/latest"]
    news_sources public_datasets government_sources.

Definition all_urls (S : sources) : list string :=
  websites_to_scrape S ++ public_apis S ++ news_group S
  ++ datasets_group S ++ government_group S.

Section Run.

Variable P : parsers.
Variable E : env.

(** The work items in submission order. *)
Definition work_items (S : sources) : list task :=
  map (fun url => submit (scrape_website P url)) (websites_to_scrape S)
  ++ map (fun url => submit (fetch_from_api P url)) (public_apis S)
  ++ [collect_news_from P (news_group S);
      collect_datasets_from P (datasets_group S);
      collect_government_from P (government_group S)].

Definition starting : prog nat :=
  bind (logger_info "Starting global data collection process")
       (fun _ => Vis Clock Ret).

Definition finishing (start_time : nat) : prog unit :=
  bind (Vis Clock Ret)
       (fun t =>
          bind (logger_info ("Completed data collection in "
                             +++ fmt2f (t - start_time) +++ " seconds"))
               (fun _ => bind (generate_summary_report) (fun _ => Ret tt))).

(** [collect_all_data(max_workers)] over the source lists [S], the
    threads interleaved as [sched] says. *)
Definition collect_all_from (S : sources) (max_workers : Z) (sched : list nat)
           (w : world) : result unit * world :=
  match run E starting w with
  | (Raised e, w1) => (Raised e, w1)
  | (Returned start_time, w1) =>
      if (max_workers <=? 0)%Z then
        (Raised (mk_exn ValueError "max_workers must be greater than 0"), w1)
      else
        let p0 := mk_pool (work_items S) (repeat None (Z.to_nat max_workers)) in
        let (p, w2) := pool_run E sched (p0, w1) in
        run E (finishing start_time) (drain E p w2)
  end.

Definition collect_all_data (max_workers : Z) (sched : list nat) :=
  collect_all_from configured max_workers sched.

End Run.

(** *** The script

    The [__main__] block: the collector is built, with no handler around
    it; then [collect_all_data(max_workers=3)] runs under
    [except Exception], and the closing line is logged.
    [KeyboardInterrupt] is not an [Exception] and is not among the
    exceptions modelled. *)
Definition main_from (P : parsers) (E : env) (S : sources) (sched : list nat)
           (w : world) : result unit * world :=
  match run E GlobalDataCollector w with
  | (Raised e, w0) => (Raised e, w0)
  | (Returned _, w0) =>
      let (res, w1) := collect_all_from P E S 3 sched w0 in
      let w2 :=
        match res with
        | Returned _ => w1
        | Raised e =>
            snd (run E (logger_error ("Unexpected error during data collection: "
                                      +++ str e)) w1)
        end in
      run E (logger_info "Data collection process completed") w2
  end.

Definition main (P : parsers) (E : env) (sched : list nat) (w : world)
  : result unit * world :=
  main_from P E configured sched w.

(* ------------------------------------------------------------------ *)
(** ** Sample documents and environments *)

Module Sample.

Definition page_body : string :=
  "<html><head><title>T</title><style>p{}</style></head><body><p>a  b</p><script>x()</script></body></html>".

Definition page_tree : Soup.node :=
  Soup.document
    [Soup.Tag "html"
       [Soup.Tag "head"
          [Soup.Tag "title" [Soup.Str Soup.Text "T"];
           Soup.Tag "style" [Soup.Str Soup.Text "p{}"]];
        Soup.Tag "body"
          [Soup.Tag "p" [Soup.Str Soup.Text "a  b"];
           Soup.Tag "script" [Soup.Str Soup.Text "x()"]]]].

Definition feed_body : string :=
  "<rss><channel><title>F</title><item><title>A</title><pubDate>Mon</pubDate></item><item><description>d</description><link>http://l</link></item></channel></rss>".

Definition feed_tree : Soup.node :=
  Soup.document
    [Soup.Tag "rss"
       [Soup.Tag "channel"
          [Soup.Tag "title" [Soup.Str Soup.Text "F"];
           Soup.Tag "item"
             [Soup.Tag "title" [Soup.Str Soup.Text "A"];
              Soup.Tag "pubDate" [Soup.Str Soup.Text "Mon"]];
           Soup.Tag "item"
             [Soup.Tag "description" [Soup.Str Soup.Text "d"];
              Soup.Tag "link" [Soup.Str Soup.Text "http://l"]]]]].

(** A body [html.parser] raises on. *)
Definition marked_section : string := "<![foo]>".

(** The parsers on the sample documents: the trees are the ones the
    libraries build for these two texts, [marked_section] makes the HTML
    parser raise, and any other text is taken as one string.  JSON goes
    through [Json.loads_core]. *)
Definition P : parsers :=
  mk_parsers
    (fun s => if String.eqb s page_body then inr page_tree
              else if String.eqb s marked_section
                   then inl (mk_exn AssertionError
                               "unknown status keyword 'foo' in marked section")
                   else inr (Soup.document [Soup.Str Soup.Text s]))
    (fun s => if String.eqb s feed_body then inr feed_tree
              else inr (Soup.document [Soup.Str Soup.Text s]))
    (fun s => match Json.loads_core s with
              | Some v => inr v
              | None => inl (mk_exn JSONDecodeError "Expecting value")
              end).

Definition noon : datetime := mk_datetime 2024 1 2 12 0 0 0.

(** Every request is answered [200 OK] with [text]; nothing fails. *)
Definition serving (text : string) : env :=
  mk_env (fun _ _ => inr (mk_response 200 "OK" text))
         (fun _ => noon) (fun t => t)
         (fun _ => None) (fun _ => None) (fun _ => None)
         (fun _ => "0.01 MB").


(** As [serving], but the database refuses every statement. *)
Definition locked (text : string) : env :=
  mk_env (fun _ _ => inr (mk_response 200 "OK" text))
         (fun _ => noon) (fun t => t)
         (fun _ => None)
         (fun _ => Some (mk_exn DatabaseError "database is locked"))
         (fun _ => None)
         (fun _ => "0.01 MB").

(** A fresh collector: empty tables, empty directory, nothing done. *)
Definition fresh : world := mk_world Store.init_database [] [].

End Sample.

(* ================================================================== *)
(** * The vocabulary of the properties *)

Unset Implicit Arguments.

(** ** Static readings of a program *)

(** The URL an effect requests, if it is a request. *)
Definition get_url {X : Type} (e : eff X) : option string :=
  match e with Get u => Some u | _ => None end.

(** [every Q p]: each effect [p] may perform satisfies [Q]. *)
Fixpoint every (Q : forall X, eff X -> Prop) {A : Type} (p : prog A) : Prop :=
  match p with
  | Ret _ | Raise _ => True
  | Vis e k => Q _ e /\ forall x, every Q (k x)
  end.

(** *** Ledgers

    A ledger is a list the world keeps and effects add to: the requests
    made, the rows stored.  What a program adds to it is read off its tree,
    given the answers the outside may give to each effect. *)

Section Ledgers.

Variable O : Type.
Variable admissible : forall X, eff X -> X -> Prop.
Variable entry : forall X, eff X -> X -> list O.

(** [yields l p]: along every admissible path [p] adds exactly [l], in this
    order. *)
Fixpoint yields {A : Type} (l : list O) (p : prog A) : Prop :=
  match p with
  | Ret _ | Raise _ => l = []
  | Vis e k =>
      forall x, admissible _ e x ->
                exists l', l = entry _ e x ++ l' /\ yields l' (k x)
  end.

(** [returns p]: along every admissible path [p] ends without an
    exception. *)
Fixpoint returns {A : Type} (p : prog A) : Prop :=
  match p with
  | Ret _ => True
  | Raise _ => False
  | Vis e k => forall x, admissible _ e x -> returns (k x)
  end.

(** [due ts L]: between them the tasks [ts] still add exactly [L], in some
    order. *)
Definition due (ts : list task) (L : list O) : Prop :=
  exists ls,
    Forall2 (fun t l => yields l t) ts ls /\ Permutation (List.concat ls) L.

End Ledgers.

Arguments yields {O} admissible entry {A} l p.
Arguments returns admissible {A} p.
Arguments due {O} admissible entry ts L.

(** The ledger of requests: any answer may come, and a request adds its
    URL. *)
Definition any_answer (X : Type) (e : eff X) (x : X) : Prop := True.

Definition url_of (X : Type) (e : eff X) (x : X) : list string :=
  match get_url e with Some u => [u] | None => [] end.

(** [fetches us p]: on every path [p] requests exactly the URLs [us], in
    this order. *)
Definition fetches {A : Type} (us : list string) (p : prog A) : Prop :=
  yields any_answer url_of us p.

(** [unfailing p]: no exception leaves [p]. *)
Definition unfailing {A : Type} (p : prog A) : Prop := returns any_answer p.

(** Effects that leave the database alone. *)
Definition no_insert (X : Type) (e : eff X) : Prop :=
  match e with Insert _ _ => False | _ => True end.

(** [stamps table column value]: every insert into [table] carries [value]
    under [column]. *)
Definition stamps (table column value : string) (X : Type) (e : eff X) : Prop :=
  match e with
  | Insert t d =>
      if String.eqb t table then dict_get column d = Some (Some value) else True
  | _ => True
  end.

(** ** The pool *)

(** The tasks a pool still holds: the started ones, then the queue. *)
Definition tasks_of (p : pool) : list task := running (workers p) ++ queue p.

(** A task that has ended: only its future is left. *)
Definition ended (t : task) : Prop :=
  match t with Vis _ _ => False | _ => True end.

(** [owed ts L]: between them the tasks [ts] still request exactly [L]. *)
Definition owed (ts : list task) (L : list string) : Prop :=
  due any_answer url_of ts L.

(** The sequential skeleton of [collect_all_data]: what is left of it when
    the pool has nothing to do. *)
Definition no_work (E : env) (w : world) : result unit * world :=
  run E (bind starting finishing) w.

(** ** The environment at a moment *)

(** The request made at this moment is answered by [r], and
    [raise_for_status] lets it through. *)
Definition fetched (E : env) (w : world) (url : string) (r : response) : Prop :=
  net E (moment w) url = inr r /\ status_error url r = None.

(** The request made at this moment fails with [e]: in transit, or by its
    status. *)
Definition fetch_fails (E : env) (w : world) (url : string) (e : exn) : Prop :=
  net E (moment w) url = inl e
  \/ exists r, net E (moment w) url = inr r /\ status_error url r = Some e.

(** The database can be reached and takes a statement at moment [t]. *)
Definition store_accepts (E : env) (t : nat) : Prop :=
  connect_fault E t = None /\ statement_fault E t = None.

(** The exception [cursor.execute] or [conn.commit] raises for this insert
    at this moment, if any: a fault of the database, or the statement
    itself being refused. *)
Definition insert_error (E : env) (table : string) (data : pydict) (w : world)
  : option exn :=
  match statement_fault E (moment w) with
  | Some x => Some x
  | None =>
      match Store.insert table data (db w) with
      | inl msg => Some (mk_exn DatabaseError msg)
      | inr _ => None
      end
  end.

(** ** Tables *)

(** The columns of each table, as [Store.columns] gives them. *)
Definition web_columns : list string :=
  ["url"; "title"; "content"; "timestamp"; "source"].

Definition api_columns : list string :=
  ["endpoint"; "data_type"; "data_json"; "timestamp"].

Definition news_columns : list string :=
  ["title"; "content"; "source"; "published_date"; "url"; "authors"; "timestamp"].

(** A row that carries [value] under [column]. *)
Definition stamped (column value : string) (r : Store.row) : Prop :=
  Store.get column r = Some (Store.Txt value).

(** The rows table [tbl] has in [w'] beyond those it has in [w] all carry
    the value. *)
Definition grows_by (column value : string) (tbl : Store.db -> list Store.row)
           (w w' : world) : Prop :=
  exists new, tbl (db w') = tbl (db w) ++ new /\ Forall (stamped column value) new.

(** ** Page text *)

(** The tags [scrape_website] removes. *)
Definition cut : list string := ["script"; "style"].

(** No blank at either end. *)
Definition trimmed (s : string) : Prop :=
  (forall c, PyStr.first_char s = Some c -> PyStr.isspace c = false)
  /\ (forall c, PyStr.last_char s = Some c -> PyStr.isspace c = false).

(** The nodes of a tree that lie under no tag named in [names]. *)
Fixpoint outside (names : list string) (n : Soup.node) : list Soup.node :=
  match n with
  | Soup.Tag _ cs =>
      flat_map (fun c => if Soup.is_named names c then [] else c :: outside names c) cs
  | Soup.Str _ _ => []
  end.

(** A named tag emptied of what it holds. *)
Definition hollow (n : Soup.node) : Soup.node :=
  match n with Soup.Tag nm _ => Soup.Tag nm [] | Soup.Str _ _ => n end.

(** The tree with the body of every tag named in [names] erased. *)
Fixpoint blank (names : list string) (n : Soup.node) : Soup.node :=
  match n with
  | Soup.Tag nm cs =>
      Soup.Tag nm (map (fun c => if Soup.is_named names c then hollow c
                                 else blank names c) cs)
  | Soup.Str _ _ => n
  end.

(** A text is whitespace-normalized when it has no blank at either end and
    every blank in it is one space followed by a non-blank. *)
Fixpoint single_spaced (s : string) : bool :=
  match s with
  | EmptyString => true
  | String a r =>
      (if PyStr.isspace a
       then Ascii.eqb a " "
            && match r with
               | String b _ => negb (PyStr.isspace b)
               | EmptyString => false
               end
       else true)
      && single_spaced r
  end.

Definition whitespace_normalized (s : string) : bool :=
  match s with
  | EmptyString => true
  | String a _ => negb (PyStr.isspace a) && single_spaced s
  end.

(** ** Feeds *)

(** The body of the loop of [parse_rss_feed]. *)
Definition save_item (feed_url : string) (item : Soup.node) : prog unit :=
  bind datetime_now
       (fun t => save_to_database "news_articles" (news_record feed_url item t)).

(** The rows the loop adds when the store accepts every insert: one per
    item, in order; each round takes three moments (clock, insert, log). *)
Fixpoint news_rows (E : env) (feed_url : string) (items : list Soup.node)
         (m n : nat) : list Store.row :=
  match items with
  | [] => []
  | item :: rest =>
      Store.new_row news_columns (news_record feed_url item (now E m)) n
      :: news_rows E feed_url rest (3 + m) (S n)
  end.

(** The log line of an accepted news insert. *)
Definition saved_news : level * string :=
  (INFO, "Saved data to news_articles table").

(** The text of the first tag of a given name under an item, or a
    fallback. *)
Definition text_or (fallback : string) (found : option Soup.node) : string :=
  match found with
  | Some t => Soup.text t
  | None => fallback
  end.

(** A row that renders an item of the feed at [feed_url]. *)
Definition renders (feed_url : string) (item : Soup.node) (row : Store.row) : Prop :=
  Store.get "title" row
  = Some (Store.Txt (text_or "No title" (Soup.find "title" item)))
  /\ Store.get "content" row
     = Some (Store.Txt (text_or EmptyString (Soup.find "description" item)))
  /\ Store.get "published_date" row
     = Some (Store.Txt (text_or EmptyString (Soup.find "pubDate" item)))
  /\ Store.get "url" row
     = Some (Store.Txt (text_or EmptyString (Soup.find "link" item)))
  /\ Store.get "source" row = Some (Store.Txt feed_url).

(** ** The tables, up to what a run decides *)

(** A row without what the run itself decides: the [id] SQLite assigns and
    the [timestamp] the clock gives. *)
Definition undated (r : Store.row) : Store.row :=
  filter (fun kv => negb (String.eqb (fst kv) "id"
                          || String.eqb (fst kv) "timestamp")) r.

(** What a table holds, ids and timestamps apart. *)
Definition content_of (table : string) (w : world) : list Store.row :=
  match Store.rows table (db w) with
  | Some rs => map undated rs
  | None => []
  end.

(** What SQLite answers to an insert when nothing is at fault: it depends
    on the statement alone, not on the rows already there. *)
Definition verdict (table : string) (data : pydict) : insert_outcome :=
  match Store.insert table data Store.init_database with
  | inr _ => Inserted
  | inl msg => Refused (mk_exn DatabaseError msg)
  end.

(** A calm environment: a URL gets the same answer whenever it is asked,
    and the database has no fault. *)
Definition calm (E : env) (answer : string -> exn + response) : Prop :=
  (forall t u, net E t u = answer u)
  /\ (forall t, connect_fault E t = None)
  /\ (forall t, statement_fault E t = None).

(** The answers a calm environment can give. *)
Definition answered (answer : string -> exn + response) (X : Type) (e : eff X)
  : X -> Prop :=
  match e in eff X return X -> Prop with
  | Get u => fun x => x = answer u
  | Insert t d => fun x => x = verdict t d
  | _ => fun _ => True
  end.

(** The ledger of a table: a stored insert into it adds its row. *)
Definition row_of (table : string) (X : Type) (e : eff X) : X -> list Store.row :=
  match e in eff X return X -> list Store.row with
  | Insert t d =>
      fun x =>
        match x, Store.columns t with
        | Inserted, Some cols =>
            if String.eqb t table then [undated (Store.new_row cols d 0)] else []
        | _, _ => []
        end
  | _ => fun _ => []
  end.

(** The response a job goes on with: the request is answered and
    [raise_for_status] lets it through. *)
Definition okay (answer : string -> exn + response) (url : string)
  : option response :=
  match answer url with
  | inr r => match status_error url r with None => Some r | Some _ => None end
  | inl _ => None
  end.

(** [rows] if they are rows of table [t], nothing otherwise. *)
Definition in_table (table t : string) (rows : list Store.row) : list Store.row :=
  if String.eqb table t then rows else [].

Definition page_row (url : string) (soup : Soup.node) : Store.row :=
  [("url", Store.Txt url);
   ("title", Store.cell_of (page_title soup));
   ("content", Store.Txt (page_text soup));
   ("source", Store.Txt "web_scraping")].

Definition api_row (endpoint : string) (data : Json.value) : Store.row :=
  [("endpoint", Store.Txt endpoint);
   ("data_type", Store.Txt "json");
   ("data_json", Store.Txt (Json.dumps data))].

Definition item_row (feed_url : string) (item : Soup.node) : Store.row :=
  [("title", Store.Txt (child_text "title" "No title" item));
   ("content", Store.Txt (child_text "description" EmptyString item));
   ("source", Store.Txt feed_url);
   ("published_date", Store.Txt (child_text "pubDate" EmptyString item));
   ("url", Store.Txt (child_text "link" EmptyString item));
   ("authors", Store.Txt EmptyString)].

(** What each job leaves in table [t] when the answers are [answer]. *)
Section Content.

Variable P : parsers.
Variable answer : string -> exn + response.
Variable t : string.

Definition page_content (url : string) : list Store.row :=
  match okay answer url with
  | Some r =>
      match html_parser P (body r) with
      | inr soup => in_table "web_data" t [page_row url soup]
      | inl _ => []
      end
  | None => []
  end.

Definition api_content (endpoint : string) : list Store.row :=
  match okay answer endpoint with
  | Some r =>
      match json_loads P (body r) with
      | inr data => in_table "api_data" t [api_row endpoint data]
      | inl _ => []
      end
  | None => []
  end.

Definition feed_content (feed_url : string) : list Store.row :=
  match okay answer feed_url with
  | Some r =>
      match xml_parser P (body r) with
      | inr soup =>
          in_table "news_articles" t
                   (map (item_row feed_url) (Soup.find_all ["item"] soup))
      | inl _ => []
      end
  | None => []
  end.

Definition news_content (source : string) : list Store.row :=
  if PyStr.contains "rss" source then feed_content source else api_content source.

(** What a whole run leaves in table [t]. *)
Definition expected (S : sources) : list Store.row :=
  flat_map page_content (websites_to_scrape S)
  ++ flat_map api_content (public_apis S)
  ++ flat_map news_content (news_group S)
  ++ flat_map page_content (datasets_group S)
  ++ flat_map page_content (government_group S).

End Content.

(** ** The report file *)

(** The name [generate_summary_report] writes to. *)
Definition report_file : string := "collection_report.json".

(** [name in os.listdir(...)], the database file apart. *)
Definition has_file (name : string) (d : Archive.dir) : bool :=
  existsb (String.eqb name) (map fst d).

(** The document a file of the archive holds. *)
Definition read (name : string) (d : Archive.dir) : option Json.value :=
  match List.find (fun f => String.eqb (fst f) name) d with
  | Some f => Some (snd f)
  | None => None
  end.

(** ** Archive names *)

(** The file a job that starts in [w] archives its page under: the clock
    is read a second time, four moments after the request. *)
Definition archived_page (E : env) (w : world) : string :=
  "webpage_" +++ strftime (now E (4 + moment w)) +++ ".json".


(** ** Lines of the log *)

Definition started : level * string :=
  (INFO, "Starting global data collection process").

Definition completed (seconds : string) : level * string :=
  (INFO, "Completed data collection in " +++ seconds +++ " seconds").

Definition generated : level * string :=
  (INFO, "Generated summary report at global_data_collection/collection_report.json").


Definition collected_dataset (url : string) : level * string :=
  (INFO, "Collected dataset info from " +++ url).

Definition collected_government (url : string) : level * string :=
  (INFO, "Collected government data from " +++ url).

(** The lines only the three collection loops write: the [Collected ...]
    line of a round and the [Error collecting ...] line of its handler. *)
Definition loop_line (line : level * string) : bool :=
  PyStr.startswith "Collected " (snd line)
  || PyStr.startswith "Error collecting " (snd line).

Definition loop_lines (w : world) : list (level * string) :=
  filter loop_line (log w).

(** The ledger of loop lines: a log call adds its line if it is one. *)
Definition loop_line_of (X : Type) (e : eff X) (x : X) : list (level * string) :=
  match e with
  | Log lvl msg => filter loop_line [(lvl, msg)]
  | _ => []
  end.

(** ** Faults *)

(** No restriction on effects. *)
Definition anything (X : Type) (e : eff X) : Prop := True.

(** An exception the environment holds for the database connection or for
    a file to open. *)
Definition fault_of (E : env) (e : exn) : Prop :=
  exists t, connect_fault E t = Some e \/ open_fault E t = Some e.

(** The inserts the loop of [parse_rss_feed] attempts from moment [m] on
    when the database can be reached: one per item, stored unless the
    statement is refused at its moment. *)
Fixpoint news_attempts (E : env) (feed_url : string) (items : list Soup.node)
         (m : nat) : list (string * pydict * bool) :=
  match items with
  | [] => []
  | item :: rest =>
      ("news_articles", news_record feed_url item (now E m),
       match statement_fault E (S m) with None => true | Some _ => false end)
      :: news_attempts E feed_url rest (3 + m)
  end.

(** How many of the attempts were stored. *)
Definition stored (attempts : list (string * pydict * bool)) : nat :=
  List.length (filter (fun a => snd a) attempts).

(* ================================================================== *)
(** * Properties *)

(** ** Running programs *)

Lemma run_bind (E : env) {A B : Type} (p : prog A) (f : A -> prog B) (w : world) :
  run E (bind p f) w =
  match run E p w with
  | (Returned a, w') => run E (f a) w'
  | (Raised e, w') => (Raised e, w')
  end.
Proof.
  revert w; induction p as [a | e | X e k IH]; intro w; simpl; try reflexivity.
  destruct (perform E e w) as [x w']. apply IH.
Qed.

Lemma run_catch (E : env) {A : Type} (p : prog A) (h : exn -> prog A) (w : world) :
  run E (catch p h) w =
  match run E p w with
  | (Returned a, w') => (Returned a, w')
  | (Raised e, w') => run E (h e) w'
  end.
Proof.
  revert w; induction p as [a | e | X e k IH]; intro w; simpl; try reflexivity.
  destruct (perform E e w) as [x w']. apply IH.
Qed.

Lemma requests_of_app (t u : list event) :
  requests_of (t ++ u) = requests_of t ++ requests_of u.
Proof. apply flat_map_app. Qed.

Lemma log_of_app (t u : list event) : log_of (t ++ u) = log_of t ++ log_of u.
Proof. apply flat_map_app. Qed.

Lemma inserts_of_app (t u : list event) :
  inserts_of (t ++ u) = inserts_of t ++ inserts_of u.
Proof. apply flat_map_app. Qed.

Lemma length_snoc {A : Type} (l : list A) (a : A) :
  List.length (l ++ [a]) = S (List.length l).
Proof. rewrite length_app; simpl; lia. Qed.

Lemma perform_requests (E : env) {X : Type} (e : eff X) (w : world) :
  requests (snd (perform E e w)) =
  requests w ++ match get_url e with Some u => [u] | None => [] end.
Proof.
  unfold requests.
  destruct e; simpl;
    repeat match goal with
           | |- context [match ?x with _ => _ end] => destruct x; simpl
           end;
    rewrite ?requests_of_app; simpl; rewrite ?app_nil_r; reflexivity.
Qed.

(** ** The pool, step by step *)

Lemma running_set_nth (ws : list (option task)) (i : nat) (o : option task) :
  nth_error ws i = Some o ->
  exists rest,
    Permutation (running ws) (running [o] ++ rest)
    /\ forall o', Permutation (running (set_nth i o' ws)) (running [o'] ++ rest).
Proof.
  revert i; induction ws as [| a ws IH]; intros [| i] H; simpl in H; try discriminate.
  - injection H as ->. exists (running ws). split; [| intro o']; simpl;
      rewrite app_nil_r; apply Permutation_refl.
  - destruct (IH i H) as (rest & H1 & H2).
    exists (running [a] ++ rest). simpl in *. rewrite !app_nil_r in *. split.
    + rewrite H1. apply Permutation_app_swap_app.
    + intro o'. cbn [running flat_map]. rewrite (H2 o').
      apply Permutation_app_swap_app.
Qed.

(** What one step can be: nothing, a hand-over from the queue, one effect
    of one task, or the end of a task. *)
Lemma pool_step_cases (E : env) (i : nat) (p : pool) (w : world) :
  let p' := fst (pool_step E i (p, w)) in
  let w' := snd (pool_step E i (p, w)) in
  (w' = w /\ Permutation (tasks_of p') (tasks_of p))
  \/ (exists X (e : eff X) (k : X -> task) rest,
         Permutation (tasks_of p) (Vis e k :: rest)
         /\ Permutation (tasks_of p') (k (fst (perform E e w)) :: rest)
         /\ w' = snd (perform E e w))
  \/ (w' = w /\ exists t rest,
         ended t /\ Permutation (tasks_of p) (t :: rest)
         /\ Permutation (tasks_of p') rest).
Proof.
  unfold pool_step, tasks_of.
  destruct (nth_error (workers p) i) as [[t |] |] eqn:Hi.
  - destruct (running_set_nth _ _ _ Hi) as (rest & H1 & H2).
    simpl in H1.
    destruct t as [a | x | X e k].
    + right; right. simpl. split; [reflexivity |].
      exists (Ret a), (rest ++ queue p). split; [exact I |]. split.
      * rewrite H1. reflexivity.
      * rewrite (H2 None). reflexivity.
    + right; right. simpl. split; [reflexivity |].
      exists (Raise x), (rest ++ queue p). split; [exact I |]. split.
      * rewrite H1. reflexivity.
      * rewrite (H2 None). reflexivity.
    + right; left. exists X, e, k, (rest ++ queue p).
      destruct (perform E e w) as [x w']. simpl. split; [| split].
      * rewrite H1. reflexivity.
      * rewrite (H2 (Some (k x))). reflexivity.
      * reflexivity.
  - destruct (queue p) as [| t q] eqn:Hq.
    + left. simpl. rewrite Hq. split; reflexivity.
    + left. simpl. split; [reflexivity |].
      destruct (running_set_nth _ _ _ Hi) as (rest & H1 & H2).
      rewrite (H2 (Some t)), H1. simpl.
      apply Permutation_middle.
  - left. simpl. split; reflexivity.
Qed.

Lemma Permutation_concat_list {A : Type} (l l' : list (list A)) :
  Permutation l l' -> Permutation (List.concat l) (List.concat l').
Proof.
  induction 1; simpl.
  - constructor.
  - apply Permutation_app_head; assumption.
  - rewrite !app_assoc. apply Permutation_app_tail, Permutation_app_comm.
  - etransitivity; eassumption.
Qed.

(** ** What a program can do, read off its tree *)

Section Trees.

Variable Q : forall X, eff X -> Prop.

Lemma every_bind {A B : Type} (p : prog A) (f : A -> prog B) :
  every Q p -> (forall a, every Q (f a)) -> every Q (bind p f).
Proof.
  intros Hp Hf; induction p as [a | e | X e k IH]; simpl in *; auto.
  destruct Hp as [He Hk]; split; auto.
Qed.

Lemma every_catch {A : Type} (p : prog A) (h : exn -> prog A) :
  every Q p -> (forall e, every Q (h e)) -> every Q (catch p h).
Proof.
  intros Hp Hh; induction p as [a | e | X e k IH]; simpl in *; auto.
  destruct Hp as [He Hk]; split; auto.
Qed.

Lemma every_for_each {A : Type} (l : list A) (f : A -> prog unit) :
  (forall a, every Q (f a)) -> every Q (for_each l f).
Proof.
  intro Hf; induction l as [| a l IH]; simpl; auto.
  apply every_bind; auto.
Qed.

End Trees.

Section LedgerLaws.

Variable O : Type.
Variable admissible : forall X, eff X -> X -> Prop.
Variable entry : forall X, eff X -> X -> list O.

Lemma yields_bind_quiet {A B : Type} (l : list O) (p : prog A) (f : A -> prog B) :
  yields admissible entry l p ->
  (forall a, yields admissible entry [] (f a)) ->
  yields admissible entry l (bind p f).
Proof.
  revert l; induction p as [a | e | X e k IH]; intros l Hp Hf; simpl in *.
  - subst; apply Hf.
  - assumption.
  - intros x Hx. destruct (Hp x Hx) as (l' & -> & Hk).
    exists l'. split; [reflexivity | auto].
Qed.

Lemma yields_bind {A B : Type} (l l2 : list O) (p : prog A) (f : A -> prog B) :
  returns admissible p ->
  yields admissible entry l p ->
  (forall a, yields admissible entry l2 (f a)) ->
  yields admissible entry (l ++ l2) (bind p f).
Proof.
  revert l; induction p as [a | e | X e k IH]; intros l Hs Hp Hf; simpl in *.
  - subst; apply Hf.
  - contradiction.
  - intros x Hx. destruct (Hp x Hx) as (l' & -> & Hk).
    exists (l' ++ l2). split; [symmetry; apply app_assoc | auto].
Qed.

Lemma yields_catch {A : Type} (l : list O) (p : prog A) (h : exn -> prog A) :
  yields admissible entry l p ->
  (forall e, yields admissible entry [] (h e)) ->
  yields admissible entry l (catch p h).
Proof.
  revert l; induction p as [a | e | X e k IH]; intros l Hp Hh; simpl in *.
  - assumption.
  - subst; apply Hh.
  - intros x Hx. destruct (Hp x Hx) as (l' & -> & Hk).
    exists l'. split; [reflexivity | auto].
Qed.

Lemma returns_bind {A B : Type} (p : prog A) (f : A -> prog B) :
  returns admissible p -> (forall a, returns admissible (f a)) ->
  returns admissible (bind p f).
Proof.
  intros Hp Hf; induction p as [a | e | X e k IH]; simpl in *; auto.
Qed.

Lemma returns_catch {A : Type} (p : prog A) (h : exn -> prog A) :
  (forall e, returns admissible (h e)) -> returns admissible (catch p h).
Proof.
  intro Hh; induction p as [a | e | X e k IH]; simpl in *; auto.
Qed.

Lemma returns_for_each {A : Type} (l : list A) (f : A -> prog unit) :
  (forall a, returns admissible (f a)) -> returns admissible (for_each l f).
Proof.
  intro Hf; induction l as [| a l IH]; simpl; auto.
  apply returns_bind; auto.
Qed.

Lemma yields_for_each {A : Type} (g : A -> list O) (l : list A)
      (f : A -> prog unit) :
  (forall a, returns admissible (f a)) ->
  (forall a, yields admissible entry (g a) (f a)) ->
  yields admissible entry (flat_map g l) (for_each l f).
Proof.
  intros Hs Hf; induction l as [| a l IH]; simpl; auto.
  apply yields_bind; auto.
Qed.

Lemma yields_for_each_quiet {A : Type} (l : list A) (f : A -> prog unit) :
  (forall a, yields admissible entry [] (f a)) ->
  yields admissible entry [] (for_each l f).
Proof.
  intro Hf; induction l as [| a l IH]; simpl; auto.
  apply yields_bind_quiet; auto.
Qed.

Lemma due_perm (ts ts' : list task) (L : list O) :
  Permutation ts ts' -> due admissible entry ts L -> due admissible entry ts' L.
Proof.
  intros Hp (ls & Hf & HL).
  destruct (Permutation_Forall2 Hp Hf) as (ls' & Hls & Hf').
  exists ls'. split; [assumption |].
  rewrite <- HL. symmetry. apply Permutation_concat_list. assumption.
Qed.

Lemma due_cons (t : task) (ts : list task) (L : list O) :
  due admissible entry (t :: ts) L ->
  exists l L0,
    yields admissible entry l t /\ due admissible entry ts L0
    /\ Permutation (l ++ L0) L.
Proof.
  intros (ls & Hf & HL). inversion Hf as [| t0 l ts0 ls0 Ht Hts]; subst.
  exists l, (List.concat ls0). split; [assumption |]. split; [| exact HL].
  exists ls0. split; [assumption | apply Permutation_refl].
Qed.

Lemma due_cons_intro (t : task) (ts : list task) (l L0 : list O) :
  yields admissible entry l t -> due admissible entry ts L0 ->
  due admissible entry (t :: ts) (l ++ L0).
Proof.
  intros Ht (ls & Hf & HL). exists (l :: ls). split; [constructor; assumption |].
  simpl. apply Permutation_app_head. assumption.
Qed.

Lemma yields_submit {A : Type} (l : list O) (p : prog A) :
  yields admissible entry l p -> yields admissible entry l (submit p).
Proof. intro H. apply yields_bind_quiet; [assumption | intro a; reflexivity]. Qed.

(** What the work items of a run are due, from what each method yields. *)
Lemma work_items_due (P : parsers) (S : sources) (page api : string -> list O)
      (news data gov : list O) :
  (forall u, yields admissible entry (page u) (scrape_website P u)) ->
  (forall u, yields admissible entry (api u) (fetch_from_api P u)) ->
  yields admissible entry news (collect_news_from P (news_group S)) ->
  yields admissible entry data (collect_datasets_from P (datasets_group S)) ->
  yields admissible entry gov (collect_government_from P (government_group S)) ->
  due admissible entry (work_items P S)
      (flat_map page (websites_to_scrape S) ++ flat_map api (public_apis S)
       ++ news ++ data ++ gov).
Proof.
  intros Hpage Hapi Hnews Hdata Hgov.
  exists (map page (websites_to_scrape S) ++ map api (public_apis S)
          ++ [news; data; gov]).
  split.
  - unfold work_items.
    apply Forall2_app; [| apply Forall2_app].
    + induction (websites_to_scrape S); simpl; constructor; auto.
      apply yields_submit, Hpage.
    + induction (public_apis S); simpl; constructor; auto.
      apply yields_submit, Hapi.
    + repeat constructor; assumption.
  - rewrite !concat_app. simpl. rewrite app_nil_r.
    rewrite <- !flat_map_concat_map. reflexivity.
Qed.

(** *** A ledger against the runs

    [ledger] reads the record off a world; every effect performed in [E]
    is answered admissibly and adds its entry. *)

Variable E : env.
Variable ledger : world -> list O.
Hypothesis performed :
  forall X (e : eff X) w,
    admissible X e (fst (perform E e w))
    /\ ledger (snd (perform E e w))
       = ledger w ++ entry X e (fst (perform E e w)).

(** The static reading agrees with the run. *)
Lemma yields_run {A : Type} (l : list O) (p : prog A) (w : world) :
  yields admissible entry l p -> ledger (snd (run E p w)) = ledger w ++ l.
Proof.
  revert l w; induction p as [a | e | X e k IH]; intros l w Hp; simpl in *.
  - subst; rewrite app_nil_r; reflexivity.
  - subst; rewrite app_nil_r; reflexivity.
  - destruct (performed X e w) as [Hadm Hled].
    destruct (perform E e w) as [x w']; simpl in Hadm, Hled.
    destruct (Hp x Hadm) as (l' & -> & Hk).
    rewrite (IH x l' w' Hk), Hled, app_assoc; reflexivity.
Qed.

Lemma returns_run {A : Type} (p : prog A) (w : world) :
  returns admissible p -> exists a, fst (run E p w) = Returned a.
Proof.
  revert w; induction p as [a | e | X e k IH]; intros w Hp; simpl in *.
  - exists a. reflexivity.
  - contradiction.
  - destruct (performed X e w) as [Hadm _].
    destruct (perform E e w) as [x w']. apply IH, Hp, Hadm.
Qed.

(** What the ledger holds and what is still due always add up to the
    same. *)
Lemma pool_step_due (i : nat) (p : pool) (w : world) (L : list O) :
  due admissible entry (tasks_of p) L ->
  exists L',
    due admissible entry (tasks_of (fst (pool_step E i (p, w)))) L'
    /\ Permutation (ledger (snd (pool_step E i (p, w))) ++ L') (ledger w ++ L).
Proof.
  intro Ho.
  destruct (pool_step_cases E i p w)
    as [[Hw Hp] | [(X & e & k & rest & Hp & Hp' & Hw) | (Hw & t & rest & Ht & Hp & Hp')]].
  - exists L. rewrite Hw. split; [| reflexivity].
    apply due_perm with (tasks_of p); [symmetry |]; assumption.
  - apply (due_perm _ _ _ Hp) in Ho.
    destruct (due_cons _ _ _ Ho) as (l & L0 & Hl & Hrest & HL).
    destruct (performed X e w) as [Hadm Hled].
    rewrite Hw, Hled. simpl in Hl.
    destruct (Hl _ Hadm) as (l' & -> & Hk).
    exists (l' ++ L0). split.
    + apply due_perm with (k (fst (perform E e w)) :: rest);
        [symmetry; assumption |].
      apply due_cons_intro; auto.
    + rewrite <- !app_assoc. apply Permutation_app_head.
      rewrite app_assoc. exact HL.
  - apply (due_perm _ _ _ Hp) in Ho.
    destruct (due_cons _ _ _ Ho) as (l & L0 & Hl & Hrest & HL).
    assert (l = []) as -> by (destruct t; simpl in *; [assumption.. | contradiction]).
    exists L0. rewrite Hw. split.
    + apply due_perm with rest; [symmetry |]; assumption.
    + apply Permutation_app_head. exact HL.
Qed.

Lemma pool_run_due (sched : list nat) (p : pool) (w : world) (L : list O) :
  due admissible entry (tasks_of p) L ->
  exists L',
    due admissible entry (tasks_of (fst (pool_run E sched (p, w)))) L'
    /\ Permutation (ledger (snd (pool_run E sched (p, w))) ++ L') (ledger w ++ L).
Proof.
  revert p w L; induction sched as [| i sched IH]; intros p w L Ho.
  - exists L. simpl. split; [assumption | reflexivity].
  - change (pool_run E (i :: sched) (p, w))
      with (pool_run E sched (pool_step E i (p, w))).
    destruct (pool_step_due i p w L Ho) as (L1 & Ho1 & HL1).
    destruct (pool_step E i (p, w)) as [p1 w1]; cbn [fst snd] in *.
    destruct (IH p1 w1 L1 Ho1) as (L2 & Ho2 & HL2).
    exists L2. split; [exact Ho2 |]. rewrite HL2. exact HL1.
Qed.

Lemma run_all_due (ts : list task) (w : world) (L : list O) :
  due admissible entry ts L ->
  Permutation (ledger (run_all E ts w)) (ledger w ++ L).
Proof.
  revert w L; induction ts as [| t ts IH]; intros w L Ho.
  - destruct Ho as (ls & Hf & HL). inversion Hf; subst. simpl in *.
    apply Permutation_nil in HL. subst. rewrite app_nil_r. reflexivity.
  - destruct (due_cons _ _ _ Ho) as (l & L0 & Hl & Hrest & HL).
    simpl. rewrite (IH _ L0 Hrest), (yields_run l t w Hl), <- app_assoc.
    apply Permutation_app_head. exact HL.
Qed.

(** A whole run with a positive pool size adds to the ledger what its
    work items yield, up to order, whatever the schedule. *)
Lemma collect_all_ledger (P : parsers) (S : sources) (max_workers : Z)
      (sched : list nat) (w : world) (L : list O) :
  (0 < max_workers)%Z ->
  yields admissible entry [] starting ->
  (forall t, yields admissible entry [] (finishing t)) ->
  due admissible entry (work_items P S) L ->
  Permutation (ledger (snd (collect_all_from P E S max_workers sched w)))
              (ledger w ++ L).
Proof.
  intros Hpos Hstarting Hfinishing Hdue. unfold collect_all_from.
  pose proof (yields_run [] starting w Hstarting) as Hstart.
  destruct (run E starting w) as [[t0 | x] w1] eqn:Hrun.
  2: { unfold starting in Hrun. simpl in Hrun. discriminate. }
  simpl in Hstart. rewrite app_nil_r in Hstart.
  assert (Hle : (max_workers <=? 0)%Z = false) by (apply Z.leb_gt; exact Hpos).
  rewrite Hle.
  set (p0 := mk_pool (work_items P S) (repeat None (Z.to_nat max_workers))).
  assert (Hp0 : due admissible entry (tasks_of p0) L).
  { unfold tasks_of, p0. simpl.
    replace (running (repeat None (Z.to_nat max_workers))) with (@nil task);
      [exact Hdue |].
    induction (Z.to_nat max_workers); simpl; auto. }
  destruct (pool_run_due sched p0 w1 L Hp0) as (L' & Ho & HL).
  destruct (pool_run E sched (p0, w1)) as [p w2]. simpl in Ho, HL.
  rewrite (yields_run [] _ _ (Hfinishing t0)), app_nil_r.
  unfold drain. rewrite (run_all_due _ w2 L' Ho).
  rewrite HL, Hstart. reflexivity.
Qed.

End LedgerLaws.

Lemma every_run (E : env) (Q : forall X, eff X -> Prop) (I : world -> Prop) :
  (forall X (e : eff X) w, Q X e -> I w -> I (snd (perform E e w))) ->
  forall {A : Type} (p : prog A) (w : world),
    every Q p -> I w -> I (snd (run E p w)).
Proof.
  intros Hstep A p; induction p as [a | e | X e k IH]; intros w Hp Hw; simpl in *; auto.
  destruct Hp as [He Hk].
  pose proof (Hstep X e w He Hw) as Hw'.
  destruct (perform E e w) as [x w']; simpl in Hw'. auto.
Qed.

(** ** The requests of each method *)

Arguments String.append : simpl never.

Lemma requests_performed (E : env) (X : Type) (e : eff X) (w : world) :
  any_answer X e (fst (perform E e w))
  /\ requests (snd (perform E e w))
     = requests w ++ url_of X e (fst (perform E e w)).
Proof. split; [exact I | apply perform_requests]. Qed.

Lemma fetches_run (E : env) {A : Type} (us : list string) (p : prog A) (w : world) :
  fetches us p -> requests (snd (run E p w)) = requests w ++ us.
Proof.
  apply (yields_run string any_answer url_of E requests (requests_performed E)).
Qed.

Ltac split_match :=
  match goal with
  | |- context [match ?x with _ => _ end] => destruct x
  end.

(** The next entry of a ledger, read off the goal. *)
Ltac next_entry :=
  match goal with
  | |- exists l', _ = _ /\ _ => eexists; split; [reflexivity |]
  end.

Ltac by_cases :=
  repeat first [progress simpl | progress intros
               | progress unfold of_sum, raise_for_status, fetches, unfailing
               | next_entry | split_match];
  auto.

Section Requests.

Variable P : parsers.

Lemma get_first {A : Type} (u : string) (k : response -> prog A)
      (h : exn -> prog A) :
  (forall r, fetches [] (k r)) -> (forall e, fetches [] (h e)) ->
  fetches [u] (catch (bind (requests_get u) k) h).
Proof.
  unfold fetches. intros Hk Hh. apply yields_catch; [| assumption].
  simpl. intros x _. exists []. split; [reflexivity |].
  destruct x as [e | r]; simpl; auto.
Qed.

Lemma scrape_website_fetches (url : string) :
  fetches [url] (scrape_website P url).
Proof. apply get_first; by_cases. Qed.

Lemma scrape_website_unfailing (url : string) : unfailing (scrape_website P url).
Proof. apply returns_catch. by_cases. Qed.

Lemma fetch_from_api_fetches (endpoint : string) :
  fetches [endpoint] (fetch_from_api P endpoint).
Proof. apply get_first; by_cases. Qed.

Lemma fetch_from_api_unfailing (endpoint : string) :
  unfailing (fetch_from_api P endpoint).
Proof. apply returns_catch. by_cases. Qed.

Lemma parse_rss_feed_fetches (feed_url : string) :
  fetches [feed_url] (parse_rss_feed P feed_url).
Proof.
  apply get_first; [| by_cases].
  intro r. unfold raise_for_status, of_sum, fetches.
  destruct (status_error feed_url r); simpl; [reflexivity |].
  destruct (xml_parser P (body r)); simpl; [reflexivity |].
  apply yields_bind_quiet; [| by_cases].
  apply yields_for_each_quiet. by_cases.
Qed.

Lemma parse_rss_feed_unfailing (feed_url : string) :
  unfailing (parse_rss_feed P feed_url).
Proof. apply returns_catch. by_cases. Qed.

Lemma one_each (l : list string) : flat_map (fun u => [u]) l = l.
Proof. induction l; simpl; congruence. Qed.

Lemma collect_news_from_fetches (l : list string) :
  fetches l (collect_news_from P l) /\ unfailing (collect_news_from P l).
Proof.
  split.
  - rewrite <- (one_each l) at 1. apply yields_for_each.
    + intro u. apply returns_catch. by_cases.
    + intro u. apply yields_catch; [| by_cases].
      destruct (PyStr.contains "rss" u).
      * apply parse_rss_feed_fetches.
      * apply yields_bind_quiet; [apply fetch_from_api_fetches | by_cases].
  - apply returns_for_each. intro u. apply returns_catch. by_cases.
Qed.

Lemma collect_datasets_from_fetches (l : list string) :
  fetches l (collect_datasets_from P l) /\ unfailing (collect_datasets_from P l).
Proof.
  split.
  - rewrite <- (one_each l) at 1. apply yields_for_each.
    + intro u. apply returns_catch. by_cases.
    + intro u. apply yields_catch; [| by_cases].
      apply yields_bind_quiet; [apply scrape_website_fetches | by_cases].
  - apply returns_for_each. intro u. apply returns_catch. by_cases.
Qed.

Lemma collect_government_from_fetches (l : list string) :
  fetches l (collect_government_from P l)
  /\ unfailing (collect_government_from P l).
Proof.
  split.
  - rewrite <- (one_each l) at 1. apply yields_for_each.
    + intro u. apply returns_catch. by_cases.
    + intro u. apply yields_catch; [| by_cases].
      apply yields_bind_quiet; [apply scrape_website_fetches | by_cases].
  - apply returns_for_each. intro u. apply returns_catch. by_cases.
Qed.

(** Each work item requests its own URLs and nothing else. *)
Lemma work_items_owed (S : sources) : owed (work_items P S) (all_urls S).
Proof.
  unfold owed, all_urls.
  rewrite <- (one_each (websites_to_scrape S)), <- (one_each (public_apis S)).
  apply work_items_due.
  - apply scrape_website_fetches.
  - apply fetch_from_api_fetches.
  - apply collect_news_from_fetches.
  - apply collect_datasets_from_fetches.
  - apply collect_government_from_fetches.
Qed.

End Requests.

(** ** The rows of each method

    In a calm environment the rows a job adds to a table are a function of
    the answers. *)

Lemma insert_verdict (table : string) (data : pydict) (d : Store.db) :
  match Store.insert table data d with
  | inr _ => Inserted
  | inl msg => Refused (mk_exn DatabaseError msg)
  end = verdict table data.
Proof.
  unfold verdict, Store.insert, Store.columns, Store.rows.
  destruct data; [reflexivity |].
  repeat match goal with
         | |- context [String.eqb table ?s] => destruct (String.eqb table s)
         | |- context [List.find ?f ?l] => destruct (List.find f l)
         end; reflexivity.
Qed.

(** The id SQLite assigns does not show in an undated row. *)
Lemma undated_new_row (cols : list string) (data : pydict) (n : nat) :
  undated (Store.new_row cols data n) = undated (Store.new_row cols data 0).
Proof. reflexivity. Qed.

Lemma insert_content (table : string) (data : pydict) (d d' : Store.db) (t : string) :
  Store.insert table data d = inr d' ->
  exists cols,
    Store.columns table = Some cols
    /\ match Store.rows t d' with Some rs => map undated rs | None => [] end
       = match Store.rows t d with Some rs => map undated rs | None => [] end
         ++ (if String.eqb table t then [undated (Store.new_row cols data 0)] else []).
Proof.
  unfold Store.insert. destruct data as [| kv data]; [discriminate |].
  destruct (Store.columns table) as [cols |] eqn:Hc; [| discriminate].
  destruct (Store.rows table d) as [rs |] eqn:Hr; [| discriminate].
  destruct (List.find _ _); [discriminate |].
  intro H; injection H as <-. exists cols. split; [reflexivity |].
  unfold Store.rows, Store.set_rows, Store.columns in *.
  rewrite (String.eqb_sym table t).
  destruct (String.eqb_spec table "web_data") as [-> | H1].
  { injection Hr as <-. simpl.
    destruct (String.eqb_spec t "web_data") as [-> | Ht]; simpl.
    - rewrite map_app. reflexivity.
    - rewrite app_nil_r. reflexivity. }
  destruct (String.eqb_spec table "api_data") as [-> | H2].
  { injection Hr as <-. simpl.
    destruct (String.eqb_spec t "api_data") as [-> | Ht]; simpl.
    - rewrite map_app. reflexivity.
    - rewrite app_nil_r. destruct (String.eqb t "web_data"); reflexivity. }
  destruct (String.eqb_spec table "news_articles") as [-> | H3]; [| discriminate].
  injection Hr as <-. simpl.
  destruct (String.eqb_spec t "news_articles") as [-> | Ht]; simpl.
  - rewrite map_app. reflexivity.
  - rewrite app_nil_r.
    destruct (String.eqb t "web_data"); [reflexivity |].
    destruct (String.eqb t "api_data"); reflexivity.
Qed.

Lemma calm_performed (E : env) (answer : string -> exn + response) (t : string) :
  calm E answer ->
  forall X (e : eff X) w,
    answered answer X e (fst (perform E e w))
    /\ content_of t (snd (perform E e w))
       = content_of t w ++ row_of t X e (fst (perform E e w)).
Proof.
  intros (Hnet & Hc & Hs) X e w. unfold content_of.
  destruct e; simpl; rewrite ?app_nil_r; auto.
  - rewrite Hc, Hs.
    pose proof (insert_verdict table data (db w)) as Hv.
    destruct (Store.insert table data (db w)) as [msg | d'] eqn:Hi; simpl.
    + rewrite app_nil_r. split; [exact Hv | reflexivity].
    + split; [exact Hv |].
      destruct (insert_content table data (db w) d' t Hi) as (cols & Hcols & Hrows).
      rewrite Hcols. exact Hrows.
  - destruct (open_fault E (moment w)); simpl; rewrite ?app_nil_r; auto.
  - destruct (open_fault E (moment w)); simpl; rewrite ?app_nil_r; auto.
  - rewrite Hc, Hs. simpl. rewrite ?app_nil_r; auto.
Qed.

Section Rows.

Variable P : parsers.
Variable answer : string -> exn + response.
Variable t : string.

#[local] Arguments String.eqb : simpl never.
#[local] Arguments verdict : simpl never.
#[local] Arguments undated : simpl never.

Lemma scrape_website_rows (url : string) :
  yields (answered answer) (row_of t) (page_content P answer t url)
         (scrape_website P url).
Proof.
  unfold page_content, okay, scrape_website. apply yields_catch.
  2: { by_cases. }
  simpl. intros x ->. eexists; split; [reflexivity |].
  destruct (answer url) as [e | r]; simpl; [reflexivity |].
  unfold raise_for_status. destruct (status_error url r); simpl; [reflexivity |].
  destruct (html_parser P (body r)) as [e | soup]; simpl; [reflexivity |].
  intros now _. eexists; split; [reflexivity |]. intros o ->.
  change (verdict "web_data" (web_record url soup now)) with Inserted.
  exists []. split.
  - rewrite app_nil_r. unfold in_table. destruct (String.eqb "web_data" t); reflexivity.
  - by_cases.
Qed.

Lemma fetch_from_api_rows (endpoint : string) :
  yields (answered answer) (row_of t) (api_content P answer t endpoint)
         (fetch_from_api P endpoint).
Proof.
  unfold api_content, okay, fetch_from_api. apply yields_catch.
  2: { by_cases. }
  simpl. intros x ->. eexists; split; [reflexivity |].
  destruct (answer endpoint) as [e | r]; simpl; [reflexivity |].
  unfold raise_for_status. destruct (status_error endpoint r); simpl; [reflexivity |].
  destruct (json_loads P (body r)) as [e | data]; simpl; [reflexivity |].
  intros now _. eexists; split; [reflexivity |]. intros o ->.
  change (verdict "api_data" (api_record endpoint data now)) with Inserted.
  exists []. split.
  - rewrite app_nil_r. unfold in_table. destruct (String.eqb "api_data" t); reflexivity.
  - by_cases.
Qed.

Lemma in_table_map {A : Type} (table : string) (f : A -> Store.row) (l : list A) :
  flat_map (fun a => in_table table t [f a]) l = in_table table t (map f l).
Proof.
  unfold in_table. destruct (String.eqb table t).
  - induction l; simpl; congruence.
  - induction l; simpl; congruence.
Qed.

Lemma save_item_rows (feed_url : string) (item : Soup.node) :
  yields (answered answer) (row_of t)
         (in_table "news_articles" t [item_row feed_url item])
         (save_item feed_url item)
  /\ returns (answered answer) (save_item feed_url item).
Proof.
  unfold save_item. simpl. split.
  - intros now _. eexists; split; [reflexivity |]. intros o ->.
    change (verdict "news_articles" (news_record feed_url item now)) with Inserted.
    exists []. split.
    + rewrite app_nil_r. unfold in_table.
      destruct (String.eqb "news_articles" t); reflexivity.
    + by_cases.
  - intros now _ o ->.
    change (verdict "news_articles" (news_record feed_url item now)) with Inserted.
    by_cases.
Qed.

Lemma parse_rss_feed_rows (feed_url : string) :
  yields (answered answer) (row_of t) (feed_content P answer t feed_url)
         (parse_rss_feed P feed_url).
Proof.
  unfold feed_content, okay, parse_rss_feed. apply yields_catch.
  2: { by_cases. }
  cbn [bind requests_get yields]. intros x Hx. cbn [answered] in Hx. subst x.
  eexists; split; [reflexivity |].
  destruct (answer feed_url) as [e | r]; [reflexivity |].
  cbn [bind]. unfold raise_for_status.
  destruct (status_error feed_url r); [reflexivity |].
  cbn [bind].
  destruct (xml_parser P (body r)) as [e | soup]; [reflexivity |].
  cbn [bind of_sum].
  apply yields_bind_quiet; [| by_cases].
  rewrite <- in_table_map.
  apply (yields_for_each _ (answered answer) (row_of t)
           (fun item => in_table "news_articles" t [item_row feed_url item])).
  - intro item. apply (save_item_rows feed_url item).
  - intro item. apply (save_item_rows feed_url item).
Qed.

Lemma collect_news_from_rows (l : list string) :
  yields (answered answer) (row_of t) (flat_map (news_content P answer t) l)
         (collect_news_from P l).
Proof.
  apply yields_for_each.
  - intro u. apply returns_catch. by_cases.
  - intro u. apply yields_catch; [| by_cases].
    unfold news_content. destruct (PyStr.contains "rss" u).
    + apply parse_rss_feed_rows.
    + apply yields_bind_quiet; [apply fetch_from_api_rows | by_cases].
Qed.

Lemma collect_datasets_from_rows (l : list string) :
  yields (answered answer) (row_of t) (flat_map (page_content P answer t) l)
         (collect_datasets_from P l).
Proof.
  apply yields_for_each.
  - intro u. apply returns_catch. by_cases.
  - intro u. apply yields_catch; [| by_cases].
    apply yields_bind_quiet; [apply scrape_website_rows | by_cases].
Qed.

Lemma collect_government_from_rows (l : list string) :
  yields (answered answer) (row_of t) (flat_map (page_content P answer t) l)
         (collect_government_from P l).
Proof.
  apply yields_for_each.
  - intro u. apply returns_catch. by_cases.
  - intro u. apply yields_catch; [| by_cases].
    apply yields_bind_quiet; [apply scrape_website_rows | by_cases].
Qed.

End Rows.

Lemma collect_all_content (P : parsers) (E : env) (answer : string -> exn + response)
      (S : sources) (max_workers : Z) (sched : list nat) (w : world) (t : string) :
  calm E answer -> (0 < max_workers)%Z ->
  Permutation (content_of t (snd (collect_all_from P E S max_workers sched w)))
              (content_of t w ++ expected P answer t S).
Proof.
  intros Hcalm Hpos.
  apply (collect_all_ledger Store.row (answered answer) (row_of t) E (content_of t)
           (calm_performed E answer t Hcalm) P S max_workers sched w _ Hpos).
  - by_cases.
  - intro n. by_cases.
  - apply work_items_due.
    + apply scrape_website_rows.
    + apply fetch_from_api_rows.
    + apply collect_news_from_rows.
    + apply collect_datasets_from_rows.
    + apply collect_government_from_rows.
Qed.

Lemma count_of_content (t : string) (w1 w2 : world) :
  Permutation (content_of t w1) (content_of t w2) ->
  Store.count t (db w1) = Store.count t (db w2).
Proof.
  unfold content_of, Store.count, Store.rows. intro H.
  apply Permutation_length in H.
  repeat match goal with
         | |- context [String.eqb t ?s] => destruct (String.eqb t s)
         end;
    rewrite ?length_map in H; congruence.
Qed.

(** ** Invariants under the pool *)

(** An invariant of the world that every allowed effect keeps is kept by
    the pool under any schedule. *)
Section PoolInvariant.

Variable E : env.
Variable Q : forall X, eff X -> Prop.
Variable I : world -> Prop.
Hypothesis keeps :
  forall X (e : eff X) w, Q X e -> I w -> I (snd (perform E e w)).

Lemma pool_step_every (i : nat) (p : pool) (w : world) :
  Forall (every Q (A:=unit)) (tasks_of p) -> I w ->
  Forall (every Q (A:=unit)) (tasks_of (fst (pool_step E i (p, w))))
  /\ I (snd (pool_step E i (p, w))).
Proof.
  intros Hp Hw.
  destruct (pool_step_cases E i p w)
    as [[Hw' Hp'] | [(X & e & k & rest & Hq & Hq' & Hw')
                     | (Hw' & t & rest & Ht & Hq & Hq')]];
    rewrite Hw'.
  - split; [| assumption]. rewrite Hp'. assumption.
  - rewrite Hq in Hp. inversion Hp as [| t0 l0 Ht0 Hrest]; subst.
    destruct Ht0 as [He Hk]. split.
    + rewrite Hq'. constructor; auto.
    + apply keeps; assumption.
  - split; [| assumption]. rewrite Hq in Hp. rewrite Hq'.
    inversion Hp; assumption.
Qed.

Lemma pool_run_every (sched : list nat) (p : pool) (w : world) :
  Forall (every Q (A:=unit)) (tasks_of p) -> I w ->
  Forall (every Q (A:=unit)) (tasks_of (fst (pool_run E sched (p, w))))
  /\ I (snd (pool_run E sched (p, w))).
Proof.
  revert p w; induction sched as [| i sched IH]; intros p w Hp Hw.
  - split; assumption.
  - change (pool_run E (i :: sched) (p, w))
      with (pool_run E sched (pool_step E i (p, w))).
    destruct (@pool_step_every i p w Hp Hw) as [Hp1 Hw1].
    destruct (pool_step E i (p, w)) as [p1 w1]. apply IH; assumption.
Qed.

Lemma run_all_every (ts : list task) (w : world) :
  Forall (every Q (A:=unit)) ts -> I w -> I (run_all E ts w).
Proof.
  revert w; induction ts as [| t ts IH]; intros w Hts Hw; simpl; [assumption |].
  inversion Hts; subst. apply IH; [assumption |].
  apply every_run with (Q := Q); assumption.
Qed.

(** The whole run keeps the invariant when every part of it is allowed. *)
Lemma collect_all_every (P : parsers) (S : sources) (max_workers : Z)
      (sched : list nat) (w : world) :
  Forall (every Q (A:=unit)) (work_items P S) ->
  every Q starting -> (forall t, every Q (finishing t)) ->
  I w -> I (snd (collect_all_from P E S max_workers sched w)).
Proof.
  intros Hitems Hstart Hfin Hw. unfold collect_all_from.
  pose proof (@every_run E Q I keeps _ starting w Hstart Hw) as Hw1.
  destruct (run E starting w) as [[t0 | e] w1]; simpl in Hw1; [| assumption].
  destruct (max_workers <=? 0)%Z; [assumption |].
  set (p0 := mk_pool (work_items P S) (repeat None (Z.to_nat max_workers))).
  assert (Hp0 : Forall (every Q (A:=unit)) (tasks_of p0)).
  { unfold tasks_of, p0. simpl.
    replace (running (repeat None (Z.to_nat max_workers))) with (@nil task);
      [assumption |].
    induction (Z.to_nat max_workers); simpl; auto. }
  destruct (@pool_run_every sched p0 w1 Hp0 Hw1) as [Hp Hw2].
  destruct (pool_run E sched (p0, w1)) as [p w2]. simpl in Hp, Hw2.
  apply every_run with (Q := Q); auto.
  apply run_all_every; assumption.
Qed.

End PoolInvariant.

(** ** Every run ends: draining is itself a schedule *)

Lemma nth_error_set_nth {A : Type} (l : list A) (i : nat) (a b : A) :
  nth_error l i = Some a -> nth_error (set_nth i b l) i = Some b.
Proof.
  revert i; induction l as [| x l IH]; intros [| i] H; simpl in *;
    try discriminate; auto.
Qed.

Lemma set_nth_twice {A : Type} (l : list A) (i : nat) (a b : A) :
  set_nth i b (set_nth i a l) = set_nth i b l.
Proof.
  revert i; induction l as [| x l IH]; intros [| i]; simpl; try reflexivity.
  rewrite IH; reflexivity.
Qed.

Lemma set_nth_middle {A : Type} (pre suf : list A) (a b : A) :
  set_nth (List.length pre) b (pre ++ a :: suf) = pre ++ b :: suf.
Proof. induction pre as [| x pre IH]; simpl; congruence. Qed.

Lemma pool_run_app (E : env) (s1 s2 : list nat) (st : pool * world) :
  pool_run E (s1 ++ s2) st = pool_run E s2 (pool_run E s1 st).
Proof. apply fold_left_app. Qed.

Lemma run_all_app (E : env) (a b : list task) (w : world) :
  run_all E (a ++ b) w = run_all E b (run_all E a w).
Proof. apply fold_left_app. Qed.

(** A worker left alone with its task finishes it as [run] does. *)
Lemma worker_finishes (E : env) (i : nat) (q : list task) (t : task) :
  forall (ws : list (option task)) (w : world),
    nth_error ws i = Some (Some t) ->
    exists n,
      pool_run E (repeat i n) (mk_pool q ws, w)
      = (mk_pool q (set_nth i None ws), snd (run E t w)).
Proof.
  induction t as [a | e | X e k IH]; intros ws w Hi.
  - exists 1. simpl. rewrite Hi. reflexivity.
  - exists 1. simpl. rewrite Hi. reflexivity.
  - pose proof (nth_error_set_nth ws i _ (Some (k (fst (perform E e w)))) Hi) as Hi'.
    destruct (IH _ _ (snd (perform E e w)) Hi') as [n Hn].
    exists (S n). simpl repeat.
    change (pool_run E (i :: repeat i n) (mk_pool q ws, w))
      with (pool_run E (repeat i n) (pool_step E i (mk_pool q ws, w))).
    unfold pool_step at 1. cbn [workers queue]. rewrite Hi.
    simpl run. destruct (perform E e w) as [x w']. cbn [fst snd] in *.
    rewrite set_nth_twice in Hn. exact Hn.
Qed.

Lemma workers_finish (E : env) (q : list task) :
  forall (suf pre : list (option task)) (w : world),
    exists sched,
      pool_run E sched (mk_pool q (pre ++ suf), w)
      = (mk_pool q (pre ++ repeat None (List.length suf)),
         run_all E (running suf) w).
Proof.
  induction suf as [| o suf IH]; intros pre w.
  - exists []. reflexivity.
  - destruct o as [t |].
    + assert (Hi : nth_error (pre ++ Some t :: suf) (List.length pre) = Some (Some t)).
      { rewrite nth_error_app2, Nat.sub_diag by lia. reflexivity. }
      destruct (worker_finishes E (List.length pre) q t _ w Hi) as [n Hn].
      rewrite set_nth_middle in Hn.
      destruct (IH (pre ++ [None]) (snd (run E t w))) as [s Hs].
      rewrite <- !app_assoc in Hs. simpl in Hs.
      exists (repeat (List.length pre) n ++ s).
      rewrite pool_run_app, Hn, Hs. reflexivity.
    + destruct (IH (pre ++ [None]) w) as [s Hs].
      rewrite <- !app_assoc in Hs. simpl in Hs.
      exists s. exact Hs.
Qed.

Lemma queue_finishes (E : env) (ws : list (option task)) :
  forall (q : list task) (w : world),
    exists sched,
      pool_run E sched (mk_pool q (None :: ws), w)
      = (mk_pool [] (None :: ws), run_all E q w).
Proof.
  induction q as [| t q IH]; intro w.
  - exists []. reflexivity.
  - assert (Hi : nth_error (Some t :: ws) 0 = Some (Some t)) by reflexivity.
    destruct (worker_finishes E 0 q t _ w Hi) as [n Hn]. simpl set_nth in Hn.
    destruct (IH (snd (run E t w))) as [s Hs].
    exists (0 :: repeat 0 n ++ s).
    change (pool_run E (0 :: repeat 0 n ++ s) (mk_pool (t :: q) (None :: ws), w))
      with (pool_run E (repeat 0 n ++ s) (mk_pool q (Some t :: ws), w)).
    rewrite pool_run_app, Hn, Hs. reflexivity.
Qed.

Lemma idle_repeat (n : nat) : idle (mk_pool [] (repeat None n)).
Proof.
  split; [reflexivity |]. simpl. induction n; simpl; constructor; auto.
Qed.

(** With at least one worker, what [drain] computes is reached by a
    schedule that leaves the pool idle. *)
Lemma drain_is_scheduled (E : env) (p : pool) (w : world) :
  workers p <> [] ->
  exists sched,
    idle (fst (pool_run E sched (p, w)))
    /\ snd (pool_run E sched (p, w)) = drain E p w.
Proof.
  intro Hne. destruct p as [q ws]. simpl in Hne.
  destruct (workers_finish E q ws [] w) as [s1 H1]. simpl in H1.
  destruct ws as [| o ws]; [contradiction |]. simpl List.length in H1.
  simpl repeat in H1.
  destruct (queue_finishes E (repeat None (List.length ws)) q
                           (run_all E (running (o :: ws)) w)) as [s2 H2].
  exists (s1 ++ s2). rewrite pool_run_app, H1, H2. split.
  - apply (idle_repeat (S (List.length ws))).
  - unfold drain. rewrite run_all_app. reflexivity.
Qed.

(** ** Text: what [strip] and [join] guarantee *)

Lemma lstrip_first (s : string) (c : ascii) :
  PyStr.first_char (PyStr.lstrip s) = Some c -> PyStr.isspace c = false.
Proof.
  induction s as [| a s IH]; simpl; [discriminate |].
  destruct (PyStr.isspace a) eqn:Ha; [exact IH |].
  simpl. intro H; injection H as <-; exact Ha.
Qed.

Lemma rstrip_first (s : string) (c : ascii) :
  PyStr.first_char (PyStr.rstrip s) = Some c -> PyStr.first_char s = Some c.
Proof.
  destruct s as [| a s]; simpl; [discriminate |].
  destruct (PyStr.rstrip s); [destruct (PyStr.isspace a) |]; simpl;
    intro H; try discriminate; exact H.
Qed.

Lemma rstrip_last (s : string) (c : ascii) :
  PyStr.last_char (PyStr.rstrip s) = Some c -> PyStr.isspace c = false.
Proof.
  induction s as [| a s IH]; simpl; [discriminate |].
  destruct (PyStr.rstrip s) as [| b r] eqn:Hr.
  - destruct (PyStr.isspace a) eqn:Ha; simpl; [discriminate |].
    intro H; injection H as <-; exact Ha.
  - intro H. apply IH. exact H.
Qed.

Lemma strip_trimmed (s : string) : trimmed (PyStr.strip s).
Proof.
  unfold PyStr.strip; split; intros c H.
  - apply lstrip_first with s, rstrip_first, H.
  - apply rstrip_last with (PyStr.lstrip s), H.
Qed.

Lemma first_char_append (a b : string) :
  PyStr.nonempty a = true -> PyStr.first_char (a +++ b) = PyStr.first_char a.
Proof. destruct a; simpl; [discriminate | reflexivity]. Qed.

Lemma last_char_append (a b : string) :
  PyStr.nonempty b = true -> PyStr.last_char (a +++ b) = PyStr.last_char b.
Proof.
  intro Hb. induction a as [| c a IH]; [reflexivity |].
  change (String c a +++ b) with (String c (a +++ b)).
  simpl. destruct (a +++ b) eqn:Hab; [| exact IH].
  destruct a; unfold String.append in Hab; [subst; discriminate | discriminate].
Qed.

Lemma nonempty_append_r (a b : string) :
  PyStr.nonempty b = true -> PyStr.nonempty (a +++ b) = true.
Proof. intro Hb. destruct a; [exact Hb | reflexivity]. Qed.

Lemma join_nonempty (sep p : string) (l : list string) :
  PyStr.nonempty p = true -> PyStr.nonempty (PyStr.join sep (p :: l)) = true.
Proof.
  intro Hp. destruct l; simpl; [exact Hp |].
  destruct p; [discriminate | reflexivity].
Qed.

(** Joining trimmed, non-empty pieces with one space gives a trimmed
    text. *)
Lemma join_trimmed (l : list string) :
  Forall (fun s => PyStr.nonempty s = true /\ trimmed s) l ->
  trimmed (PyStr.join " " l).
Proof.
  induction 1 as [| p l [Hp [Hf Hl]] Hrest IH].
  - split; simpl; discriminate.
  - destruct l as [| p' l'].
    + simpl. split; assumption.
    + change (PyStr.join " " (p :: p' :: l'))
        with (p +++ " " +++ PyStr.join " " (p' :: l')).
      inversion Hrest as [| ? ? [Hp' _] _]; subst.
      pose proof (join_nonempty " " p' l' Hp') as Hne.
      split; intros c Hc.
      * rewrite first_char_append in Hc by exact Hp. auto.
      * rewrite last_char_append in Hc
          by (apply nonempty_append_r with (a := " "); exact Hne).
        rewrite last_char_append in Hc by exact Hne.
        apply IH; exact Hc.
Qed.

(** ** Trees: what cutting tags out does to the text *)

(** Induction on trees, with the hypothesis on every child of a tag. *)
Lemma node_induction (Pn : Soup.node -> Prop) :
  (forall k s, Pn (Soup.Str k s)) ->
  (forall nm cs, Forall Pn cs -> Pn (Soup.Tag nm cs)) ->
  forall n, Pn n.
Proof.
  intros on_str on_tag.
  fix IH 1. intros [nm cs | k s]; [| apply on_str].
  apply on_tag. induction cs as [| c cs IHcs]; constructor.
  - apply IH.
  - exact IHcs.
Qed.

Lemma piece_decompose (names : list string) (b : bool) (n : Soup.node) :
  Soup.piece b (Soup.decompose_all names n) = Soup.piece b n.
Proof. destruct n; reflexivity. Qed.

Lemma all_strings_decompose (names : list string) (b : bool) (n : Soup.node) :
  Soup.all_strings b (Soup.decompose_all names n)
  = flat_map (Soup.piece b) (outside names n).
Proof.
  unfold Soup.all_strings.
  induction n as [k s | nm cs IH] using node_induction; [reflexivity |].
  simpl. induction IH as [| c cs Hc Hcs IHcs]; [reflexivity |].
  simpl. destruct (Soup.is_named names c); simpl; [exact IHcs |].
  rewrite !flat_map_app, piece_decompose, Hc, IHcs. reflexivity.
Qed.

Lemma is_named_blank (names : list string) (n : Soup.node) :
  Soup.is_named names (blank names n) = Soup.is_named names n.
Proof. destruct n; reflexivity. Qed.

Lemma is_named_hollow (names : list string) (n : Soup.node) :
  Soup.is_named names (hollow n) = Soup.is_named names n.
Proof. destruct n; reflexivity. Qed.

Lemma decompose_blank (names : list string) (n : Soup.node) :
  Soup.decompose_all names (blank names n) = Soup.decompose_all names n.
Proof.
  induction n as [k s | nm cs IH] using node_induction; [reflexivity |].
  simpl. f_equal. induction IH as [| c cs Hc Hcs IHcs]; [reflexivity |].
  simpl. destruct (Soup.is_named names c) eqn:Hn.
  - rewrite is_named_hollow, Hn. exact IHcs.
  - rewrite is_named_blank, Hn, Hc, IHcs. reflexivity.
Qed.

Lemma pieces_trimmed (l : list Soup.node) :
  Forall (fun s => PyStr.nonempty s = true /\ trimmed s)
         (flat_map (Soup.piece true) l).
Proof.
  induction l as [| n l IH]; simpl; [constructor |].
  apply Forall_app; split; [| exact IH].
  destruct n as [nm cs | k s]; simpl; [constructor |].
  destruct (Soup.visible k); [| constructor].
  destruct (PyStr.nonempty (PyStr.strip s)) eqn:Hne; constructor; [| constructor].
  split; [exact Hne | apply strip_trimmed].
Qed.

(** ** Reading a world after a run *)

Lemma moment_emit (ev : event) (w : world) : moment (emit ev w) = S (moment w).
Proof. apply length_snoc. Qed.

Lemma moment_set_db (d : Store.db) (w : world) : moment (set_db d w) = moment w.
Proof. reflexivity. Qed.

Lemma moment_set_files (f : Archive.dir) (w : world) :
  moment (set_files f w) = moment w.
Proof. reflexivity. Qed.

Lemma db_emit (ev : event) (w : world) : db (emit ev w) = db w.
Proof. reflexivity. Qed.

Lemma db_set_db (d : Store.db) (w : world) : db (set_db d w) = d.
Proof. reflexivity. Qed.

Lemma db_set_files (f : Archive.dir) (w : world) : db (set_files f w) = db w.
Proof. reflexivity. Qed.

Lemma files_emit (ev : event) (w : world) : files (emit ev w) = files w.
Proof. reflexivity. Qed.

Lemma files_set_db (d : Store.db) (w : world) : files (set_db d w) = files w.
Proof. reflexivity. Qed.

Lemma files_set_files (f : Archive.dir) (w : world) : files (set_files f w) = f.
Proof. reflexivity. Qed.

Lemma inserts_emit (ev : event) (w : world) :
  inserts (emit ev w) = inserts w ++ inserts_of [ev].
Proof. apply inserts_of_app. Qed.

Lemma inserts_set_db (d : Store.db) (w : world) : inserts (set_db d w) = inserts w.
Proof. reflexivity. Qed.

Lemma inserts_set_files (f : Archive.dir) (w : world) :
  inserts (set_files f w) = inserts w.
Proof. reflexivity. Qed.

Lemma log_emit (ev : event) (w : world) : log (emit ev w) = log w ++ log_of [ev].
Proof. apply log_of_app. Qed.

Lemma log_set_db (d : Store.db) (w : world) : log (set_db d w) = log w.
Proof. reflexivity. Qed.

Lemma log_set_files (f : Archive.dir) (w : world) : log (set_files f w) = log w.
Proof. reflexivity. Qed.

Lemma requests_emit (ev : event) (w : world) :
  requests (emit ev w) = requests w ++ requests_of [ev].
Proof. apply requests_of_app. Qed.

Lemma requests_set_db (d : Store.db) (w : world) :
  requests (set_db d w) = requests w.
Proof. reflexivity. Qed.

Lemma requests_set_files (f : Archive.dir) (w : world) :
  requests (set_files f w) = requests w.
Proof. reflexivity. Qed.

Create Rewrite HintDb world.
#[local] Hint Rewrite
  moment_emit moment_set_db moment_set_files
  db_emit db_set_db db_set_files
  files_emit files_set_db files_set_files
  inserts_emit inserts_set_db inserts_set_files
  log_emit log_set_db log_set_files
  requests_emit requests_set_db requests_set_files : world.

Arguments emit : simpl never.
Arguments set_db : simpl never.
Arguments set_files : simpl never.
Arguments moment : simpl never.
Arguments inserts : simpl never.
Arguments log : simpl never.
Arguments requests : simpl never.

(* ================================================================== *)
(** * The claims *)

(** C1, as amended.  After a successful fetch of a well-formed body,
    [fetch_from_api] makes exactly one append, to [api_data]; the stored
    [data_json] is [json.dumps] of the decoded body, not the body's own
    text.  The other tables are untouched. *)
Theorem fetch_from_api_reserialises (P : parsers) (E : env) (endpoint : string)
        (w : world) (r : response) (data : Json.value) :
  fetched E w endpoint r ->
  json_loads P (body r) = inr data ->
  store_accepts E (2 + moment w) ->
  let w' := snd (run E (fetch_from_api P endpoint) w) in
  let record := api_record endpoint data (now E (1 + moment w)) in
  let row := Store.new_row api_columns record
                           (List.length (Store.api_data (db w))) in
  inserts w' = inserts w ++ [("api_data", record, true)]
  /\ Store.api_data (db w') = Store.api_data (db w) ++ [row]
  /\ Store.web_data (db w') = Store.web_data (db w)
  /\ Store.news_articles (db w') = Store.news_articles (db w)
  /\ Store.get "data_json" row = Some (Store.Txt (Json.dumps data))
  /\ Store.get "endpoint" row = Some (Store.Txt endpoint)
  /\ Store.get "data_type" row = Some (Store.Txt "json").
Proof.
  intros [Hnet Hstatus] Hdata [Hc Hs] w'.
  remember (run E (fetch_from_api P endpoint) w) as rw eqn:Hrun.
  unfold fetch_from_api, requests_get, raise_for_status in Hrun. simpl in Hrun.
  rewrite Hnet in Hrun. simpl in Hrun. rewrite Hstatus in Hrun. simpl in Hrun.
  rewrite Hdata in Hrun. simpl in Hrun.
  autorewrite with world in Hrun. simpl in Hc, Hs.
  rewrite Hc, Hs in Hrun. simpl in Hrun.
  destruct (open_fault E _) in Hrun; simpl in Hrun; subst rw w'; simpl snd;
    autorewrite with world; simpl; rewrite ?app_nil_r; auto 10.
Qed.

Lemma fetch_from_api_reserialises_witness :
  let E := Sample.serving "[1,2]" in
  let w' := snd (run E (fetch_from_api Sample.P "http://api") Sample.fresh) in
  Store.api_data (db w')
  = [Store.new_row api_columns
       (api_record "http://api" (Json.JArr [Json.JInt 1; Json.JInt 2]) Sample.noon) 0].
Proof.
  intros E w'.
  apply (fetch_from_api_reserialises Sample.P E "http://api" Sample.fresh
           (mk_response 200 "OK" "[1,2]") (Json.JArr [Json.JInt 1; Json.JInt 2])).
  - split; reflexivity.
  - reflexivity.
  - split; reflexivity.
Defined.

(** C1 as stated fails: the body [[1,2]] is well-formed and fetched with
    status 200, yet the stored [data_json] is [[1, 2]], which is not the
    text of the body. *)
Lemma fetch_from_api_not_verbatim :
  let body_text := "[1,2]" in
  let E := Sample.serving body_text in
  let w' := snd (run E (fetch_from_api Sample.P "http://api") Sample.fresh) in
  fetched E Sample.fresh "http://api" (mk_response 200 "OK" body_text)
  /\ Json.loads_core body_text = Some (Json.JArr [Json.JInt 1; Json.JInt 2])
  /\ exists row,
       Store.api_data (db w') = [row]
       /\ Store.get "data_json" row = Some (Store.Txt "[1, 2]")
       /\ Store.get "data_json" row <> Some (Store.Txt body_text).
Proof.
  split; [split; reflexivity |]. split; [reflexivity |].
  eexists. split; [reflexivity |]. split; [reflexivity | discriminate].
Qed.

(** C2.  When the insert raises, [save_to_database] returns normally, the
    error is logged once, the insert was attempted once, and the store and
    the archive are as they were. *)
Theorem save_to_database_drops_on_error (E : env) (table : string)
        (data : pydict) (w : world) (e : exn) :
  connect_fault E (moment w) = None ->
  insert_error E table data w = Some e ->
  let out := run E (save_to_database table data) w in
  fst out = Returned tt
  /\ db (snd out) = db w
  /\ files (snd out) = files w
  /\ inserts (snd out) = inserts w ++ [(table, data, false)]
  /\ log (snd out) = log w ++ [(ERROR, "Error saving to database: " +++ str e)]
  /\ requests (snd out) = requests w.
Proof.
  intros Hc He out. subst out. unfold insert_error in He.
  unfold save_to_database. simpl. rewrite Hc.
  destruct (statement_fault E (moment w)) as [x |].
  - injection He as ->. simpl. autorewrite with world. simpl.
    rewrite !app_nil_r. auto 10.
  - destruct (Store.insert table data (db w)) as [msg | d']; [| discriminate].
    injection He as <-. simpl. autorewrite with world. simpl.
    rewrite !app_nil_r. auto 10.
Qed.

Lemma save_to_database_drops_on_error_witness :
  let E := Sample.serving "" in
  let data := [("nickname", Some "x")] in
  let out := run E (save_to_database "web_data" data) Sample.fresh in
  fst out = Returned tt
  /\ db (snd out) = db Sample.fresh
  /\ files (snd out) = files Sample.fresh
  /\ inserts (snd out) = inserts Sample.fresh ++ [("web_data", data, false)]
  /\ log (snd out)
     = log Sample.fresh
       ++ [(ERROR, "Error saving to database: "
                   +++ "table web_data has no column named nickname")]
  /\ requests (snd out) = requests Sample.fresh.
Proof.
  apply (save_to_database_drops_on_error
           (Sample.serving "") "web_data" [("nickname", Some "x")] Sample.fresh
           (mk_exn DatabaseError "table web_data has no column named nickname"));
    reflexivity.
Defined.

Lemma no_insert_perform (E : env) {X : Type} (e : eff X) (w : world) :
  no_insert X e ->
  db (snd (perform E e w)) = db w /\ inserts (snd (perform E e w)) = inserts w.
Proof.
  destruct e; simpl; try contradiction; intros _;
    repeat match goal with
           | |- context [match ?x with _ => _ end] => destruct x; simpl
           end;
    autorewrite with world; simpl; rewrite ?app_nil_r; auto.
Qed.

Lemma no_insert_run (E : env) {A : Type} (p : prog A) (w : world) :
  every no_insert p ->
  db (snd (run E p w)) = db w /\ inserts (snd (run E p w)) = inserts w.
Proof.
  intro Hp.
  apply (@every_run E no_insert
           (fun w' => db w' = db w /\ inserts w' = inserts w)); auto.
  intros X e w0 He [Hd Hi].
  destruct (no_insert_perform E e w0 He) as [Hd' Hi']. split; congruence.
Qed.

Ltac by_every :=
  repeat first [progress simpl | progress intros
               | progress unfold of_sum, raise_for_status
               | split | split_match];
  auto.

Lemma finishing_no_insert (t : nat) : every no_insert (finishing t).
Proof. unfold finishing. by_every. Qed.

Lemma finishing_quiet (t : nat) : fetches [] (finishing t).
Proof. unfold finishing. by_cases. Qed.

Lemma starting_quiet : fetches [] starting.
Proof. unfold starting. by_cases. Qed.

(** A pool whose tasks have all ended changes nothing, whatever the
    schedule. *)
Lemma pool_run_ended (E : env) (sched : list nat) (p : pool) (w : world) :
  Forall ended (tasks_of p) ->
  Forall ended (tasks_of (fst (pool_run E sched (p, w))))
  /\ snd (pool_run E sched (p, w)) = w.
Proof.
  revert p w; induction sched as [| i sched IH]; intros p w Hp.
  - split; [assumption | reflexivity].
  - change (pool_run E (i :: sched) (p, w))
      with (pool_run E sched (pool_step E i (p, w))).
    destruct (pool_step_cases E i p w)
      as [[Hw Hq] | [(X & e & k & rest & Hq & _) | (Hw & t & rest & _ & Hq & Hq')]].
    + destruct (pool_step E i (p, w)) as [p1 w1]. simpl in Hw, Hq. subst w1.
      apply IH. rewrite Hq. assumption.
    + rewrite Hq in Hp. inversion Hp as [| ? ? Hv _]. contradiction.
    + destruct (pool_step E i (p, w)) as [p1 w1]. simpl in Hw, Hq'. subst w1.
      apply IH. rewrite Hq'. rewrite Hq in Hp. inversion Hp. assumption.
Qed.

Lemma run_all_ended (E : env) (ts : list task) (w : world) :
  Forall ended ts -> run_all E ts w = w.
Proof.
  revert w; induction ts as [| t ts IH]; intros w Hts; [reflexivity |].
  inversion Hts as [| ? ? Ht Hrest]; subst. simpl.
  destruct t; simpl in *; [apply IH; assumption .. | contradiction].
Qed.

Lemma running_idle (n : nat) : running (repeat None n) = [].
Proof. induction n; simpl; auto. Qed.

(** C3.  A pool size of zero or less makes [collect_all_data] raise
    [ValueError] before any work item runs: no request, no append, store
    and archive unchanged.  With a positive pool size and no source at all,
    the run makes no request and no append and goes straight to its
    closing steps. *)
Theorem collect_all_edge_cases (P : parsers) (E : env) (S : sources)
        (max_workers : Z) (sched : list nat) (w : world) :
  let out := collect_all_from P E S max_workers sched w in
  ((max_workers <= 0)%Z ->
   fst out = Raised (mk_exn ValueError "max_workers must be greater than 0")
   /\ requests (snd out) = requests w
   /\ inserts (snd out) = inserts w
   /\ db (snd out) = db w
   /\ files (snd out) = files w)
  /\ ((0 < max_workers)%Z -> all_urls S = [] ->
      out = no_work E w
      /\ requests (snd out) = requests w
      /\ inserts (snd out) = inserts w
      /\ db (snd out) = db w).
Proof.
  intro out; subst out. unfold collect_all_from. split.
  - intro Hle. simpl run. apply Z.leb_le in Hle. rewrite Hle. simpl.
    autorewrite with world. simpl. rewrite !app_nil_r. auto.
  - intros Hpos Hnone.
    assert (Hitems : work_items P S = [Ret tt; Ret tt; Ret tt]).
    { unfold all_urls in Hnone. unfold work_items.
      destruct S as [a b c d e]; simpl in *.
      destruct a; [| discriminate]. destruct b; [| discriminate].
      destruct c; [| discriminate]. destruct d; [| discriminate].
      destruct e; [| discriminate]. reflexivity. }
    rewrite Hitems. unfold no_work. rewrite run_bind.
    destruct (run E starting w) as [[t0 | x] w1] eqn:Hstart.
    2: { unfold starting in Hstart. simpl in Hstart. discriminate. }
    assert (Hle : (max_workers <=? 0)%Z = false) by (apply Z.leb_gt; exact Hpos).
    rewrite Hle.
    set (p0 := mk_pool _ _).
    assert (Hp0 : Forall ended (tasks_of p0)).
    { unfold tasks_of, p0. simpl. rewrite running_idle. simpl.
      repeat constructor. }
    destruct (pool_run_ended E sched p0 w1 Hp0) as [Hp Hw].
    destruct (pool_run E sched (p0, w1)) as [p w2]. simpl in Hp, Hw. subst w2.
    unfold drain. unfold tasks_of in Hp. rewrite (run_all_ended E _ w1 Hp).
    split; [reflexivity |].
    unfold starting in Hstart. simpl in Hstart. injection Hstart as <- <-.
    match goal with
    | |- context [run E (finishing ?t) ?w0] =>
        destruct (no_insert_run E (finishing t) w0 (finishing_no_insert t))
          as [Hd Hi]
    end.
    rewrite Hd, Hi.
    rewrite (@fetches_run E _ [] _ _ (finishing_quiet _)).
    autorewrite with world. simpl. rewrite !app_nil_r. auto.
Qed.

Lemma collect_all_edge_cases_witness :
  let out := collect_all_data Sample.P (Sample.serving "[]") 0 [0; 1] Sample.fresh in
  fst out = Raised (mk_exn ValueError "max_workers must be greater than 0")
  /\ requests (snd out) = requests Sample.fresh
  /\ inserts (snd out) = inserts Sample.fresh
  /\ db (snd out) = db Sample.fresh
  /\ files (snd out) = files Sample.fresh.
Proof.
  apply (proj1 (collect_all_edge_cases Sample.P (Sample.serving "[]") configured
                  0 [0; 1] Sample.fresh)).
  apply Z.le_refl.
Defined.

(** C7.  With a positive pool size, under every schedule, the run requests
    each source URL exactly once: the requests made are the sources up to
    order, so their number is the number of jobs.  This is because each
    job method issues one request whatever happens next. *)
Theorem collect_all_fetches_each_once (P : parsers) (E : env) (S : sources)
        (max_workers : Z) (sched : list nat) (w : world) :
  (0 < max_workers)%Z ->
  let w' := snd (collect_all_from P E S max_workers sched w) in
  Permutation (requests w') (requests w ++ all_urls S)
  /\ List.length (requests w')
     = List.length (requests w) + List.length (all_urls S)
  /\ (forall url w0,
         requests (snd (run E (scrape_website P url) w0)) = requests w0 ++ [url])
  /\ (forall url w0,
         requests (snd (run E (fetch_from_api P url) w0)) = requests w0 ++ [url])
  /\ (forall url w0,
         requests (snd (run E (parse_rss_feed P url) w0)) = requests w0 ++ [url]).
Proof.
  intros Hpos w'.
  assert (Hperm : Permutation (requests w') (requests w ++ all_urls S)).
  { apply (collect_all_ledger string any_answer url_of E requests
             (requests_performed E) P S max_workers sched w (all_urls S) Hpos).
    - apply starting_quiet.
    - apply finishing_quiet.
    - apply work_items_owed. }
  split; [exact Hperm |]. split.
  - rewrite (Permutation_length Hperm), length_app. reflexivity.
  - repeat split; intros url w0.
    + apply fetches_run, scrape_website_fetches.
    + apply fetches_run, fetch_from_api_fetches.
    + apply fetches_run, parse_rss_feed_fetches.
Qed.

Lemma collect_all_fetches_each_once_witness :
  let w' := snd (collect_all_data Sample.P (Sample.serving "[]") 3
                                  [0; 1; 2; 2; 1; 0; 0; 1] Sample.fresh) in
  List.length (requests w') = 0 + 18.
Proof.
  apply (collect_all_fetches_each_once Sample.P (Sample.serving "[]") configured
           3 [0; 1; 2; 2; 1; 0; 0; 1] Sample.fresh).
  reflexivity.
Defined.

(** ** Pages *)

(** The page text is made of the strings outside scripts and styles, each
    stripped, the empty ones dropped, one space between them. *)
Lemma page_text_outside (soup : Soup.node) :
  page_text soup
  = PyStr.join " " (flat_map (Soup.piece true) (outside cut soup)).
Proof.
  unfold page_text, Soup.get_text. rewrite all_strings_decompose. reflexivity.
Qed.

Lemma page_text_trimmed (soup : Soup.node) : trimmed (page_text soup).
Proof. rewrite page_text_outside. apply join_trimmed, pieces_trimmed. Qed.

(** What stands inside a script or a style has no part in the page text. *)
Lemma page_text_blank (soup soup' : Soup.node) :
  blank cut soup' = blank cut soup -> page_text soup' = page_text soup.
Proof.
  intro H. unfold page_text. fold cut.
  rewrite <- (decompose_blank cut soup'), <- (decompose_blank cut soup), H.
  reflexivity.
Qed.

(** C4, as amended.  After a successful fetch of a page the HTML parser
    accepts, [scrape_website] makes exactly one append, to [web_data].  The
    title is the string of the first [title] tag, [No title] when there is
    no such tag.  The content is the one-space join of the stripped,
    non-empty strings of the whole document that lie outside [script] and
    [style] tags: it has no blank at either end and does not depend on
    what those tags hold; blanks inside one string are kept as they are.
    When the parser raises on the page, nothing is appended or archived,
    the error is logged and [None] is returned. *)
Theorem scrape_website_record (P : parsers) (E : env) (url : string)
        (w : world) (r : response) :
  fetched E w url r ->
  store_accepts E (2 + moment w) ->
  let out := run E (scrape_website P url) w in
  let w' := snd out in
  match html_parser P (body r) with
  | inr soup =>
      let record := web_record url soup (now E (1 + moment w)) in
      let row := Store.new_row web_columns record
                               (List.length (Store.web_data (db w))) in
      inserts w' = inserts w ++ [("web_data", record, true)]
      /\ Store.web_data (db w') = Store.web_data (db w) ++ [row]
      /\ Store.api_data (db w') = Store.api_data (db w)
      /\ Store.news_articles (db w') = Store.news_articles (db w)
      /\ (forall t, Soup.find "title" soup = Some t ->
                    Store.get "title" row
                    = Some (Store.cell_of (Soup.get_string t)))
      /\ (Soup.find "title" soup = None ->
          Store.get "title" row = Some (Store.Txt "No title"))
      /\ Store.get "content" row
         = Some (Store.Txt
                   (PyStr.join " " (flat_map (Soup.piece true) (outside cut soup))))
      /\ trimmed (page_text soup)
      /\ (forall soup', blank cut soup' = blank cut soup ->
                        page_text soup' = page_text soup)
  | inl e =>
      fst out = Returned None
      /\ inserts w' = inserts w
      /\ db w' = db w
      /\ files w' = files w
      /\ log w' = log w ++ [(ERROR, "Error scraping " +++ url +++ ": " +++ str e)]
  end.
Proof.
  intros [Hnet Hstatus] [Hc Hs] out w'.
  destruct (html_parser P (body r)) as [e | soup] eqn:Hparse.
  { subst w' out.
    unfold scrape_website, requests_get, raise_for_status. simpl.
    rewrite Hnet. simpl. rewrite Hstatus. simpl. rewrite Hparse. simpl.
    autorewrite with world. simpl. rewrite ?app_nil_r.
    repeat split; reflexivity. }
  intros record row.
  remember (run E (scrape_website P url) w) as rw eqn:Hrun.
  unfold scrape_website, requests_get, raise_for_status in Hrun. simpl in Hrun.
  rewrite Hnet in Hrun. simpl in Hrun. rewrite Hstatus in Hrun. simpl in Hrun.
  rewrite Hparse in Hrun. simpl in Hrun.
  autorewrite with world in Hrun. simpl in Hc, Hs.
  rewrite Hc, Hs in Hrun. simpl in Hrun.
  assert (Hrow : Store.get "content" row = Some (Store.Txt (page_text soup)))
    by reflexivity.
  rewrite page_text_outside in Hrow.
  assert (Htitle : Store.get "title" row = Some (Store.cell_of (page_title soup)))
    by reflexivity.
  unfold page_title in Htitle.
  assert (Hsome : forall t, Soup.find "title" soup = Some t ->
                            Store.get "title" row
                            = Some (Store.cell_of (Soup.get_string t)))
    by (intros t Ht; rewrite Ht in Htitle; exact Htitle).
  assert (Hnone : Soup.find "title" soup = None ->
                  Store.get "title" row = Some (Store.Txt "No title"))
    by (intros Ht; rewrite Ht in Htitle; exact Htitle).
  pose proof (page_text_trimmed soup) as Htrim.
  pose proof (fun soup' => page_text_blank soup soup') as Hblank.
  destruct (open_fault E _) in Hrun; simpl in Hrun; subst rw out w'; simpl snd;
    autorewrite with world; simpl inserts_of; rewrite ?app_nil_r;
    repeat match goal with |- _ /\ _ => split end; auto.
Qed.

Lemma scrape_website_record_witness :
  (let E := Sample.serving Sample.page_body in
   let w' := snd (run E (scrape_website Sample.P "http://x") Sample.fresh) in
   Store.web_data (db w')
   = [Store.new_row web_columns
        (web_record "http://x" Sample.page_tree Sample.noon) 0])
  /\ (let E := Sample.serving Sample.marked_section in
      let out := run E (scrape_website Sample.P "http://x") Sample.fresh in
      fst out = Returned None /\ db (snd out) = db Sample.fresh).
Proof.
  split.
  - intros E w'.
    pose proof (scrape_website_record Sample.P E "http://x" Sample.fresh
                  (mk_response 200 "OK" Sample.page_body)
                  (conj eq_refl eq_refl) (conj eq_refl eq_refl)) as H.
    exact (proj1 (proj2 H)).
  - intros E out.
    pose proof (scrape_website_record Sample.P E "http://x" Sample.fresh
                  (mk_response 200 "OK" Sample.marked_section)
                  (conj eq_refl eq_refl) (conj eq_refl eq_refl)) as H.
    exact (conj (proj1 H) (proj1 (proj2 (proj2 H)))).
Defined.

(** C4 as stated fails: a page fetched with status 200 whose paragraph
    reads [a  b] gets the content [T a  b], which keeps the two spaces and
    so is not whitespace-normalized. *)
Lemma scrape_website_keeps_inner_blanks :
  let E := Sample.serving Sample.page_body in
  let w' := snd (run E (scrape_website Sample.P "http://x") Sample.fresh) in
  fetched E Sample.fresh "http://x" (mk_response 200 "OK" Sample.page_body)
  /\ exists row,
       Store.web_data (db w') = [row]
       /\ Store.get "content" row = Some (Store.Txt "T a  b")
       /\ whitespace_normalized "T a  b" = false.
Proof.
  split; [split; reflexivity |].
  eexists. split; [reflexivity |]. split; reflexivity.
Qed.

(** ** Archive failures *)



(** ** Constant columns *)

(** What an accepted insert does, table by table. *)
Lemma insert_accepted (t : string) (d : pydict) (s s' : Store.db) :
  Store.insert t d s = inr s' ->
  (t = "web_data"
   /\ s' = Store.mk_db
             (Store.web_data s
              ++ [Store.new_row web_columns d (List.length (Store.web_data s))])
             (Store.api_data s) (Store.news_articles s))
  \/ (t = "api_data"
      /\ s' = Store.mk_db
                (Store.web_data s)
                (Store.api_data s
                 ++ [Store.new_row api_columns d (List.length (Store.api_data s))])
                (Store.news_articles s))
  \/ (t = "news_articles"
      /\ s' = Store.mk_db
                (Store.web_data s) (Store.api_data s)
                (Store.news_articles s
                 ++ [Store.new_row news_columns d
                                   (List.length (Store.news_articles s))])).
Proof.
  unfold Store.insert, Store.columns, Store.rows, Store.set_rows.
  destruct d as [| kv d]; [discriminate |].
  destruct (String.eqb t "web_data") eqn:Hw.
  { apply String.eqb_eq in Hw. subst t.
    destruct (List.find _ _); [discriminate |]. intro H; injection H as <-.
    left. split; reflexivity. }
  destruct (String.eqb t "api_data") eqn:Ha.
  { apply String.eqb_eq in Ha. subst t.
    destruct (List.find _ _); [discriminate |]. intro H; injection H as <-.
    right; left. split; reflexivity. }
  destruct (String.eqb t "news_articles") eqn:Hn.
  { apply String.eqb_eq in Hn. subst t.
    destruct (List.find _ _); [discriminate |]. intro H; injection H as <-.
    right; right. split; reflexivity. }
  discriminate.
Qed.

Section Stamped.

Variables table column value : string.
Variable tbl : Store.db -> list Store.row.
Variable cols : list string.

Hypothesis tbl_insert :
  forall t d s s',
    Store.insert t d s = inr s' ->
    tbl s' = tbl s ++ (if String.eqb t table
                       then [Store.new_row cols d (List.length (tbl s))]
                       else []).
Hypothesis col_get :
  forall d n,
    dict_get column d = Some (Some value) ->
    Store.get column (Store.new_row cols d n) = Some (Store.Txt value).

Lemma grows_refl (w : world) : grows_by column value tbl w w.
Proof. exists []. rewrite app_nil_r. split; [reflexivity | constructor]. Qed.

Lemma stamps_keeps (E : env) (w0 : world) {X : Type} (e : eff X) (w : world) :
  stamps table column value X e ->
  grows_by column value tbl w0 w ->
  grows_by column value tbl w0 (snd (perform E e w)).
Proof.
  intros He (new & Hnew & Htag).
  destruct e; simpl in *;
    try (exists new; split; assumption).
  - destruct (connect_fault E (moment w));
      [exists new; split; assumption |].
    destruct (statement_fault E (moment w));
      [exists new; split; assumption |].
    destruct (Store.insert table0 data (db w)) as [msg | s'] eqn:Hins;
      [exists new; split; assumption |].
    unfold grows_by. simpl. autorewrite with world.
    rewrite (tbl_insert _ _ _ _ Hins), Hnew.
    destruct (String.eqb table0 table).
    + exists (new ++ [Store.new_row cols data (List.length (tbl (db w0) ++ new))]).
      rewrite app_assoc. split; [reflexivity |].
      apply Forall_app. split; [assumption |].
      constructor; [| constructor]. apply col_get. exact He.
    + exists new. rewrite app_nil_r. split; [reflexivity | assumption].
  - destruct (open_fault E (moment w)); simpl; exists new; split; assumption.
  - destruct (open_fault E (moment w)); simpl; exists new; split; assumption.
  - destruct (connect_fault E (moment w)); [| destruct (statement_fault E (moment w))];
      simpl; exists new; split; assumption.
Qed.

Lemma stamps_run (E : env) {A : Type} (p : prog A) (w : world) :
  every (stamps table column value) p ->
  grows_by column value tbl w (snd (run E p w)).
Proof.
  intro Hp.
  apply (@every_run E (stamps table column value) (grows_by column value tbl w)
                    (@stamps_keeps E w) A p w Hp (grows_refl w)).
Qed.

Lemma stamps_collect_all (P : parsers) (E : env) (S : sources)
      (max_workers : Z) (sched : list nat) (w : world) :
  Forall (every (stamps table column value) (A:=unit)) (work_items P S) ->
  grows_by column value tbl w (snd (collect_all_from P E S max_workers sched w)).
Proof.
  intro Hitems.
  apply (@collect_all_every E (stamps table column value)
                            (grows_by column value tbl w)
                            (@stamps_keeps E w) P S max_workers sched w Hitems).
  - unfold starting. by_every.
  - intro t. unfold finishing. by_every.
  - apply grows_refl.
Qed.

End Stamped.

Arguments stamps : simpl never.

Ltac by_stamps :=
  repeat first
    [ exact I
    | progress simpl
    | progress intros
    | progress unfold of_sum, raise_for_status, submit
    | match goal with
      | |- every _ (for_each _ _) => apply every_for_each
      | |- every _ (bind (for_each _ _) _) => apply every_bind
      | |- every _ (bind (if _ then _ else _) _) => apply every_bind
      | |- every _ (catch _ _) => apply every_catch
      | |- _ /\ _ => split
      end
    | split_match ];
  auto.

Section Stamps.

Variable P : parsers.
Variables table column value : string.

(** The three inserts the collector writes carry the value, or go to
    another table. *)
Hypothesis web_ok :
  forall url soup t,
    stamps table column value _ (Insert "web_data" (web_record url soup t)).
Hypothesis api_ok :
  forall url data t,
    stamps table column value _ (Insert "api_data" (api_record url data t)).
Hypothesis news_ok :
  forall url item t,
    stamps table column value _ (Insert "news_articles" (news_record url item t)).

Lemma scrape_website_stamps (url : string) :
  every (stamps table column value) (scrape_website P url).
Proof. unfold scrape_website. by_stamps. Qed.

Lemma fetch_from_api_stamps (url : string) :
  every (stamps table column value) (fetch_from_api P url).
Proof. unfold fetch_from_api. by_stamps. Qed.

Lemma parse_rss_feed_stamps (url : string) :
  every (stamps table column value) (parse_rss_feed P url).
Proof. unfold parse_rss_feed. by_stamps. Qed.

Lemma collect_news_from_stamps (l : list string) :
  every (stamps table column value) (collect_news_from P l).
Proof.
  apply every_for_each. intro u. apply every_catch; [| by_stamps].
  destruct (PyStr.contains "rss" u).
  - apply parse_rss_feed_stamps.
  - apply every_bind; [apply fetch_from_api_stamps | by_stamps].
Qed.

Lemma collect_datasets_from_stamps (l : list string) :
  every (stamps table column value) (collect_datasets_from P l).
Proof.
  apply every_for_each. intro u. apply every_catch; [| by_stamps].
  apply every_bind; [apply scrape_website_stamps | by_stamps].
Qed.

Lemma collect_government_from_stamps (l : list string) :
  every (stamps table column value) (collect_government_from P l).
Proof.
  apply every_for_each. intro u. apply every_catch; [| by_stamps].
  apply every_bind; [apply scrape_website_stamps | by_stamps].
Qed.

Lemma work_items_stamps (S : sources) :
  Forall (every (stamps table column value) (A:=unit)) (work_items P S).
Proof.
  unfold work_items.
  apply Forall_app; split; [| apply Forall_app; split].
  - apply Forall_forall. intros t Ht. apply in_map_iff in Ht.
    destruct Ht as (u & <- & _).
    apply every_bind; [apply scrape_website_stamps | by_stamps].
  - apply Forall_forall. intros t Ht. apply in_map_iff in Ht.
    destruct Ht as (u & <- & _).
    apply every_bind; [apply fetch_from_api_stamps | by_stamps].
  - repeat constructor.
    + apply collect_news_from_stamps.
    + apply collect_datasets_from_stamps.
    + apply collect_government_from_stamps.
Qed.

End Stamps.

Lemma web_data_insert (t : string) (d : pydict) (s s' : Store.db) :
  Store.insert t d s = inr s' ->
  Store.web_data s'
  = Store.web_data s
    ++ (if String.eqb t "web_data"
        then [Store.new_row web_columns d (List.length (Store.web_data s))]
        else []).
Proof.
  intro H.
  destruct (insert_accepted t d s s' H) as [[-> ->] | [[-> ->] | [-> ->]]];
    simpl; rewrite ?app_nil_r; reflexivity.
Qed.

Lemma news_articles_insert (t : string) (d : pydict) (s s' : Store.db) :
  Store.insert t d s = inr s' ->
  Store.news_articles s'
  = Store.news_articles s
    ++ (if String.eqb t "news_articles"
        then [Store.new_row news_columns d (List.length (Store.news_articles s))]
        else []).
Proof.
  intro H.
  destruct (insert_accepted t d s s' H) as [[-> ->] | [[-> ->] | [-> ->]]];
    simpl; rewrite ?app_nil_r; reflexivity.
Qed.

Lemma source_of_new_row (d : pydict) (n : nat) :
  dict_get "source" d = Some (Some "web_scraping") ->
  Store.get "source" (Store.new_row web_columns d n)
  = Some (Store.Txt "web_scraping").
Proof.
  intro H. unfold Store.get, Store.new_row, Store.field. simpl. rewrite H.
  reflexivity.
Qed.

Lemma authors_of_new_row (d : pydict) (n : nat) :
  dict_get "authors" d = Some (Some EmptyString) ->
  Store.get "authors" (Store.new_row news_columns d n)
  = Some (Store.Txt EmptyString).
Proof.
  intro H. unfold Store.get, Store.new_row, Store.field. simpl. rewrite H.
  reflexivity.
Qed.

(** C9.  Every row [scrape_website] adds to [web_data] has the source
    [web_scraping], whatever the URL; so have the rows added by the loops
    over public datasets and over government sources, and by a whole run
    under any schedule.  The source column therefore says nothing of the
    group a page came from. *)
Theorem web_rows_source_is_constant (P : parsers) (E : env) :
  let from_scraping r := Store.get "source" r = Some (Store.Txt "web_scraping") in
  let adds w w' :=
    exists new,
      Store.web_data (db w') = Store.web_data (db w) ++ new
      /\ Forall from_scraping new in
  (forall url w, adds w (snd (run E (scrape_website P url) w)))
  /\ (forall urls w, adds w (snd (run E (collect_datasets_from P urls) w)))
  /\ (forall urls w, adds w (snd (run E (collect_government_from P urls) w)))
  /\ (forall S max_workers sched w,
         adds w (snd (collect_all_from P E S max_workers sched w))).
Proof.
  intros from_scraping adds.
  assert (Hrun : forall (A : Type) (p : prog A) w,
             every (stamps "web_data" "source" "web_scraping") p ->
             adds w (snd (run E p w))).
  { intros A p w Hp.
    exact (stamps_run "web_data" "source" "web_scraping" Store.web_data
                      web_columns web_data_insert source_of_new_row E p w Hp). }
  repeat split.
  - intros url w. apply Hrun. apply scrape_website_stamps; reflexivity.
  - intros urls w. apply Hrun. apply collect_datasets_from_stamps; reflexivity.
  - intros urls w. apply Hrun. apply collect_government_from_stamps; reflexivity.
  - intros S max_workers sched w.
    apply (stamps_collect_all "web_data" "source" "web_scraping" Store.web_data
                              web_columns web_data_insert source_of_new_row).
    apply work_items_stamps; reflexivity.
Qed.

(** C10.  Every row [parse_rss_feed] adds to [news_articles] has empty
    authors, whatever the feed holds; so have the rows added by the news
    loop and by a whole run under any schedule. *)
Theorem news_rows_have_no_authors (P : parsers) (E : env) :
  let anonymous r := Store.get "authors" r = Some (Store.Txt EmptyString) in
  let adds w w' :=
    exists new,
      Store.news_articles (db w') = Store.news_articles (db w) ++ new
      /\ Forall anonymous new in
  (forall feed_url w, adds w (snd (run E (parse_rss_feed P feed_url) w)))
  /\ (forall feeds w, adds w (snd (run E (collect_news_from P feeds) w)))
  /\ (forall S max_workers sched w,
         adds w (snd (collect_all_from P E S max_workers sched w))).
Proof.
  intros anonymous adds.
  assert (Hrun : forall (A : Type) (p : prog A) w,
             every (stamps "news_articles" "authors" EmptyString) p ->
             adds w (snd (run E p w))).
  { intros A p w Hp.
    exact (stamps_run "news_articles" "authors" EmptyString Store.news_articles
                      news_columns news_articles_insert authors_of_new_row
                      E p w Hp). }
  repeat split.
  - intros url w. apply Hrun. apply parse_rss_feed_stamps; reflexivity.
  - intros urls w. apply Hrun. apply collect_news_from_stamps; reflexivity.
  - intros S max_workers sched w.
    apply (stamps_collect_all "news_articles" "authors" EmptyString
                              Store.news_articles news_columns
                              news_articles_insert authors_of_new_row).
    apply work_items_stamps; reflexivity.
Qed.

(** ** Feeds *)

Lemma run_requests_get (E : env) (url : string) (w : world) (r : response) :
  net E (moment w) url = inr r ->
  run E (requests_get url) w = (Returned r, emit (EGet url) w).
Proof. intro H. unfold requests_get. simpl. rewrite H. reflexivity. Qed.

Lemma run_status_ok (E : env) (url : string) (r : response) (w : world) :
  status_error url r = None ->
  run E (raise_for_status url r) w = (Returned tt, w).
Proof. intro H. unfold raise_for_status. rewrite H. reflexivity. Qed.

Lemma save_item_run (E : env) (feed_url : string) (item : Soup.node) (w : world) :
  (forall t, store_accepts E t) ->
  let out := run E (save_item feed_url item) w in
  fst out = Returned tt
  /\ Store.news_articles (db (snd out))
     = Store.news_articles (db w)
       ++ [Store.new_row news_columns (news_record feed_url item (now E (moment w)))
                         (List.length (Store.news_articles (db w)))]
  /\ Store.web_data (db (snd out)) = Store.web_data (db w)
  /\ Store.api_data (db (snd out)) = Store.api_data (db w)
  /\ files (snd out) = files w
  /\ log (snd out) = log w ++ [saved_news]
  /\ moment (snd out) = 3 + moment w.
Proof.
  intros Hok out. subst out. unfold save_item, save_to_database. simpl.
  autorewrite with world.
  destruct (Hok (S (moment w))) as [-> ->]. simpl.
  autorewrite with world. simpl. rewrite !app_nil_r.
  repeat split; reflexivity.
Qed.

Lemma news_loop_run (E : env) (feed_url : string) (items : list Soup.node) :
  (forall t, store_accepts E t) ->
  forall w,
    let out := run E (for_each items (save_item feed_url)) w in
    fst out = Returned tt
    /\ Store.news_articles (db (snd out))
       = Store.news_articles (db w)
         ++ news_rows E feed_url items (moment w)
                      (List.length (Store.news_articles (db w)))
    /\ Store.web_data (db (snd out)) = Store.web_data (db w)
    /\ Store.api_data (db (snd out)) = Store.api_data (db w)
    /\ files (snd out) = files w
    /\ log (snd out) = log w ++ repeat saved_news (List.length items)
    /\ moment (snd out) = 3 * List.length items + moment w.
Proof.
  intro Hok. induction items as [| item rest IH]; intros w out; subst out.
  - simpl. rewrite !app_nil_r. repeat split; reflexivity.
  - change (for_each (item :: rest) (save_item feed_url))
      with (bind (save_item feed_url item)
                 (fun _ => for_each rest (save_item feed_url))).
    rewrite run_bind.
    destruct (save_item_run E feed_url item w Hok)
      as (Hr & Hn & Hw & Ha & Hf & Hl & Hm).
    destruct (run E (save_item feed_url item) w) as [res w1].
    simpl in Hr, Hn, Hw, Ha, Hf, Hl, Hm. subst res.
    destruct (IH w1) as (Hr' & Hn' & Hw' & Ha' & Hf' & Hl' & Hm').
    repeat split.
    + exact Hr'.
    + rewrite Hn', Hn, Hm, length_app, <- app_assoc. simpl.
      rewrite Nat.add_1_r. reflexivity.
    + congruence.
    + congruence.
    + congruence.
    + rewrite Hl', Hl, <- app_assoc. reflexivity.
    + rewrite Hm', Hm. simpl. lia.
Qed.

Lemma news_rows_length (E : env) (feed_url : string) (items : list Soup.node)
      (m n : nat) :
  List.length (news_rows E feed_url items m n) = List.length items.
Proof.
  revert m n; induction items as [| item rest IH]; intros m n; simpl; auto.
Qed.

Lemma news_rows_render (E : env) (feed_url : string) (items : list Soup.node)
      (m n : nat) :
  Forall2 (renders feed_url) items (news_rows E feed_url items m n).
Proof.
  revert m n; induction items as [| item rest IH]; intros m n; simpl;
    constructor; auto.
  repeat split; reflexivity.
Qed.

(** C5.  After a successful fetch of a feed that parses, with a store
    that accepts every insert, [parse_rss_feed] adds exactly one
    [news_articles] row per [item] tag, in order, each with the item's
    title, description, date and link, [No title] standing for a missing
    title and the empty text for the other three; it returns normally and
    logs its success.  With no [item] the store is unchanged and the
    outcome is the same success. *)
Theorem parse_rss_feed_one_row_per_item (P : parsers) (E : env)
        (feed_url : string) (w : world) (r : response) (soup : Soup.node) :
  fetched E w feed_url r ->
  xml_parser P (body r) = inr soup ->
  (forall t, store_accepts E t) ->
  let out := run E (parse_rss_feed P feed_url) w in
  let items := Soup.find_all ["item"] soup in
  fst out = Returned tt
  /\ (exists new,
         Store.news_articles (db (snd out)) = Store.news_articles (db w) ++ new
         /\ List.length new = List.length items
         /\ Forall2 (renders feed_url) items new)
  /\ Store.web_data (db (snd out)) = Store.web_data (db w)
  /\ Store.api_data (db (snd out)) = Store.api_data (db w)
  /\ log (snd out)
     = log w ++ repeat saved_news (List.length items)
       ++ [(INFO, "Successfully parsed RSS feed from " +++ feed_url)]
  /\ (items = [] -> db (snd out) = db w).
Proof.
  intros [Hnet Hstatus] Hxml Hok out items.
  assert (Hloop : parse_rss_feed P feed_url
                  = catch
                      (bind (requests_get feed_url)
                         (fun response =>
                            bind (raise_for_status feed_url response)
                              (fun _ =>
                                 bind (of_sum (xml_parser P (body response)))
                                   (fun soup =>
                                      bind (for_each (Soup.find_all ["item"] soup)
                                                     (save_item feed_url))
                                        (fun _ => logger_info
                                           ("Successfully parsed RSS feed from "
                                            +++ feed_url))))))
                      (fun e => logger_error
                                  ("Error parsing RSS feed " +++ feed_url
                                   +++ ": " +++ str e)))
    by reflexivity.
  subst out. rewrite Hloop. clear Hloop.
  rewrite run_catch, run_bind, (run_requests_get E feed_url w r Hnet).
  cbv beta iota.
  rewrite run_bind, (run_status_ok E feed_url r _ Hstatus). cbv beta iota.
  rewrite run_bind, Hxml. cbn [of_sum run]. cbv beta iota.
  fold items. rewrite run_bind.
  destruct (news_loop_run E feed_url items Hok (emit (EGet feed_url) w))
    as (Hr & Hn & Hw & Ha & Hf & Hl & Hm).
  destruct (run E (for_each items (save_item feed_url)) (emit (EGet feed_url) w))
    as [res w1]. simpl in Hr, Hn, Hw, Ha, Hf, Hl, Hm. subst res.
  simpl. autorewrite with world in *. simpl in Hl. rewrite app_nil_r in Hl.
  split; [reflexivity |]. split; [| split; [| split; [| split]]].
  - exists (news_rows E feed_url items (S (moment w))
                      (List.length (Store.news_articles (db w)))).
    split; [exact Hn |]. split; [apply news_rows_length | apply news_rows_render].
  - exact Hw.
  - exact Ha.
  - rewrite Hl. simpl. rewrite <- app_assoc. reflexivity.
  - intro Hnil. rewrite Hnil in Hn. simpl in Hn. rewrite app_nil_r in Hn.
    destruct (db w1), (db w). simpl in *. congruence.
Qed.

Lemma parse_rss_feed_one_row_per_item_witness :
  let E := Sample.serving Sample.feed_body in
  let out := run E (parse_rss_feed Sample.P "http://x/rss") Sample.fresh in
  fst out = Returned tt
  /\ (exists new,
         Store.news_articles (db (snd out)) = [] ++ new
         /\ List.length new = 2
         /\ Forall2 (renders "http://x/rss")
                    (Soup.find_all ["item"] Sample.feed_tree) new).
Proof.
  destruct (parse_rss_feed_one_row_per_item
              Sample.P (Sample.serving Sample.feed_body) "http://x/rss"
              Sample.fresh (mk_response 200 "OK" Sample.feed_body)
              Sample.feed_tree
              (conj eq_refl eq_refl) eq_refl (fun _ => conj eq_refl eq_refl))
    as (H1 & H2 & _).
  split; [exact H1 | exact H2].
Defined.

(** ** The report *)

Arguments Z.of_nat : simpl never.
Arguments Z.sub : simpl never.

Lemma write_length (name : string) (doc : Json.value) (d : Archive.dir) :
  List.length (Archive.write name doc d)
  = List.length d + (if has_file name d then 0 else 1).
Proof.
  unfold has_file. induction d as [| [n old] d IH]; simpl; [reflexivity |].
  rewrite (String.eqb_sym name n).
  destruct (String.eqb n name); simpl; [lia |]. rewrite IH. lia.
Qed.

Lemma write_has_file (name : string) (doc : Json.value) (d : Archive.dir) :
  has_file name (Archive.write name doc d) = true.
Proof.
  unfold has_file. induction d as [| [n old] d IH]; simpl.
  - rewrite String.eqb_refl. reflexivity.
  - destruct (String.eqb n name) eqn:Hn; simpl.
    + rewrite (String.eqb_sym name n), Hn. reflexivity.
    + rewrite IH. apply orb_true_r.
Qed.

(** What a report that came out says, and what writing it changed. *)
Lemma generate_summary_report_returns (E : env) (w w' : world) (r : report) :
  run E generate_summary_report w = (Returned r, w') ->
  web_scraping r = List.length (Store.web_data (db w))
  /\ api_data r = List.length (Store.api_data (db w))
  /\ news_articles r = List.length (Store.news_articles (db w))
  /\ file_count r = Z.of_nat (List.length (files w))
  /\ db w' = db w
  /\ files w' = Archive.write report_file (json_of_report r) (files w)
  /\ inserts w' = inserts w.
Proof.
  unfold generate_summary_report, count_table_records, of_sum, json_dump_to.
  simpl. autorewrite with world.
  destruct (connect_fault E (S (moment w))); [discriminate |]. simpl.
  autorewrite with world.
  destruct (connect_fault E (S (S (moment w)))); [discriminate |]. simpl.
  autorewrite with world.
  destruct (connect_fault E (S (S (S (moment w))))); [discriminate |]. simpl.
  autorewrite with world.
  destruct (open_fault E _); [discriminate |]. simpl.
  intro H. injection H as <- <-. simpl. autorewrite with world. simpl.
  rewrite ?app_nil_r.
  repeat split; try reflexivity.
  unfold Archive.listdir. cbn [List.length]. rewrite length_map. lia.
Qed.

(** C8, as amended.  Two reports in a row over a store nobody appended to
    give the same three row counts.  The file count is the same only if the
    report file was already there before the first of them; otherwise the
    second report counts one file more, the report the first one wrote. *)
Theorem report_twice (E : env) (w w1 w2 : world) (r1 r2 : report) :
  run E generate_summary_report w = (Returned r1, w1) ->
  run E generate_summary_report w1 = (Returned r2, w2) ->
  web_scraping r2 = web_scraping r1
  /\ api_data r2 = api_data r1
  /\ news_articles r2 = news_articles r1
  /\ inserts w2 = inserts w
  /\ db w2 = db w
  /\ file_count r2
     = (file_count r1 + (if has_file report_file (files w) then 0 else 1))%Z.
Proof.
  intros H1 H2.
  destruct (generate_summary_report_returns E w w1 r1 H1)
    as (Hw1 & Ha1 & Hn1 & Hc1 & Hd1 & Hf1 & Hi1).
  destruct (generate_summary_report_returns E w1 w2 r2 H2)
    as (Hw2 & Ha2 & Hn2 & Hc2 & Hd2 & Hf2 & Hi2).
  rewrite Hd1 in Hw2, Ha2, Hn2.
  repeat split; try congruence.
  rewrite Hc2, Hc1, Hf1, write_length.
  destruct (has_file report_file (files w)); lia.
Qed.

Lemma report_twice_witness :
  let E := Sample.serving "" in
  let first := run E generate_summary_report Sample.fresh in
  let second := run E generate_summary_report (snd first) in
  exists r1 r2,
    fst first = Returned r1 /\ fst second = Returned r2
    /\ web_scraping r2 = web_scraping r1
    /\ api_data r2 = api_data r1
    /\ news_articles r2 = news_articles r1.
Proof.
  intros E first second.
  destruct first as [res1 w1] eqn:H1. destruct second as [res2 w2] eqn:H2.
  destruct res1 as [r1 | e1]; [| discriminate H1].
  destruct res2 as [r2 | e2]; [| discriminate H2].
  exists r1, r2. split; [reflexivity |]. split; [reflexivity |].
  destruct (report_twice E Sample.fresh w1 w2 r1 r2 H1 H2) as (A & B & C & _).
  auto.
Defined.

(** C8 as stated fails: on a fresh collector, with no append in between,
    the first report counts 0 files and the second counts 1. *)
Lemma report_twice_differs :
  let E := Sample.serving "" in
  let first := run E generate_summary_report Sample.fresh in
  let second := run E generate_summary_report (snd first) in
  exists r1 r2,
    fst first = Returned r1 /\ fst second = Returned r2
    /\ inserts (snd first) = [] /\ db (snd first) = db Sample.fresh
    /\ file_count r1 = 0%Z /\ file_count r2 = 1%Z.
Proof.
  eexists. eexists. split; [reflexivity |]. split; [reflexivity |].
  repeat split; reflexivity.
Qed.

(* ================================================================== *)
(** * Failures and endings *)

(** ** Failures stay inside their job *)

Lemma unfailing_run (E : env) {A : Type} (p : prog A) (w : world) :
  unfailing p -> exists a, fst (run E p w) = Returned a.
Proof.
  apply (returns_run string any_answer url_of E requests (requests_performed E)).
Qed.

(** X1.  No job method and no collection loop lets an exception out, whatever
    the network, the parsers, the database and the file system do. *)
Theorem jobs_never_raise (P : parsers) (E : env) (w : world) :
  (forall url, exists r, fst (run E (scrape_website P url) w) = Returned r)
  /\ (forall url, exists r, fst (run E (fetch_from_api P url) w) = Returned r)
  /\ (forall url, exists r, fst (run E (parse_rss_feed P url) w) = Returned r)
  /\ (forall l, exists r, fst (run E (collect_news_from P l) w) = Returned r)
  /\ (forall l, exists r, fst (run E (collect_datasets_from P l) w) = Returned r)
  /\ (forall l, exists r, fst (run E (collect_government_from P l) w) = Returned r).
Proof.
  repeat split; intro x; apply unfailing_run.
  - apply scrape_website_unfailing.
  - apply fetch_from_api_unfailing.
  - apply parse_rss_feed_unfailing.
  - apply collect_news_from_fetches.
  - apply collect_datasets_from_fetches.
  - apply collect_government_from_fetches.
Qed.

(** X2.  A request that fails, in transit or by its status, ends the job there:
    one error line naming the URL and the cause, nothing appended, nothing
    archived. *)
Theorem failed_fetch_appends_nothing (P : parsers) (E : env) (url : string)
        (w : world) (e : exn) :
  fetch_fails E w url e ->
  let quiet (A : Type) (out : result A * world) (line : string) :=
    db (snd out) = db w
    /\ files (snd out) = files w
    /\ inserts (snd out) = inserts w
    /\ log (snd out) = log w ++ [(ERROR, line +++ url +++ ": " +++ str e)] in
  (fst (run E (scrape_website P url) w) = Returned None
   /\ quiet _ (run E (scrape_website P url) w) "Error scraping ")
  /\ (fst (run E (fetch_from_api P url) w) = Returned None
      /\ quiet _ (run E (fetch_from_api P url) w) "Error fetching from API ")
  /\ (fst (run E (parse_rss_feed P url) w) = Returned tt
      /\ quiet _ (run E (parse_rss_feed P url) w) "Error parsing RSS feed ").
Proof.
  intros Hfail quiet. subst quiet.
  unfold scrape_website, fetch_from_api, parse_rss_feed, requests_get,
    raise_for_status.
  destruct Hfail as [Hnet | (r & Hnet & Hstatus)]; simpl; rewrite Hnet; simpl;
    rewrite ?Hstatus; simpl; autorewrite with world; simpl;
    rewrite ?app_nil_r; repeat split; reflexivity.
Qed.

Lemma failed_fetch_appends_nothing_witness :
  let E := mk_env (fun _ _ => inr (mk_response 404 "Not Found" EmptyString))
                  (fun _ => Sample.noon) (fun t => t)
                  (fun _ => None) (fun _ => None) (fun _ => None)
                  (fun _ => "0.00 MB") in
  let out := run E (scrape_website Sample.P "http://x") Sample.fresh in
  fst out = Returned None
  /\ db (snd out) = db Sample.fresh
  /\ files (snd out) = []
  /\ inserts (snd out) = []
  /\ log (snd out)
     = [(ERROR, "Error scraping http://x: 404 Client Error: Not Found for url: http://x")].
Proof.
  intros E out.
  apply (proj1 (failed_fetch_appends_nothing Sample.P E "http://x" Sample.fresh
                  (mk_exn HTTPError "404 Client Error: Not Found for url: http://x")
                  (or_intror (ex_intro _ (mk_response 404 "Not Found" EmptyString)
                                       (conj eq_refl eq_refl))))).
Defined.

(** ** The pool always drains *)

Lemma set_nth_length {A : Type} (i : nat) (a : A) (l : list A) :
  List.length (set_nth i a l) = List.length l.
Proof.
  revert i; induction l as [| x l IH]; intros [| i]; simpl; auto.
Qed.

Lemma pool_step_workers (E : env) (i : nat) (p : pool) (w : world) :
  List.length (workers (fst (pool_step E i (p, w)))) = List.length (workers p).
Proof.
  unfold pool_step.
  destruct (nth_error (workers p) i) as [[[a | x | X e k] |] |]; simpl;
    try reflexivity.
  - apply set_nth_length.
  - apply set_nth_length.
  - destruct (perform E e w). simpl. apply set_nth_length.
  - destruct (queue p); simpl; [reflexivity | apply set_nth_length].
Qed.

Lemma pool_run_workers (E : env) (sched : list nat) (p : pool) (w : world) :
  List.length (workers (fst (pool_run E sched (p, w)))) = List.length (workers p).
Proof.
  revert p w; induction sched as [| i sched IH]; intros p w; [reflexivity |].
  change (pool_run E (i :: sched) (p, w))
    with (pool_run E sched (pool_step E i (p, w))).
  pose proof (pool_step_workers E i p w) as H.
  destruct (pool_step E i (p, w)) as [p1 w1]. simpl in H.
  rewrite IH. exact H.
Qed.

(** X3.  With at least one worker, any schedule can be continued into one that
    leaves no task queued or running, and the world it reaches is the one
    [collect_all_data] goes on from: the run returns, and only once every
    job has ended. *)
Theorem pool_always_drains (P : parsers) (E : env) (S : sources)
        (max_workers : Z) (sched : list nat) (w : world) :
  (0 < max_workers)%Z ->
  let p0 := mk_pool (work_items P S) (repeat None (Z.to_nat max_workers)) in
  exists rest,
    idle (fst (pool_run E (sched ++ rest) (p0, w)))
    /\ snd (pool_run E (sched ++ rest) (p0, w))
       = drain E (fst (pool_run E sched (p0, w))) (snd (pool_run E sched (p0, w))).
Proof.
  intros Hpos p0.
  pose proof (pool_run_workers E sched p0 w) as Hlen.
  destruct (pool_run E sched (p0, w)) as [p w1] eqn:Hrun. simpl in Hlen.
  assert (Hne : workers p <> []).
  { intro Hnil. rewrite Hnil in Hlen. unfold p0 in Hlen. simpl in Hlen.
    rewrite repeat_length in Hlen. lia. }
  destruct (drain_is_scheduled E p w1 Hne) as (rest & Hidle & Hw).
  exists rest. rewrite pool_run_app, Hrun. split; assumption.
Qed.

Lemma pool_always_drains_witness :
  exists rest,
    idle (fst (pool_run (Sample.serving "[]") ([0; 1] ++ rest)
                        (mk_pool (work_items Sample.P configured)
                                 (repeat None (Z.to_nat 2)), Sample.fresh))).
Proof.
  destruct (pool_always_drains Sample.P (Sample.serving "[]") configured 2 [0; 1]
                               Sample.fresh eq_refl) as (rest & Hidle & _).
  exists rest. exact Hidle.
Defined.

(** ** The report settles *)

(** X4.  From the second report on, the file count no longer moves: the report
    file is there and is overwritten in place. *)
Theorem report_settles (E : env) (w w1 w2 w3 : world) (r1 r2 r3 : report) :
  run E generate_summary_report w = (Returned r1, w1) ->
  run E generate_summary_report w1 = (Returned r2, w2) ->
  run E generate_summary_report w2 = (Returned r3, w3) ->
  file_count r3 = file_count r2
  /\ web_scraping r3 = web_scraping r1
  /\ api_data r3 = api_data r1
  /\ news_articles r3 = news_articles r1.
Proof.
  intros H1 H2 H3.
  destruct (generate_summary_report_returns E w w1 r1 H1)
    as (Hw1 & Ha1 & Hn1 & Hc1 & Hd1 & Hf1 & Hi1).
  destruct (generate_summary_report_returns E w1 w2 r2 H2)
    as (Hw2 & Ha2 & Hn2 & Hc2 & Hd2 & Hf2 & Hi2).
  destruct (generate_summary_report_returns E w2 w3 r3 H3)
    as (Hw3 & Ha3 & Hn3 & Hc3 & Hd3 & Hf3 & Hi3).
  rewrite Hd2, Hd1 in Hw3, Ha3, Hn3.
  repeat split; try congruence.
  rewrite Hc3, Hc2, Hf2, write_length, Hf1, write_has_file. lia.
Qed.

Lemma report_settles_witness :
  let E := Sample.serving "" in
  let first := run E generate_summary_report Sample.fresh in
  let second := run E generate_summary_report (snd first) in
  let third := run E generate_summary_report (snd second) in
  exists r2 r3,
    fst second = Returned r2 /\ fst third = Returned r3
    /\ file_count r3 = file_count r2.
Proof.
  intros E first second third.
  destruct first as [res1 w1] eqn:H1. destruct second as [res2 w2] eqn:H2.
  destruct third as [res3 w3] eqn:H3.
  destruct res1 as [r1 | e1]; [| discriminate H1].
  destruct res2 as [r2 | e2]; [| discriminate H2].
  destruct res3 as [r3 | e3]; [| discriminate H3].
  exists r2, r3. split; [reflexivity |]. split; [reflexivity |].
  apply (report_settles E Sample.fresh w1 w2 w3 r1 r2 r3 H1 H2 H3).
Defined.

(* ================================================================== *)
(** * The order of the threads *)

(** X5.  In a calm environment a run with a positive pool size adds to each
    table exactly the rows of what was served and parsed: one per page
    the HTML parser accepts, one per API body that decodes, one per item
    of each feed that parses, and none for a body whose parser raises,
    whatever the schedule; the order of the rows, their ids and their
    timestamps are all the schedule decides. *)
Theorem calm_run_stores_what_is_served (P : parsers) (E : env)
        (answer : string -> exn + response) (S : sources) (max_workers : Z)
        (sched : list nat) (w : world) (t : string) :
  calm E answer -> (0 < max_workers)%Z ->
  Permutation (content_of t (snd (collect_all_from P E S max_workers sched w)))
              (content_of t w ++ expected P answer t S).
Proof. apply collect_all_content. Qed.

Lemma calm_run_stores_what_is_served_witness :
  let E := Sample.serving Sample.feed_body in
  let answer := fun _ : string => inr (mk_response 200 "OK" Sample.feed_body) in
  let w' := snd (collect_all_data Sample.P E 2 [0; 1; 1; 0; 1] Sample.fresh) in
  List.length (expected Sample.P answer "news_articles" configured) = 6
  /\ Permutation (content_of "news_articles" w')
                 (content_of "news_articles" Sample.fresh
                  ++ expected Sample.P answer "news_articles" configured).
Proof.
  split; [reflexivity |].
  apply (calm_run_stores_what_is_served Sample.P (Sample.serving Sample.feed_body)
           (fun _ => inr (mk_response 200 "OK" Sample.feed_body)) configured 2
           [0; 1; 1; 0; 1] Sample.fresh "news_articles").
  - repeat split.
  - lia.
Defined.

(** X6.  Two runs from the same state in a calm environment, with any two
    positive pool sizes and any two schedules, leave the same rows in each
    table up to their order, ids and timestamps, and so the same counts. *)
Theorem schedule_does_not_change_the_tables (P : parsers) (E : env)
        (answer : string -> exn + response) (S : sources) (n m : Z)
        (sched sched' : list nat) (w : world) (t : string) :
  calm E answer -> (0 < n)%Z -> (0 < m)%Z ->
  let w1 := snd (collect_all_from P E S n sched w) in
  let w2 := snd (collect_all_from P E S m sched' w) in
  Permutation (content_of t w1) (content_of t w2)
  /\ Store.count t (db w1) = Store.count t (db w2).
Proof.
  intros Hcalm Hn Hm w1 w2.
  assert (H : Permutation (content_of t w1) (content_of t w2)).
  { unfold w1, w2.
    rewrite (collect_all_content P E answer S n sched w t Hcalm Hn).
    rewrite (collect_all_content P E answer S m sched' w t Hcalm Hm).
    reflexivity. }
  split; [exact H | apply count_of_content, H].
Qed.

Lemma schedule_does_not_change_the_tables_witness :
  let E := Sample.serving Sample.page_body in
  let w1 := snd (collect_all_data Sample.P E 1 [] Sample.fresh) in
  let w2 := snd (collect_all_data Sample.P E 3 [0; 1; 2; 2; 1; 0; 0; 1] Sample.fresh) in
  Permutation (content_of "web_data" w1) (content_of "web_data" w2)
  /\ Store.count "web_data" (db w1) = Store.count "web_data" (db w2).
Proof.
  apply (schedule_does_not_change_the_tables Sample.P (Sample.serving Sample.page_body)
           (fun _ => inr (mk_response 200 "OK" Sample.page_body)) configured 1 3
           [] [0; 1; 2; 2; 1; 0; 0; 1] Sample.fresh "web_data").
  - repeat split.
  - lia.
  - lia.
Defined.

(** ** The report of a run *)

Lemma read_write (name : string) (doc : Json.value) (d : Archive.dir) :
  read name (Archive.write name doc d) = Some doc.
Proof.
  unfold read. induction d as [| [n old] d IH]; simpl.
  - rewrite String.eqb_refl. reflexivity.
  - destruct (String.eqb n name) eqn:Hn; simpl; rewrite Hn; [reflexivity | exact IH].
Qed.

Lemma finishing_reports (E : env) (t0 : nat) (w w' : world) :
  run E (finishing t0) w = (Returned tt, w') ->
  exists r w0, run E generate_summary_report w0 = (Returned r, w').
Proof.
  unfold finishing. remember generate_summary_report as g eqn:Hg.
  simpl. rewrite run_bind.
  match goal with
  | |- context [run E g ?w0] => destruct (run E g w0) as [[r | e] w1] eqn:Hrun
  end; simpl; intro H; inversion H; subst.
  eexists; eexists; eassumption.
Qed.

Lemma content_length (w : world) :
  List.length (content_of "web_data" w) = List.length (Store.web_data (db w))
  /\ List.length (content_of "api_data" w) = List.length (Store.api_data (db w))
  /\ List.length (content_of "news_articles" w)
     = List.length (Store.news_articles (db w)).
Proof. unfold content_of. simpl. rewrite !length_map. repeat split. Qed.

(** X7.  The report a calm run writes tells, for each table, the rows it held
    before the run plus the rows of what was served and parsed, whatever
    the schedule. *)
Theorem report_of_a_calm_run (P : parsers) (E : env)
        (answer : string -> exn + response) (S : sources) (max_workers : Z)
        (sched : list nat) (w w' : world) :
  calm E answer -> (0 < max_workers)%Z ->
  collect_all_from P E S max_workers sched w = (Returned tt, w') ->
  exists r,
    read report_file (files w') = Some (json_of_report r)
    /\ web_scraping r = List.length (Store.web_data (db w))
                        + List.length (expected P answer "web_data" S)
    /\ api_data r = List.length (Store.api_data (db w))
                    + List.length (expected P answer "api_data" S)
    /\ news_articles r = List.length (Store.news_articles (db w))
                         + List.length (expected P answer "news_articles" S).
Proof.
  intros Hcalm Hpos Hrun.
  pose proof (fun t => Permutation_length
                (collect_all_content P E answer S max_workers sched w t Hcalm Hpos))
    as Hlen.
  rewrite Hrun in Hlen. simpl in Hlen.
  assert (Hrep : exists r w0, run E generate_summary_report w0 = (Returned r, w')).
  { unfold collect_all_from in Hrun.
    destruct (run E starting w) as [[t0 | e] w1]; [| discriminate].
    destruct (max_workers <=? 0)%Z; [discriminate |].
    destruct (pool_run E sched _) as [p w2].
    apply finishing_reports in Hrun. exact Hrun. }
  destruct Hrep as (r & w0 & Hrep).
  destruct (generate_summary_report_returns E w0 w' r Hrep)
    as (Hweb & Hapi & Hnews & _ & Hdb & Hfiles & _).
  destruct (content_length w) as (Cw & Ca & Cn).
  destruct (content_length w') as (Cw' & Ca' & Cn').
  exists r. rewrite Hfiles, Hweb, Hapi, Hnews, <- Hdb.
  rewrite <- Cw, <- Ca, <- Cn, <- Cw', <- Ca', <- Cn', <- !length_app, !Hlen.
  split; [apply read_write |]. repeat split.
Qed.

Lemma report_of_a_calm_run_witness :
  let E := Sample.serving Sample.feed_body in
  let answer := fun _ : string =>
                  @inr exn response (mk_response 200 "OK" Sample.feed_body) in
  let out := collect_all_data Sample.P E 2 [0; 1; 1; 0; 1] Sample.fresh in
  exists r,
    read report_file (files (snd out)) = Some (json_of_report r)
    /\ web_scraping r = 12 /\ api_data r = 0 /\ news_articles r = 6.
Proof.
  intros E answer out.
  destruct (report_of_a_calm_run Sample.P E answer configured 2 [0; 1; 1; 0; 1]
              Sample.fresh (snd out)) as (r & Hread & Hweb & Hapi & Hnews).
  - repeat split.
  - lia.
  - vm_compute. reflexivity.
  - exists r. split; [exact Hread |]. split; [| split].
    + rewrite Hweb. reflexivity.
    + rewrite Hapi. reflexivity.
    + rewrite Hnews. reflexivity.
Defined.

(* ================================================================== *)
(** * Faults of the database and of the parsers *)

(** ** One job *)





(** ** What a job that succeeds leaves *)



Lemma write_write (name : string) (doc doc' : Json.value) (d : Archive.dir) :
  Archive.write name doc' (Archive.write name doc d) = Archive.write name doc' d.
Proof.
  induction d as [| [n old] d IH]; simpl.
  - rewrite String.eqb_refl. reflexivity.
  - destruct (String.eqb n name) eqn:Hn; simpl; rewrite Hn; [reflexivity |].
    rewrite IH. reflexivity.
Qed.

Lemma write_again_length (name : string) (doc doc' : Json.value) (d : Archive.dir) :
  List.length (Archive.write name doc' (Archive.write name doc d))
  = List.length (Archive.write name doc d).
Proof.
  induction d as [| [n old] d IH]; simpl.
  - rewrite String.eqb_refl. reflexivity.
  - destruct (String.eqb n name) eqn:Hn; simpl; rewrite Hn; simpl; [reflexivity |].
    rewrite IH. reflexivity.
Qed.

Lemma scrape_website_succeeds (P : parsers) (E : env) (url : string) (w : world)
      (r : response) (soup : Soup.node) :
  fetched E w url r ->
  html_parser P (body r) = inr soup ->
  store_accepts E (2 + moment w) ->
  open_fault E (5 + moment w) = None ->
  let out := run E (scrape_website P url) w in
  let record := web_record url soup (now E (1 + moment w)) in
  fst out = Returned (Some record)
  /\ Store.web_data (db (snd out))
     = Store.web_data (db w)
       ++ [Store.new_row web_columns record (List.length (Store.web_data (db w)))]
  /\ files (snd out)
     = Archive.write (archived_page E w) (json_of_pydict record) (files w)
  /\ moment (snd out) = 7 + moment w.
Proof.
  intros [Hnet Hst] Hsoup [Hc Hs] Hopen out record. subst out.
  simpl in Hc, Hs, Hopen. unfold archived_page.
  unfold scrape_website, requests_get, raise_for_status. simpl.
  rewrite Hnet. simpl. rewrite Hst. simpl. rewrite Hsoup. simpl.
  autorewrite with world. rewrite Hc, Hs. simpl.
  autorewrite with world. rewrite Hopen. simpl.
  autorewrite with world. simpl.
  repeat split; reflexivity.
Qed.

(** X11.  The archive name has the clock to the second and nothing else:
    two pages scraped with success one after the other whose archive names
    fall in the same second leave two rows but one file, which holds the second
    page; the first page's copy is overwritten. *)
Theorem same_second_archives_collide (P : parsers) (E : env) (w : world)
        (url1 url2 : string) (r1 r2 : response) (soup1 soup2 : Soup.node) :
  let w1 := snd (run E (scrape_website P url1) w) in
  let w2 := snd (run E (scrape_website P url2) w1) in
  fetched E w url1 r1 -> html_parser P (body r1) = inr soup1 ->
  store_accepts E (2 + moment w) -> open_fault E (5 + moment w) = None ->
  fetched E w1 url2 r2 -> html_parser P (body r2) = inr soup2 ->
  store_accepts E (2 + moment w1) -> open_fault E (5 + moment w1) = None ->
  strftime (now E (4 + moment w1)) = strftime (now E (4 + moment w)) ->
  let record1 := web_record url1 soup1 (now E (1 + moment w)) in
  let record2 := web_record url2 soup2 (now E (1 + moment w1)) in
  let n := List.length (Store.web_data (db w)) in
  Store.web_data (db w2)
  = Store.web_data (db w)
    ++ [Store.new_row web_columns record1 n; Store.new_row web_columns record2 (S n)]
  /\ files w2 = Archive.write (archived_page E w) (json_of_pydict record2) (files w)
  /\ List.length (files w2) = List.length (files w1)
  /\ read (archived_page E w) (files w2) = Some (json_of_pydict record2).
Proof.
  intros w1 w2 F1 S1 A1 O1 F2 S2 A2 O2 Hsame record1 record2 n.
  destruct (scrape_website_succeeds P E url1 w r1 soup1 F1 S1 A1 O1)
    as (_ & D1 & L1 & M1).
  fold w1 in D1, L1, M1.
  destruct (scrape_website_succeeds P E url2 w1 r2 soup2 F2 S2 A2 O2)
    as (_ & D2 & L2 & M2).
  fold w2 in D2, L2, M2.
  assert (Hname : archived_page E w1 = archived_page E w).
  { unfold archived_page. rewrite Hsame. reflexivity. }
  rewrite Hname in L2.
  assert (Hfiles : files w2
                   = Archive.write (archived_page E w) (json_of_pydict record2)
                                   (files w)).
  { rewrite L2, L1. apply write_write. }
  split; [| split; [exact Hfiles | split]].
  - rewrite D2, D1, length_app, <- app_assoc. simpl.
    rewrite Nat.add_1_r. reflexivity.
  - rewrite L2, L1. apply write_again_length.
  - rewrite Hfiles. apply read_write.
Qed.

Lemma same_second_archives_collide_witness :
  let E := Sample.serving Sample.page_body in
  let w1 := snd (run E (scrape_website Sample.P "http://a") Sample.fresh) in
  let w2 := snd (run E (scrape_website Sample.P "http://b") w1) in
  List.length (Store.web_data (db w2)) = 2 /\ List.length (files w2) = 1.
Proof.
  intros E w1 w2.
  destruct (same_second_archives_collide Sample.P E Sample.fresh
              "http://a" "http://b"
              (mk_response 200 "OK" Sample.page_body)
              (mk_response 200 "OK" Sample.page_body)
              Sample.page_tree Sample.page_tree
              (conj eq_refl eq_refl) eq_refl (conj eq_refl eq_refl) eq_refl
              (conj eq_refl eq_refl) eq_refl (conj eq_refl eq_refl) eq_refl
              eq_refl)
    as (Hrows & _ & Hlen & _).
  fold E in Hrows, Hlen. fold w1 in Hrows, Hlen. fold w2 in Hrows, Hlen.
  split.
  - rewrite Hrows. reflexivity.
  - rewrite Hlen. reflexivity.
Defined.

(** ** Bodies that do not parse *)



(** ** Feeds *)

Lemma run_for_each_app (E : env) {A : Type} (a b : list A) (f : A -> prog unit)
      (w : world) :
  run E (for_each (a ++ b) f) w
  = match run E (for_each a f) w with
    | (Returned _, w1) => run E (for_each b f) w1
    | (Raised e, w1) => (Raised e, w1)
    end.
Proof.
  revert w; induction a as [| x a IH]; intro w; [reflexivity |].
  simpl. rewrite !run_bind.
  destruct (run E (f x) w) as [[[] | e] w1]; [apply IH | reflexivity].
Qed.

Lemma save_item_attempt (E : env) (feed_url : string) (item : Soup.node)
      (w : world) :
  connect_fault E (S (moment w)) = None ->
  let out := run E (save_item feed_url item) w in
  let attempt := news_attempts E feed_url [item] (moment w) in
  fst out = Returned tt
  /\ inserts (snd out) = inserts w ++ attempt
  /\ List.length (Store.news_articles (db (snd out)))
     = List.length (Store.news_articles (db w)) + stored attempt
  /\ Store.web_data (db (snd out)) = Store.web_data (db w)
  /\ Store.api_data (db (snd out)) = Store.api_data (db w)
  /\ files (snd out) = files w
  /\ (exists line, log (snd out) = log w ++ [line])
  /\ moment (snd out) = 3 + moment w.
Proof.
  intros Hc out attempt. subst out attempt.
  unfold save_item, save_to_database, stored. simpl.
  autorewrite with world. rewrite Hc.
  destruct (statement_fault E (S (moment w))) as [x |]; simpl;
    autorewrite with world; simpl; rewrite ?app_nil_r.
  - repeat split; try reflexivity; [lia | eexists; reflexivity].
  - repeat split; try reflexivity; [| eexists; reflexivity].
    rewrite length_app. reflexivity.
Qed.

Lemma news_loop_attempts (E : env) (feed_url : string) (items : list Soup.node) :
  forall w,
    (forall t, t < 3 * List.length items + moment w -> connect_fault E t = None) ->
    let out := run E (for_each items (save_item feed_url)) w in
    let attempts := news_attempts E feed_url items (moment w) in
    fst out = Returned tt
    /\ inserts (snd out) = inserts w ++ attempts
    /\ List.length (Store.news_articles (db (snd out)))
       = List.length (Store.news_articles (db w)) + stored attempts
    /\ Store.web_data (db (snd out)) = Store.web_data (db w)
    /\ Store.api_data (db (snd out)) = Store.api_data (db w)
    /\ files (snd out) = files w
    /\ (exists lines,
           log (snd out) = log w ++ lines
           /\ List.length lines = List.length items)
    /\ moment (snd out) = 3 * List.length items + moment w.
Proof.
  induction items as [| item rest IH]; intros w Hc out attempts;
    subst out attempts.
  - simpl. rewrite !app_nil_r. repeat split; try reflexivity; [unfold stored; simpl; lia |].
    exists []. rewrite app_nil_r. split; reflexivity.
  - change (for_each (item :: rest) (save_item feed_url))
      with (bind (save_item feed_url item)
                 (fun _ => for_each rest (save_item feed_url))).
    rewrite run_bind.
    assert (Hc1 : connect_fault E (S (moment w)) = None).
    { apply Hc. simpl. lia. }
    destruct (save_item_attempt E feed_url item w Hc1)
      as (Hr & Hi & Hn & Hw & Ha & Hf & (line & Hl) & Hm).
    destruct (run E (save_item feed_url item) w) as [res w1].
    simpl in Hr, Hi, Hn, Hw, Ha, Hf, Hl, Hm. subst res.
    assert (Hc' : forall t, t < 3 * List.length rest + moment w1 ->
                            connect_fault E t = None).
    { intros t Ht. apply Hc. simpl. lia. }
    destruct (IH w1 Hc')
      as (Hr' & Hi' & Hn' & Hw' & Ha' & Hf' & (lines & Hl' & Hlen) & Hm').
    repeat split.
    + exact Hr'.
    + rewrite Hi', Hi, Hm, <- app_assoc. reflexivity.
    + rewrite Hn', Hn, Hm. unfold stored. simpl.
      destruct (statement_fault E (S (moment w))); simpl; lia.
    + congruence.
    + congruence.
    + congruence.
    + exists (line :: lines). rewrite Hl', Hl, <- app_assoc. simpl.
      split; [reflexivity | lia].
    + rewrite Hm', Hm. simpl. lia.
Qed.

Lemma news_attempts_length (E : env) (feed_url : string) (items : list Soup.node)
      (m : nat) :
  List.length (news_attempts E feed_url items m) = List.length items.
Proof.
  revert m; induction items as [| item rest IH]; intro m; simpl; auto.
Qed.

Lemma parse_rss_feed_loop (P : parsers) (feed_url : string) :
  parse_rss_feed P feed_url
  = catch
      (bind (requests_get feed_url)
         (fun response =>
            bind (raise_for_status feed_url response)
              (fun _ =>
                 bind (of_sum (xml_parser P (body response)))
                   (fun soup =>
                      bind (for_each (Soup.find_all ["item"] soup)
                                     (save_item feed_url))
                        (fun _ => logger_info
                                    ("Successfully parsed RSS feed from "
                                     +++ feed_url))))))
      (fun e => logger_error
                  ("Error parsing RSS feed " +++ feed_url +++ ": " +++ str e)).
Proof. reflexivity. Qed.

(** X18.  A refused insert does not stop the loop of [parse_rss_feed]:
    while the database can be reached every item is attempted once, in
    order, each stored unless its statement is refused, and the feed is
    logged as parsed whatever the number of rows stored. *)
Theorem refused_items_are_skipped (P : parsers) (E : env) (feed_url : string)
        (w : world) (r : response) (soup : Soup.node) :
  fetched E w feed_url r ->
  xml_parser P (body r) = inr soup ->
  (forall t, connect_fault E t = None) ->
  let out := run E (parse_rss_feed P feed_url) w in
  let items := Soup.find_all ["item"] soup in
  let attempts := news_attempts E feed_url items (1 + moment w) in
  fst out = Returned tt
  /\ inserts (snd out) = inserts w ++ attempts
  /\ List.length attempts = List.length items
  /\ List.length (Store.news_articles (db (snd out)))
     = List.length (Store.news_articles (db w)) + stored attempts
  /\ exists lines,
       List.length lines = List.length items
       /\ log (snd out)
          = log w ++ lines
            ++ [(INFO, "Successfully parsed RSS feed from " +++ feed_url)].
Proof.
  intros [Hnet Hstatus] Hxml Hc out items attempts. subst out.
  rewrite parse_rss_feed_loop.
  rewrite run_catch, run_bind, (run_requests_get E feed_url w r Hnet).
  cbv beta iota.
  rewrite run_bind, (run_status_ok E feed_url r _ Hstatus). cbv beta iota.
  rewrite run_bind, Hxml. cbn [of_sum run]. cbv beta iota.
  fold items. rewrite run_bind.
  destruct (news_loop_attempts E feed_url items (emit (EGet feed_url) w)
              (fun t _ => Hc t))
    as (Hr & Hi & Hn & _ & _ & _ & (lines & Hl & Hlen) & _).
  destruct (run E (for_each items (save_item feed_url)) (emit (EGet feed_url) w))
    as [res w1]. simpl in Hr, Hi, Hn, Hl. subst res.
  simpl. autorewrite with world in *. simpl in Hl, Hi.
  rewrite app_nil_r in Hl, Hi. simpl inserts_of. rewrite app_nil_r.
  split; [reflexivity |]. split; [exact Hi |]. split.
  { apply news_attempts_length. }
  split; [exact Hn |].
  exists lines. split; [exact Hlen |]. rewrite Hl, <- app_assoc. reflexivity.
Qed.

Lemma refused_items_are_skipped_witness :
  let E := Sample.locked Sample.feed_body in
  let out := run E (parse_rss_feed Sample.P "http://x/rss") Sample.fresh in
  fst out = Returned tt
  /\ List.length (inserts (snd out)) = 2
  /\ Store.news_articles (db (snd out)) = [].
Proof.
  intros E out.
  destruct (refused_items_are_skipped Sample.P E "http://x/rss" Sample.fresh
              (mk_response 200 "OK" Sample.feed_body) Sample.feed_tree
              (conj eq_refl eq_refl) eq_refl (fun _ => eq_refl))
    as (Hr & Hi & Hlen & Hn & _).
  fold out in Hr, Hi, Hn.
  split; [exact Hr |]. split.
  - rewrite Hi. reflexivity.
  - destruct (Store.news_articles (db (snd out))); [reflexivity |].
    simpl in Hn. discriminate Hn.
Defined.

(** X19.  When the database cannot be reached for an item, the loop of
    [parse_rss_feed] ends there: the rows of the items before it stay,
    the item is attempted and not stored, the items after it are not
    attempted, and one error line naming the feed is logged. *)
Theorem unreachable_database_ends_the_feed (P : parsers) (E : env)
        (feed_url : string) (w : world) (r : response) (soup : Soup.node)
        (done rest : list Soup.node) (item : Soup.node) (e : exn) :
  fetched E w feed_url r ->
  xml_parser P (body r) = inr soup ->
  Soup.find_all ["item"] soup = done ++ item :: rest ->
  let bad := 2 + moment w + 3 * List.length done in
  (forall t, t < bad -> connect_fault E t = None) ->
  connect_fault E bad = Some e ->
  let out := run E (parse_rss_feed P feed_url) w in
  let attempts := news_attempts E feed_url done (1 + moment w) in
  fst out = Returned tt
  /\ inserts (snd out)
     = inserts w ++ attempts
       ++ [("news_articles",
            news_record feed_url item (now E (bad - 1)), false)]
  /\ List.length (Store.news_articles (db (snd out)))
     = List.length (Store.news_articles (db w)) + stored attempts
  /\ exists lines,
       List.length lines = List.length done
       /\ log (snd out)
          = log w ++ lines
            ++ [(ERROR, "Error parsing RSS feed " +++ feed_url +++ ": " +++ str e)].
Proof.
  intros [Hnet Hstatus] Hxml Hitems bad Hc Hbad out attempts. subst out.
  rewrite parse_rss_feed_loop.
  rewrite run_catch, run_bind, (run_requests_get E feed_url w r Hnet).
  cbv beta iota.
  rewrite run_bind, (run_status_ok E feed_url r _ Hstatus). cbv beta iota.
  rewrite run_bind, Hxml. cbn [of_sum run]. cbv beta iota.
  rewrite Hitems, run_bind, run_for_each_app.
  assert (Hc' : forall t, t < 3 * List.length done + moment (emit (EGet feed_url) w) ->
                          connect_fault E t = None).
  { intros t Ht. apply Hc. autorewrite with world in Ht. unfold bad. lia. }
  destruct (news_loop_attempts E feed_url done (emit (EGet feed_url) w) Hc')
    as (Hr & Hi & Hn & _ & _ & _ & (lines & Hl & Hlen) & Hm).
  destruct (run E (for_each done (save_item feed_url)) (emit (EGet feed_url) w))
    as [res w1]. simpl in Hr, Hi, Hn, Hl, Hm. subst res.
  autorewrite with world in Hi, Hl, Hm, Hn. simpl in Hi, Hl.
  rewrite app_nil_r in Hi, Hl.
  assert (Hb : S (moment w1) = bad) by (unfold bad; lia).
  assert (Hb' : bad - 1 = moment w1) by lia.
  clearbody bad.
  change (for_each (item :: rest) (save_item feed_url))
    with (bind (save_item feed_url item)
               (fun _ => for_each rest (save_item feed_url))).
  unfold save_item at 1, save_to_database. simpl.
  autorewrite with world. rewrite Hb, Hbad. simpl.
  autorewrite with world. simpl. rewrite !app_nil_r, Hb'.
  split; [reflexivity |]. split; [rewrite Hi, <- app_assoc; reflexivity |].
  split; [exact Hn |].
  exists lines. split; [exact Hlen |]. rewrite Hl, <- app_assoc. reflexivity.
Qed.

Lemma unreachable_database_ends_the_feed_witness :
  let down := mk_exn DatabaseError "unable to open database file" in
  let E := mk_env (fun _ _ => inr (mk_response 200 "OK" Sample.feed_body))
                  (fun _ => Sample.noon) (fun t => t)
                  (fun t => if t =? 5 then Some down else None)
                  (fun _ => None) (fun _ => None) (fun _ => "0.01 MB") in
  let out := run E (parse_rss_feed Sample.P "http://x/rss") Sample.fresh in
  fst out = Returned tt
  /\ List.length (inserts (snd out)) = 2
  /\ List.length (Store.news_articles (db (snd out))) = 1.
Proof.
  intros down E out.
  destruct (unreachable_database_ends_the_feed Sample.P E "http://x/rss"
              Sample.fresh (mk_response 200 "OK" Sample.feed_body)
              Sample.feed_tree
              [Soup.Tag "item"
                 [Soup.Tag "title" [Soup.Str Soup.Text "A"];
                  Soup.Tag "pubDate" [Soup.Str Soup.Text "Mon"]]]
              []
              (Soup.Tag "item"
                 [Soup.Tag "description" [Soup.Str Soup.Text "d"];
                  Soup.Tag "link" [Soup.Str Soup.Text "http://l"]])
              down (conj eq_refl eq_refl) eq_refl eq_refl)
    as (Hr & Hi & Hn & _).
  - intros t Ht. simpl in Ht.
    do 5 (destruct t as [| t]; [reflexivity |]). lia.
  - reflexivity.
  - fold out in Hr, Hi, Hn. split; [exact Hr |]. split.
    + rewrite Hi. reflexivity.
    + rewrite Hn. reflexivity.
Defined.

(* ================================================================== *)
(** * The store *)

(** ** Insert and look up *)

Lemma dict_keys_known (cols : list string) (data : pydict) :
  (forall k, In k (map fst data) -> In k cols) ->
  List.find (fun k => negb (Store.known cols k)) (map fst data) = None.
Proof.
  induction (map fst data) as [| k ks IH]; intro H; [reflexivity |].
  simpl. assert (Hk : Store.known cols k = true).
  { unfold Store.known. apply existsb_exists.
    exists k. split; [apply H; left; reflexivity | apply String.eqb_refl]. }
  rewrite Hk. simpl. apply IH. intros k' Hk'. apply H. right. exact Hk'.
Qed.

Lemma get_field (cols : list string) (data : pydict) (c : string) :
  In c cols ->
  List.find (fun kv => String.eqb c (fst kv)) (map (Store.field data) cols)
  = Some (Store.field data c).
Proof.
  induction cols as [| c' cols IH]; intro Hin; [contradiction |].
  simpl. destruct (String.eqb_spec c c') as [-> | Hne]; [reflexivity |].
  apply IH. destruct Hin as [-> | Hin]; [contradiction | assumption].
Qed.

Lemma no_id_column (table : string) (cols : list string) :
  Store.columns table = Some cols -> ~ In "id" cols.
Proof.
  unfold Store.columns.
  repeat match goal with
         | |- context [String.eqb table ?s] => destruct (String.eqb table s)
         end;
    intro H; try discriminate; injection H as <-; simpl; intuition discriminate.
Qed.

Lemma rows_after_insert (table : string) (data : pydict) (d d' : Store.db) :
  Store.insert table data d = inr d' ->
  exists cols before,
    Store.columns table = Some cols
    /\ Store.rows table d = Some before
    /\ Store.rows table d'
       = Some (before ++ [Store.new_row cols data (List.length before)])
    /\ forall t, t <> table -> Store.rows t d' = Store.rows t d.
Proof.
  intro H.
  destruct (insert_accepted table data d d' H) as [[-> ->] | [[-> ->] | [-> ->]]].
  - exists web_columns, (Store.web_data d). repeat split.
    intros t Ht. unfold Store.rows. simpl.
    destruct (String.eqb_spec t "web_data"); [contradiction | reflexivity].
  - exists api_columns, (Store.api_data d). repeat split.
    intros t Ht. unfold Store.rows. simpl.
    destruct (String.eqb_spec t "api_data"); [contradiction |].
    destruct (String.eqb t "web_data"); reflexivity.
  - exists news_columns, (Store.news_articles d). repeat split.
    intros t Ht. unfold Store.rows. simpl.
    destruct (String.eqb_spec t "news_articles"); [contradiction |].
    destruct (String.eqb t "web_data"); [reflexivity |].
    destruct (String.eqb t "api_data"); reflexivity.
Qed.

Lemma insert_goes_through (table : string) (cols : list string) (data : pydict)
      (d : Store.db) :
  Store.columns table = Some cols -> data <> [] ->
  (forall k, In k (map fst data) -> In k cols) ->
  exists d', Store.insert table data d = inr d'.
Proof.
  intros Hcols Hne Hkeys. unfold Store.insert.
  destruct data as [| kv data]; [contradiction |].
  rewrite Hcols.
  assert (Hrows : exists rs, Store.rows table d = Some rs).
  { unfold Store.columns in Hcols. unfold Store.rows.
    repeat match goal with
           | |- context [String.eqb table ?s] => destruct (String.eqb table s)
           end; try discriminate; eexists; reflexivity. }
  destruct Hrows as [rs ->].
  rewrite (dict_keys_known cols (kv :: data) Hkeys). eexists. reflexivity.
Qed.

(** X16.  An accepted [save_to_database] of a dict whose keys are text
    columns of the table adds one row at the end of that table and touches
    no other: each column holds the dict's value for it and [NULL] when
    the dict has no such key, one line is logged, and
    [count_table_records] then answers one more.  The [timestamp] column,
    declared [DATETIME], is left out of the keys: SQLite may store a text
    there as a number. *)
Theorem save_to_database_stores (E : env) (table : string) (cols : list string)
        (data : pydict) (w : world) :
  store_accepts E (moment w) ->
  connect_fault E (2 + moment w) = None ->
  Store.columns table = Some cols ->
  data <> [] ->
  NoDup (map fst data) ->
  (forall k, In k (map fst data) -> In k cols /\ k <> "timestamp") ->
  let out := run E (save_to_database table data) w in
  exists before row,
    fst out = Returned tt
    /\ Store.rows table (db w) = Some before
    /\ Store.rows table (db (snd out)) = Some (before ++ [row])
    /\ (forall t, t <> table -> Store.rows t (db (snd out)) = Store.rows t (db w))
    /\ (forall c, In c cols ->
                  Store.get c row
                  = Some (match dict_get c data with
                          | Some v => Store.cell_of v
                          | None => Store.Null
                          end))
    /\ log (snd out) = log w ++ [(INFO, "Saved data to " +++ table +++ " table")]
    /\ fst (run E (count_table_records table) (snd out))
       = Returned (S (List.length before)).
Proof.
  intros [Hc Hs] Hc2 Hcols Hne _ Hkeys out. subst out.
  assert (Hin : forall k, In k (map fst data) -> In k cols)
    by (intros k Hk; apply (Hkeys k Hk)).
  destruct (insert_goes_through table cols data (db w) Hcols Hne Hin) as [d' Hi].
  destruct (rows_after_insert table data (db w) d' Hi)
    as (cols' & before & Hcols' & Hb & Ha & Hother).
  rewrite Hcols in Hcols'. injection Hcols' as <-.
  exists before, (Store.new_row cols data (List.length before)).
  unfold save_to_database, count_table_records. simpl.
  rewrite Hc, Hs, Hi. simpl. autorewrite with world. simpl in Hc2.
  rewrite Hc2. unfold Store.count. rewrite Ha. simpl.
  rewrite length_app. simpl. rewrite Nat.add_1_r, app_nil_r.
  repeat split; try assumption; try reflexivity.
  intros c Hc'. unfold Store.get, Store.new_row. simpl.
  destruct (String.eqb_spec c "id") as [-> | _].
  - exfalso. exact (no_id_column table cols Hcols Hc').
  - rewrite (get_field cols data c Hc'). reflexivity.
Qed.

Lemma save_to_database_stores_witness :
  let E := Sample.serving "" in
  let out := run E (save_to_database "web_data" [("url", Some "http://x")])
                 Sample.fresh in
  exists row,
    Store.rows "web_data" (db (snd out)) = Some [row]
    /\ Store.get "url" row = Some (Store.Txt "http://x")
    /\ Store.get "title" row = Some Store.Null.
Proof.
  intros E out.
  destruct (save_to_database_stores E "web_data" web_columns
              [("url", Some "http://x")] Sample.fresh
              (conj eq_refl eq_refl) eq_refl eq_refl)
    as (before & row & _ & Hb & Ha & _ & Hget & _).
  - discriminate.
  - repeat constructor. simpl. tauto.
  - intros k [<- | []]. split; [simpl; auto | discriminate].
  - injection Hb as <-. exists row. split; [exact Ha |]. split.
    + apply (Hget "url"). simpl. auto.
    + apply (Hget "title"). simpl. auto.
Defined.

(** ** The dicts of the collector against the tables *)

(** X23.  The dict each method builds has exactly the columns, [id] apart,
    that [init_database] gives its table, in the same order: SQLite never
    refuses an insert of the collector for its shape, whatever the table
    holds, so only a fault of the database can keep such a row out. *)
Theorem collector_records_fit_the_schema (E : env) (w : world) (url : string)
        (soup item : Soup.node) (data : Json.value) (t : datetime) :
  let page := web_record url soup t in
  let payload := api_record url data t in
  let article := news_record url item t in
  (Store.columns "web_data" = Some (map fst page)
   /\ Store.columns "api_data" = Some (map fst payload)
   /\ Store.columns "news_articles" = Some (map fst article))
  /\ (insert_error E "web_data" page w = statement_fault E (moment w)
      /\ insert_error E "api_data" payload w = statement_fault E (moment w)
      /\ insert_error E "news_articles" article w = statement_fault E (moment w))
  /\ (verdict "web_data" page = Inserted
      /\ verdict "api_data" payload = Inserted
      /\ verdict "news_articles" article = Inserted).
Proof.
  intros page payload article.
  split; [repeat split |]. split; [| repeat split].
  unfold insert_error.
  destruct (statement_fault E (moment w)); repeat split.
Qed.

(* ================================================================== *)
(** * The run as a whole *)

(** ** One worker *)

Lemma single_worker_step (E : env) (i : nat) (q : list task) (o : option task)
      (w : world) :
  exists q' o',
    fst (pool_step E i (mk_pool q [o], w)) = mk_pool q' [o']
    /\ drain E (mk_pool q' [o']) (snd (pool_step E i (mk_pool q [o], w)))
       = drain E (mk_pool q [o]) w.
Proof.
  unfold pool_step, drain. simpl.
  destruct i as [| i]; simpl.
  - destruct o as [[a | x | X e k] |]; simpl.
    + exists q, None. split; reflexivity.
    + exists q, None. split; reflexivity.
    + destruct (perform E e w) as [y w'] eqn:Hp. simpl.
      exists q, (Some (k y)). split; reflexivity.
    + destruct q as [| t q]; simpl.
      * exists [], None. split; reflexivity.
      * exists q, (Some t). split; reflexivity.
  - destruct i; simpl; exists q, o; split; reflexivity.
Qed.

Lemma single_worker_run (E : env) (sched : list nat) :
  forall (q : list task) (o : option task) (w : world),
    drain E (fst (pool_run E sched (mk_pool q [o], w)))
          (snd (pool_run E sched (mk_pool q [o], w)))
    = drain E (mk_pool q [o]) w.
Proof.
  induction sched as [| i sched IH]; intros q o w; [reflexivity |].
  change (pool_run E (i :: sched) (mk_pool q [o], w))
    with (pool_run E sched (pool_step E i (mk_pool q [o], w))).
  destruct (single_worker_step E i q o w) as (q' & o' & Hp & Hd).
  destruct (pool_step E i (mk_pool q [o], w)) as [p1 w1]. simpl in Hp, Hd.
  subst p1. rewrite IH. exact Hd.
Qed.

(** X12.  With [max_workers = 1] the schedule decides nothing: the jobs run
    one after the other in the order they were submitted, and the run is
    the sequential one. *)
Theorem single_worker_is_sequential (P : parsers) (E : env) (S : sources)
        (sched : list nat) (w : world) :
  collect_all_from P E S 1 sched w
  = match run E starting w with
    | (Raised e, w1) => (Raised e, w1)
    | (Returned start_time, w1) =>
        run E (finishing start_time) (run_all E (work_items P S) w1)
    end.
Proof.
  unfold collect_all_from.
  destruct (run E starting w) as [[t0 | e] w1]; [| reflexivity].
  change (1 <=? 0)%Z with false. cbv iota.
  change (repeat None (Z.to_nat 1)) with [@None task].
  pose proof (single_worker_run E sched (work_items P S) None w1) as H.
  destruct (pool_run E sched _) as [p w2]. simpl in H. rewrite H.
  reflexivity.
Qed.

(** ** The log of a run *)

Lemma every_anything {A : Type} (p : prog A) : every anything p.
Proof. induction p as [a | e | X e k IH]; simpl; auto. split; [exact I | exact IH]. Qed.

Lemma perform_log (E : env) {X : Type} (e : eff X) (w : world) :
  exists l, log (snd (perform E e w)) = log w ++ l.
Proof.
  destruct e; simpl;
    repeat match goal with
           | |- context [match ?x with _ => _ end] => destruct x; simpl
           end;
    autorewrite with world; eexists; reflexivity.
Qed.

Lemma log_grows_keeps (E : env) (w0 : world) (X : Type) (e : eff X) (w : world) :
  anything X e ->
  (exists l, log w = log w0 ++ l) ->
  exists l, log (snd (perform E e w)) = log w0 ++ l.
Proof.
  intros _ [l Hl]. destruct (perform_log E e w) as [l' Hl'].
  exists (l ++ l'). rewrite Hl', Hl, app_assoc. reflexivity.
Qed.

(** How a report ends: written and announced, or failed on a fault of the
    database or of the file, nothing written and nothing logged. *)
Lemma generate_summary_report_ends (E : env) (w : world) :
  let out := run E generate_summary_report w in
  (exists r, fst out = Returned r /\ log (snd out) = log w ++ [generated])
  \/ (exists e, fst out = Raised e /\ fault_of E e
                /\ log (snd out) = log w /\ files (snd out) = files w
                /\ db (snd out) = db w).
Proof.
  intro out. subst out.
  unfold generate_summary_report, count_table_records, of_sum, json_dump_to.
  simpl. autorewrite with world.
  destruct (connect_fault E (S (moment w))) as [e |] eqn:H1.
  { right. exists e. simpl. autorewrite with world. simpl.
    rewrite ?app_nil_r. split; [reflexivity |].
    split; [exists (S (moment w)); left; exact H1 |].
    repeat split; reflexivity. }
  simpl. autorewrite with world.
  destruct (connect_fault E (S (S (moment w)))) as [e |] eqn:H2.
  { right. exists e. simpl. autorewrite with world. simpl.
    rewrite ?app_nil_r. split; [reflexivity |].
    split; [exists (S (S (moment w))); left; exact H2 |].
    repeat split; reflexivity. }
  simpl. autorewrite with world.
  destruct (connect_fault E (S (S (S (moment w))))) as [e |] eqn:H3.
  { right. exists e. simpl. autorewrite with world. simpl.
    rewrite ?app_nil_r. split; [reflexivity |].
    split; [exists (S (S (S (moment w)))); left; exact H3 |].
    repeat split; reflexivity. }
  simpl. autorewrite with world.
  destruct (open_fault E _) as [e |] eqn:H4.
  { right. exists e. simpl. autorewrite with world. simpl.
    rewrite ?app_nil_r. split; [reflexivity |]. split; [eexists; right; exact H4 |].
    repeat split; reflexivity. }
  left. simpl. eexists. autorewrite with world. simpl.
  rewrite ?app_nil_r. split; reflexivity.
Qed.

(** The pool and the drain only add to the log. *)
Lemma pool_log_grows (E : env) (sched : list nat) (p : pool) (w : world) :
  exists l,
    log (drain E (fst (pool_run E sched (p, w))) (snd (pool_run E sched (p, w))))
    = log w ++ l.
Proof.
  assert (Hall : forall ts, Forall (every anything (A:=unit)) ts).
  { intro ts. induction ts; constructor; auto. apply every_anything. }
  destruct (pool_run_every E anything (fun w' => exists l, log w' = log w ++ l)
              (log_grows_keeps E w) sched p w (Hall _))
    as [_ H2].
  { exists []. rewrite app_nil_r. reflexivity. }
  destruct (pool_run E sched (p, w)) as [p' w2]. simpl in *.
  apply (run_all_every E anything (fun w' => exists l, log w' = log w ++ l)
           (log_grows_keeps E w)); [apply Hall | exact H2].
Qed.

(** What is left of a run once the pool is empty: the duration, the
    completion line and the report. *)
Lemma finishing_ends (E : env) (t0 : nat) (w : world) :
  let out := run E (finishing t0) w in
  exists seconds w0,
    log w0 = log w ++ [completed seconds]
    /\ db w0 = db w
    /\ ((fst out = Returned tt /\ log (snd out) = log w0 ++ [generated])
        \/ (exists e, fst out = Raised e /\ fault_of E e
                      /\ run E generate_summary_report w0 = (Raised e, snd out)
                      /\ log (snd out) = log w0 /\ files (snd out) = files w0
                      /\ db (snd out) = db w0)).
Proof.
  intro out. subst out. unfold finishing.
  remember generate_summary_report as g eqn:Hg.
  simpl. rewrite run_bind.
  match goal with
  | |- context [run E g ?w0] =>
      exists (fmt2f (clock E (moment w) - t0)), w0;
        pose proof (generate_summary_report_ends E w0) as H
  end.
  rewrite <- Hg in H. simpl in H.
  split; [autorewrite with world; simpl; rewrite app_nil_r; reflexivity |].
  split; [autorewrite with world; reflexivity |].
  destruct H as [(r & Hr & Hl) | (e & He & Hf & Hl & Hfi & Hd)].
  - left. destruct (run E g _) as [res w1]. simpl in *. subst res. simpl.
    split; [reflexivity | exact Hl].
  - right. exists e. destruct (run E g _) as [res w1]. simpl in *. subst res.
    simpl. repeat split; assumption.
Qed.

(** X13.  With a positive pool size, whatever the schedule, the log of a
    run opens with the starting line and closes with the completion line,
    followed only by the report line when the report was written: every
    line of every job stands between the two. *)
Theorem completion_is_logged_last (P : parsers) (E : env) (S : sources)
        (max_workers : Z) (sched : list nat) (w : world) :
  (0 < max_workers)%Z ->
  let out := collect_all_from P E S max_workers sched w in
  exists jobs seconds,
    (fst out = Returned tt
     /\ log (snd out)
        = log w ++ started :: jobs ++ [completed seconds; generated])
    \/ (exists e, fst out = Raised e
                  /\ log (snd out) = log w ++ started :: jobs ++ [completed seconds]).
Proof.
  intros Hpos out. subst out. unfold collect_all_from.
  destruct (run E starting w) as [[t0 | x] w1] eqn:Hstart;
    unfold starting in Hstart; simpl in Hstart; [| discriminate].
  injection Hstart as <- <-.
  assert (Hle : (max_workers <=? 0)%Z = false) by (apply Z.leb_gt; exact Hpos).
  rewrite Hle.
  match goal with
  | |- context [pool_run E sched (?p0, ?w1)] =>
      destruct (pool_log_grows E sched p0 w1) as [jobs Hjobs];
        destruct (pool_run E sched (p0, w1)) as [p w2]
  end.
  simpl in Hjobs. autorewrite with world in Hjobs. simpl in Hjobs.
  rewrite app_nil_r in Hjobs.
  match goal with
  | |- context [run E (finishing ?t0) ?w3] =>
      destruct (finishing_ends E t0 w3) as (seconds & w0 & Hl0 & _ & Hend)
  end.
  exists jobs, seconds.
  destruct Hend as [[Hr Hl] | (e & Hr & _ & _ & Hl & _)].
  - left. split; [exact Hr |]. rewrite Hl, Hl0, Hjobs, <- !app_assoc. reflexivity.
  - right. exists e. split; [exact Hr |].
    rewrite Hl, Hl0, Hjobs, <- !app_assoc. reflexivity.
Qed.

Lemma completion_is_logged_last_witness :
  let out := collect_all_data Sample.P (Sample.serving "[]") 2 [0; 1; 0] Sample.fresh in
  exists jobs seconds,
    (fst out = Returned tt
     /\ log (snd out)
        = log Sample.fresh ++ started :: jobs ++ [completed seconds; generated])
    \/ (exists e, fst out = Raised e
                  /\ log (snd out)
                     = log Sample.fresh ++ started :: jobs ++ [completed seconds]).
Proof.
  apply (completion_is_logged_last Sample.P (Sample.serving "[]") configured 2
           [0; 1; 0] Sample.fresh).
  lia.
Defined.



(** ** The lines of the loops *)

Lemma loop_lines_performed (E : env) (X : Type) (e : eff X) (w : world) :
  any_answer X e (fst (perform E e w))
  /\ loop_lines (snd (perform E e w))
     = loop_lines w ++ loop_line_of X e (fst (perform E e w)).
Proof.
  split; [exact I |]. unfold loop_lines.
  destruct e; cbn [perform fst snd loop_line_of];
    repeat match goal with
           | |- context [match ?x with _ => _ end] => destruct x; cbn [fst snd]
           end;
    autorewrite with world; cbn [log_of flat_map app];
    rewrite ?filter_app, ?app_nil_r; reflexivity.
Qed.

Ltac quiet_lines :=
  repeat first [progress intros
               | progress unfold raise_for_status, of_sum
               | progress cbn [yields bind catch for_each of_sum loop_line_of
                               raise_for_status requests_get save_to_database
                               logger_info logger_error json_dump_to datetime_now
                               count_table_records get_storage_size os_listdir]
               | match goal with
                 | |- exists l', _ = _ /\ _ => exists []; split; [reflexivity |]
                 | |- context [match ?x with _ => _ end] => destruct x
                 end];
  auto.

Lemma flat_map_one {A B : Type} (f : A -> B) (l : list A) :
  flat_map (fun a => [f a]) l = map f l.
Proof. induction l; simpl; congruence. Qed.

Section LoopLines.

Variable P : parsers.

Lemma scrape_website_no_loop_line (url : string) :
  yields any_answer loop_line_of [] (scrape_website P url).
Proof. unfold scrape_website. quiet_lines. Qed.

Lemma fetch_from_api_no_loop_line (url : string) :
  yields any_answer loop_line_of [] (fetch_from_api P url).
Proof. unfold fetch_from_api. quiet_lines. Qed.

Lemma parse_rss_feed_no_loop_line (url : string) :
  yields any_answer loop_line_of [] (parse_rss_feed P url).
Proof.
  rewrite parse_rss_feed_loop. apply yields_catch; [| quiet_lines].
  cbn [bind requests_get yields]. intros x _. exists []. split; [reflexivity |].
  destruct x as [e | r]; [reflexivity |]. cbn [bind].
  unfold raise_for_status. destruct (status_error url r); [reflexivity |].
  cbn [bind]. destruct (xml_parser P (body r)); [reflexivity |]. cbn [bind of_sum].
  apply yields_bind_quiet; [| quiet_lines].
  apply yields_for_each_quiet. intro item. unfold save_item. quiet_lines.
Qed.

Lemma yields_catch_unfailing {O A : Type}
      (admissible : forall X, eff X -> X -> Prop)
      (entry : forall X, eff X -> X -> list O)
      (l : list O) (p : prog A) (h : exn -> prog A) :
  returns admissible p -> yields admissible entry l p ->
  yields admissible entry l (catch p h).
Proof.
  revert l; induction p as [a | e | X e k IH]; intros l Hr Hp; simpl in *.
  - assumption.
  - contradiction.
  - intros x Hx. destruct (Hp x Hx) as (l' & -> & Hk).
    exists l'. split; [reflexivity | auto].
Qed.

Lemma collect_news_from_no_loop_line (l : list string) :
  yields any_answer loop_line_of [] (collect_news_from P l).
Proof.
  apply yields_for_each_quiet. intro u.
  destruct (PyStr.contains "rss" u) eqn:Hu.
  - apply yields_catch_unfailing.
    + apply parse_rss_feed_unfailing.
    + apply parse_rss_feed_no_loop_line.
  - apply yields_catch_unfailing.
    + apply returns_bind; [apply fetch_from_api_unfailing | intro; exact I].
    + apply yields_bind_quiet; [apply fetch_from_api_no_loop_line | quiet_lines].
Qed.

Lemma collect_datasets_from_lines (l : list string) :
  yields any_answer loop_line_of (map collected_dataset l)
         (collect_datasets_from P l).
Proof.
  rewrite <- flat_map_one.
  apply yields_for_each.
  - intro u. apply returns_catch. by_cases.
  - intro u. apply yields_catch_unfailing.
    + apply returns_bind; [apply scrape_website_unfailing | intro; exact (fun _ _ => I)].
    + apply (yields_bind _ any_answer loop_line_of [] [collected_dataset u]).
      * apply scrape_website_unfailing.
      * apply scrape_website_no_loop_line.
      * intros _ x _. exists []. split; reflexivity.
Qed.

Lemma collect_government_from_lines (l : list string) :
  yields any_answer loop_line_of (map collected_government l)
         (collect_government_from P l).
Proof.
  rewrite <- flat_map_one.
  apply yields_for_each.
  - intro u. apply returns_catch. by_cases.
  - intro u. apply yields_catch_unfailing.
    + apply returns_bind; [apply scrape_website_unfailing | intro; exact (fun _ _ => I)].
    + apply (yields_bind _ any_answer loop_line_of [] [collected_government u]).
      * apply scrape_website_unfailing.
      * apply scrape_website_no_loop_line.
      * intros _ x _. exists []. split; reflexivity.
Qed.

End LoopLines.

Lemma flat_map_nothing {A B : Type} (l : list A) :
  flat_map (fun _ : A => @nil B) l = [].
Proof. induction l; simpl; auto. Qed.

(** X22.  Under every schedule a run logs exactly one [Collected ...] line
    for each dataset URL and each government URL, whether or not the page
    could be scraped, and never an [Error collecting ...] line:
    [scrape_website], [fetch_from_api] and [parse_rss_feed] raise nothing,
    so the handlers of the three loops never run. *)
Theorem loops_report_every_url (P : parsers) (E : env) (S : sources)
        (max_workers : Z) (sched : list nat) (w : world) :
  (0 < max_workers)%Z ->
  Permutation (loop_lines (snd (collect_all_from P E S max_workers sched w)))
              (loop_lines w
               ++ map collected_dataset (datasets_group S)
               ++ map collected_government (government_group S)).
Proof.
  intro Hpos.
  pose proof (work_items_due _ any_answer loop_line_of P S
                (fun _ => []) (fun _ => []) []
                (map collected_dataset (datasets_group S))
                (map collected_government (government_group S))
                (scrape_website_no_loop_line P) (fetch_from_api_no_loop_line P)
                (collect_news_from_no_loop_line P _)
                (collect_datasets_from_lines P _)
                (collect_government_from_lines P _)) as Hdue.
  rewrite !flat_map_nothing in Hdue. simpl in Hdue.
  apply (collect_all_ledger _ any_answer loop_line_of E loop_lines
           (loop_lines_performed E) P S max_workers sched w _ Hpos).
  - unfold starting. quiet_lines.
  - intro t. unfold finishing, generate_summary_report. quiet_lines.
  - exact Hdue.
Qed.

Lemma loops_report_every_url_witness :
  let E := mk_env (fun _ _ => inl (mk_exn RequestException "Connection refused"))
                  (fun _ => Sample.noon) (fun t => t)
                  (fun _ => None) (fun _ => None) (fun _ => None)
                  (fun _ => "0.00 MB") in
  let w' := snd (collect_all_data Sample.P E 2 [0; 1; 1; 0] Sample.fresh) in
  Permutation (loop_lines w')
              (map collected_dataset public_datasets
               ++ map collected_government government_sources).
Proof.
  apply (loops_report_every_url Sample.P _ configured 2 [0; 1; 1; 0] Sample.fresh).
  lia.
Defined.

(** ** The script *)



(* ================================================================== *)
(** * The size of the archive *)

Lemma round_half_even_near (n d : N) :
  (0 < d)%N ->
  (2 * n <= 2 * d * round_half_even n d + d
   /\ 2 * d * round_half_even n d <= 2 * n + d)%N.
Proof.
  intro Hd. unfold round_half_even.
  pose proof (N.div_mod n d) as Hn.
  pose proof (N.mod_lt n d) as Hr.
  assert (Hd' : d <> 0%N) by lia. specialize (Hn Hd'). specialize (Hr Hd').
  set (q := (n / d)%N) in *. set (r := (n mod d)%N) in *.
  destruct (N.ltb_spec (2 * r) d); [nia |].
  destruct (N.ltb_spec d (2 * r)); [nia |].
  destruct (N.even q); nia.
Qed.

Lemma round_half_even_mono (n n' d : N) :
  (0 < d)%N -> (n <= n')%N ->
  (round_half_even n d <= round_half_even n' d)%N.
Proof.
  intros Hd Hle. unfold round_half_even.
  assert (Hd' : d <> 0%N) by lia.
  pose proof (N.div_mod n d Hd') as Hn. pose proof (N.mod_lt n d Hd') as Hr.
  pose proof (N.div_mod n' d Hd') as Hn'. pose proof (N.mod_lt n' d Hd') as Hr'.
  set (q := (n / d)%N) in *. set (r := (n mod d)%N) in *.
  set (q' := (n' / d)%N) in *. set (r' := (n' mod d)%N) in *.
  assert (Hq : (q < q' \/ (q = q' /\ r <= r'))%N) by nia.
  destruct (N.ltb_spec (2 * r) d); destruct (N.ltb_spec (2 * r') d);
    destruct (N.ltb_spec d (2 * r)); destruct (N.ltb_spec d (2 * r'));
    destruct (N.even q) eqn:Eq; destruct (N.even q') eqn:Eq';
    try lia;
    destruct Hq as [Hq | [Hq Hrr]]; try lia;
    try (rewrite Hq in Eq; congruence).
Qed.

Lemma fold_add_perm (l l' : list N) (a : N) :
  Permutation l l' -> fold_left N.add l a = fold_left N.add l' a.
Proof.
  intro H. revert a. induction H; intro a; simpl.
  - reflexivity.
  - apply IHPermutation.
  - f_equal. lia.
  - rewrite IHPermutation1. apply IHPermutation2.
Qed.

(** Below [2^53] the total is a float as it stands. *)
Lemma float_of_int_exact (n : N) : (n < 2 ^ 53)%N -> float_of_int n = n.
Proof.
  intro Hn. unfold float_of_int.
  destruct (N.leb_spec (N.size n) 53) as [_ | Hbig]; [reflexivity |].
  exfalso.
  pose proof (N.size_le n) as Hle. rewrite N.succ_double_spec in Hle.
  assert (Hpow : (2 ^ 54 <= 2 ^ N.size n)%N) by (apply N.pow_le_mono_r; lia).
  change (2 ^ 54)%N with 18014398509481984%N in Hpow.
  change (2 ^ 53)%N with 9007199254740992%N in Hn.
  lia.
Qed.

(** X15.  For a total below [2^53] bytes [get_storage_size] prints the
    size in megabytes to the nearest hundredth: the division does not
    overflow, the figure is at most half a hundredth off, it never
    decreases when the total grows, and it is [0.00 MB] for every total
    under 5243 bytes.  Whatever the total, the result does not depend on
    the order in which the files are found. *)
Theorem storage_size_is_the_nearest_hundredth (total total' : N)
        (sizes sizes' : list N) :
  (total < 2 ^ 53)%N -> (total' < 2 ^ 53)%N ->
  let h := hundredths total in
  (exists text, megabytes total = inr text)
  /\ (2 * (100 * total) <= 2 * 1048576 * h + 1048576
      /\ 2 * 1048576 * h <= 2 * (100 * total) + 1048576)%N
  /\ ((total <= total')%N -> (hundredths total <= hundredths total')%N)
  /\ ((total < 5243)%N -> megabytes total = inr "0.00 MB")
  /\ (Permutation sizes sizes' ->
      get_storage_size_of sizes = get_storage_size_of sizes').
Proof.
  intros Hb Hb' h.
  pose proof (float_of_int_exact total Hb) as Hf.
  pose proof (float_of_int_exact total' Hb') as Hf'.
  assert (Hfits : (2 ^ 1044 <=? float_of_int total)%N = false).
  { rewrite Hf. apply N.leb_gt. apply N.lt_le_trans with (2 ^ 53)%N; [exact Hb |].
    apply N.pow_le_mono_r; lia. }
  assert (Hnear : (2 * (100 * total) <= 2 * 1048576 * h + 1048576
                   /\ 2 * 1048576 * h <= 2 * (100 * total) + 1048576)%N).
  { subst h. unfold hundredths. rewrite Hf.
    apply (round_half_even_near (100 * total) 1048576). lia. }
  split; [| split; [exact Hnear | split; [| split]]].
  - unfold megabytes. rewrite Hfits. eexists. reflexivity.
  - intro Hle. unfold hundredths. rewrite Hf, Hf'.
    apply round_half_even_mono; lia.
  - intro Hsmall. unfold megabytes. rewrite Hfits.
    assert (H0 : hundredths total = 0%N) by (fold h; lia).
    rewrite H0. reflexivity.
  - intro Hp. unfold get_storage_size_of. rewrite (fold_add_perm _ _ _ Hp).
    reflexivity.
Qed.

Lemma storage_size_is_the_nearest_hundredth_witness :
  megabytes 131072 = inr "0.12 MB" /\ megabytes 393216 = inr "0.38 MB"
  /\ megabytes 5242 = inr "0.00 MB" /\ megabytes 5243 = inr "0.01 MB"
  /\ megabytes 9007199254756721 = inr "8589934592.01 MB"
  /\ (hundredths 131072 <= hundredths 393216)%N.
Proof.
  split; [reflexivity |]. split; [reflexivity |]. split; [reflexivity |].
  split; [reflexivity |]. split; [reflexivity |].
  apply (proj1 (proj2 (proj2 (storage_size_is_the_nearest_hundredth
                                131072 393216 [] [] eq_refl eq_refl)))).
  lia.
Defined.
